(** * BottleMessage: the session store, its callers and the bottle pool

    A shallow embedding of [src/app.js] (the revision that keeps the
    sessions in [window.globalSessions] behind [SessionManager]) and of the
    ocean scene's bottle pool.  Mutable JavaScript state is passed
    explicitly: every operation takes the [World] it runs in and returns
    the [World] it leaves.  Sources of nondeterminism ([Math.random],
    [Date.now]) are arguments. *)

From Stdlib Require Import ZArith Ascii String.
From stdpp Require Import gmap strings list fin_maps pretty.

Local Open Scope Z_scope.
Local Open Scope string_scope.

(** ** JavaScript strings

    A string is a sequence of code units; the embedding keeps the code
    units below 256, which covers every literal of the program. *)
Module JS.

Definition chars (s : string) : list ascii := list_ascii_of_string s.
Definition str (l : list ascii) : string := string_of_list_ascii l.

(** [a || b] on a possibly missing string: the empty string is falsy. *)
Definition truthy (o : option string) : bool :=
  match o with
  | Some s => negb (String.eqb s "")
  | None => false
  end.

Definition orElse (o : option string) (d : string) : string :=
  match o with
  | Some s => if String.eqb s "" then d else s
  | None => d
  end.

Definition orNull (o : option string) : option string :=
  if truthy o then o else None.

(** [s.charAt(i)]: the empty string out of range. *)
Definition charAt (s : string) (i : nat) : string :=
  match String.get i s with
  | Some c => String c EmptyString
  | None => EmptyString
  end.

(** [s.substring(from, to)] for [from <= to]. *)
Definition substring (from to : nat) (s : string) : string :=
  String.substring from (to - from) s.

(** The upper-case form of a code unit below 256: the letters 97-122,
    224-246 and 248-254 move down by 32, the sharp s (223) becomes [SS],
    and every other code unit stays, but for the micro sign (181) and the
    y with diaeresis (255): their upper-case forms are the code units 924
    and 376, which no text of this embedding holds, so the answer is
    [None]. *)
Definition upperChar (c : ascii) : option (list ascii) :=
  let n := nat_of_ascii c in
  if ((97 <=? n)%nat && (n <=? 122)%nat) || ((224 <=? n)%nat && (n <=? 246)%nat)
     || ((248 <=? n)%nat && (n <=? 254)%nat)
  then Some [ascii_of_nat (n - 32)]
  else if (n =? 223)%nat then Some [ascii_of_nat 83; ascii_of_nat 83]
  else if (n =? 181)%nat || (n =? 255)%nat then None
  else Some [c].

Fixpoint upperChars (l : list ascii) : option (list ascii) :=
  match l with
  | [] => Some []
  | c :: l' =>
      match upperChar c, upperChars l' with
      | Some u, Some r => Some (u ++ r)%list
      | _, _ => None
      end
  end.

(** [s.toUpperCase()]; [None] when the result holds a code unit above 255. *)
Definition toUpperCase (s : string) : option string := str <$> upperChars (chars s).

(** White space as [\s] and [trim] see it. *)
Definition isSpace (c : ascii) : bool :=
  let n := nat_of_ascii c in
  ((9 <=? n)%nat && (n <=? 13)%nat) || (n =? 32)%nat || (n =? 160)%nat.

Fixpoint dropSpaces (l : list ascii) : list ascii :=
  match l with
  | c :: l' => if isSpace c then dropSpaces l' else l
  | [] => []
  end.

Definition trimChars (l : list ascii) : list ascii :=
  rev (dropSpaces (rev (dropSpaces l))).

Definition trim (s : string) : string := str (trimChars (chars s)).

(** [l.split(/\s+/)]: the pieces between maximal runs of white space.
    [cur] is the piece being read, reversed; [inGap] tells that the
    previous character was white space. *)
Fixpoint splitGo (l : list ascii) (cur : list ascii) (inGap : bool)
  : list (list ascii) :=
  match l with
  | [] => [rev cur]
  | c :: l' =>
      if isSpace c then
        if inGap then splitGo l' cur true
        else rev cur :: splitGo l' [] true
      else splitGo l' (c :: cur) false
  end.

Definition splitSpaces (l : list ascii) : list (list ascii) := splitGo l [] false.

(** The global replace of [exportMessages]: every double quote (code
    unit 34) becomes two. *)
Definition dquote : ascii := ascii_of_nat 34.

Definition doubleQuotes (l : list ascii) : list ascii :=
  flat_map (fun c => if Ascii.eqb c dquote then [dquote; dquote] else [c]) l.

(** Decimal digits and zero padding, for [Date.prototype.toISOString]. *)
Definition digitChar (d : Z) : ascii := ascii_of_nat (48 + Z.to_nat (d mod 10)).

Definition pad2 (n : Z) : list ascii := [digitChar (n / 10); digitChar n].
Definition pad3 (n : Z) : list ascii :=
  [digitChar (n / 100); digitChar (n / 10); digitChar n].
Definition pad4 (n : Z) : list ascii :=
  [digitChar (n / 1000); digitChar (n / 100); digitChar (n / 10); digitChar n].
Definition pad6 (n : Z) : list ascii :=
  [digitChar (n / 100000); digitChar (n / 10000)] ++ pad4 n.

Definition msPerDay : Z := 86400000.

(** Year, month and day of the proleptic Gregorian calendar from the
    number of days since 1970-01-01. *)
Definition civilFromDays (days : Z) : Z * Z * Z :=
  let z := days + 719468 in
  let era := z / 146097 in
  let doe := z mod 146097 in
  let yoe := (doe - doe / 1460 + doe / 36524 - doe / 146096) / 365 in
  let doy := doe - (365 * yoe + yoe / 4 - yoe / 100) in
  let mp := (5 * doy + 2) / 153 in
  let d := doy - (153 * mp + 2) / 5 + 1 in
  let m := if (mp <? 10)%Z then mp + 3 else mp - 9 in
  let y := yoe + era * 400 + (if (m <=? 2)%Z then 1 else 0) in
  (y, m, d).

Definition maxTime : Z := 8640000000000000.

(** [new Date(t).toISOString()]; [None] is the [RangeError] of an
    invalid time value. *)
Definition toISOString (t : Z) : option string :=
  if (- maxTime <=? t)%Z && (t <=? maxTime)%Z then
    let '(y, m, d) := civilFromDays (t / msPerDay) in
    let ms := t mod msPerDay in
    let year :=
      if (0 <=? y)%Z && (y <=? 9999)%Z then pad4 y
      else (if (y <? 0)%Z then "-"%char else "+"%char) :: pad6 (Z.abs y) in
    Some (str (year ++ "-"%char :: pad2 m ++ "-"%char :: pad2 d
               ++ "T"%char :: pad2 (ms / 3600000)
               ++ ":"%char :: pad2 (ms / 60000 mod 60)
               ++ ":"%char :: pad2 (ms / 1000 mod 60)
               ++ "."%char :: pad3 (ms mod 1000) ++ ["Z"%char]))
  else None.

(** A number printed by template interpolation (integers only). *)
Definition showInt (n : Z) : string := pretty n.

End JS.

(** [countWords(text)] *)
Definition countWords (text : string) : nat :=
  length (filter (fun w : list ascii => (0 <? length w)%nat)
                 (JS.splitSpaces (JS.trimChars (JS.chars text)))).

(** ** Data model *)

(** [generateBottlePosition(index)]: [x] and [z] are the floating-point
    values [cos(angle) * radius] and [sin(angle) * radius] with
    [angle = index * 137.5 * PI / 180] and [radius = sqrt(index + 1) * 5];
    they are functions of [index] alone, so the position is kept as the
    index together with its [y]. *)
Record BottlePosition := {
  spiralIndex : nat;
  posY : Z
}.

Definition generateBottlePosition (index : nat) : BottlePosition :=
  {| spiralIndex := index; posY := 0 |}.

Record Message := {
  msgId : string;
  participantId : string;
  studentName : option string;
  isAnonymous : bool;
  selectedOption : option string;
  messageText : string;
  wordCount : nat;
  timestamp : Z;
  isRead : bool;
  bottlePosition : BottlePosition;
  bottleColor : string
}.

(** The participant collection is a [Set] in memory and an [Array] in
    [window.globalSessions]; a [Set] lists its members in insertion order. *)
Inductive Participants :=
| PArray (ids : list string)
| PSet (ids : list string).

Inductive Mode := Free | Question.

Definition isQuestion (m : Mode) : bool :=
  match m with
  | Question => true
  | Free => false
  end.

Record Session := {
  id : string;
  mode : Mode;
  question : option string;
  optionA : option string;
  optionB : option string;
  timeout : Z;
  createdAt : Z;
  isActive : bool;
  participants : Participants;
  messages : list Message;
  autoCloseTimer : option nat
}.

Record Config := {
  cfgMode : Mode;
  cfgQuestion : option string;
  cfgOptionA : option string;
  cfgOptionB : option string;
  cfgTimeout : Z
}.

(** The argument of [addMessage], as [handleSubmitMessage] builds it. *)
Record MessageInput := {
  inText : string;
  inStudentName : option string;
  inAnonymous : bool;
  inSelectedOption : option string
}.

(** What [window.dispatchEvent] was called with.  The detail of
    [sessionsUpdated] is the live store object itself. *)
Inductive Event :=
| SessionsUpdated
| SessionCreated (sessionId : string) (sessionData : Session)
| MessageAdded (sessionId : string) (message : Message)
| MessageSubmitted (sessionId : string) (message : Message)
| SessionClosed (sessionId : string)
| ParticipantJoined (sessionId : string) (pid : string)
| StateUpdate.

(** The mutable state the store code touches: [window.globalSessions]
    ([None] while undefined), [AppState.sessions], [AppState.socketId] and
    the events dispatched so far, oldest first.

    The two tables hold sessions by value.  In the source they hold
    references, and a stored object is changed in place in three ways:
    [SessionManager.get] replaces its participants [Array] by a [Set] (kept
    here as a write to the table); a message is pushed onto its [messages],
    or a field is assigned, right before [SessionManager.save] stores the
    object again.  So each operation leaves the state its by-value reading
    gives.  The tables are read at their own keys: see
    [objectPrototypeNames] for the names [window.globalSessions] inherits. *)
Record World := {
  globalSessions : option (gmap string Session);
  sessions : gmap string Session;
  socketId : string;
  dispatched : list Event
}.

Definition initialWorld (sid : string) : World :=
  {| globalSessions := None; sessions := ∅; socketId := sid; dispatched := [] |}.

(** Field assignments. *)
Definition setParticipants (s : Session) (p : Participants) : Session :=
  {| id := id s; mode := mode s; question := question s; optionA := optionA s;
     optionB := optionB s; timeout := timeout s; createdAt := createdAt s;
     isActive := isActive s; participants := p; messages := messages s;
     autoCloseTimer := autoCloseTimer s |}.

Definition setMessages (s : Session) (ms : list Message) : Session :=
  {| id := id s; mode := mode s; question := question s; optionA := optionA s;
     optionB := optionB s; timeout := timeout s; createdAt := createdAt s;
     isActive := isActive s; participants := participants s; messages := ms;
     autoCloseTimer := autoCloseTimer s |}.

Definition setIsActive (s : Session) (b : bool) : Session :=
  {| id := id s; mode := mode s; question := question s; optionA := optionA s;
     optionB := optionB s; timeout := timeout s; createdAt := createdAt s;
     isActive := b; participants := participants s; messages := messages s;
     autoCloseTimer := autoCloseTimer s |}.

Definition setIsRead (m : Message) (b : bool) : Message :=
  {| msgId := msgId m; participantId := participantId m;
     studentName := studentName m; isAnonymous := isAnonymous m;
     selectedOption := selectedOption m; messageText := messageText m;
     wordCount := wordCount m; timestamp := timestamp m; isRead := b;
     bottlePosition := bottlePosition m; bottleColor := bottleColor m |}.

Definition setGlobalSessions (w : World) (g : gmap string Session) : World :=
  {| globalSessions := Some g; sessions := sessions w; socketId := socketId w;
     dispatched := dispatched w |}.

Definition setSessions (w : World) (m : gmap string Session) : World :=
  {| globalSessions := globalSessions w; sessions := m; socketId := socketId w;
     dispatched := dispatched w |}.

Definition setSocketId (w : World) (sid : string) : World :=
  {| globalSessions := globalSessions w; sessions := sessions w; socketId := sid;
     dispatched := dispatched w |}.

Definition dispatchEvent (e : Event) (w : World) : World :=
  {| globalSessions := globalSessions w; sessions := sessions w;
     socketId := socketId w; dispatched := dispatched w ++ [e] |}.

(** [new Set(array)]: members in order of first occurrence. *)
Definition setAdd (members : list string) (x : string) : list string :=
  if decide (x ∈ members) then members else members ++ [x].

Definition newSet (array : list string) : list string := foldl setAdd [] array.

(** The members of a collection, whichever way it is held. *)
Definition members (p : Participants) : list string :=
  match p with
  | PArray l => newSet l
  | PSet l => l
  end.

(** [p instanceof Set ? p.size : (Array.isArray(p) ? p.length : 0)] *)
Definition participantCount (p : Participants) : nat :=
  match p with
  | PSet l => length l
  | PArray l => length l
  end.

(** The store as a table, [{}] while [window.globalSessions] is undefined. *)
Definition table (w : World) : gmap string Session :=
  default ∅ (globalSessions w).

(** The names a plain object such as [window.globalSessions] inherits from
    [Object.prototype].  At one of them that is no key of the store the
    source's [window.globalSessions[name]] is the inherited member and not
    [undefined]; the embedding reads the store at its own keys, so what it
    says of a session id that is not stored is said of the ids that are
    none of these names.  Each of them holds a lower-case letter, so no
    upper-cased code is among them. *)
Definition objectPrototypeNames : list string :=
  ["constructor"; "hasOwnProperty"; "isPrototypeOf"; "propertyIsEnumerable";
   "toLocaleString"; "toString"; "valueOf"; "__proto__";
   "__defineGetter__"; "__defineSetter__"; "__lookupGetter__"; "__lookupSetter__"].

(** A session without its participants: what the operations that touch
    the participants alone leave as it is. *)
Definition eraseParticipants (s : Session) : Session := setParticipants s (PSet []).

(** ** SessionManager *)
Module SessionManager.

Definition init (w : World) : World :=
  match globalSessions w with
  | Some _ => w
  | None => setGlobalSessions w ∅
  end.

(** The copy [save] writes holds the participants as an [Array]. *)
Definition sessionToSave (sessionData : Session) : Session :=
  match participants sessionData with
  | PSet l => setParticipants sessionData (PArray l)
  | PArray _ => sessionData
  end.

Definition save (sessionId : string) (sessionData : Session) (w : World) : World :=
  let w := init w in
  let w := setGlobalSessions w (<[sessionId := sessionToSave sessionData]> (table w)) in
  let w := setSessions w (<[sessionId := sessionData]> (sessions w)) in
  dispatchEvent SessionsUpdated w.

(** The stored object after [get] turned its participants into a [Set]. *)
Definition asSet (s : Session) : Session :=
  match participants s with
  | PArray l => setParticipants s (PSet (newSet l))
  | PSet _ => s
  end.

(** [get] changes the stored object in place, so the table changes too.
    The lookup is that of an own key ([objectPrototypeNames]). *)
Definition get (sessionId : string) (w : World) : option Session * World :=
  let w := init w in
  match table w !! sessionId with
  | Some session =>
      let session := asSet session in
      (Some session, setGlobalSessions w (<[sessionId := session]> (table w)))
  | None => (None, w)
  end.

Definition getAll (w : World) : gmap string Session * World :=
  let w := init w in (table w, w).

Definition addMessage (sessionId : string) (message : Message) (w : World)
  : bool * World :=
  match get sessionId w with
  | (Some session, w) =>
      let session := setMessages session (messages session ++ [message]) in
      (true, save sessionId session w)
  | (None, w) => (false, w)
  end.

Definition addParticipant (sessionId : string) (pid : string) (w : World)
  : bool * World :=
  match get sessionId w with
  | (Some session, w) =>
      let ps := members (participants session) in
      if decide (pid ∈ ps) then (true, w)
      else
        let session := setParticipants session (PSet (ps ++ [pid])) in
        (true, save sessionId session w)
  | (None, w) => (false, w)
  end.

Definition delete (sessionId : string) (w : World) : World :=
  let w := init w in
  let w := setGlobalSessions w (base.delete sessionId (table w)) in
  setSessions w (base.delete sessionId (sessions w)).

End SessionManager.

(** ** Identifiers and codes *)

Definition codeChars : string := "ABCDEFGHIJKLMNOPQRSTUVWXYZ0123456789".

(** One pass of the body of the [do ... while] of [generateSessionCode]:
    eight characters, the [i]-th picked by the draw number [k + i].  A draw
    is the value of [Math.floor(Math.random() * chars.length)]. *)
Definition candidate (rnd : nat → nat) (k : nat) : string :=
  foldl (fun code i => code +:+ JS.charAt codeChars (rnd (k + i)%nat)) "" (seq 0 8).

(** [generateSessionCode()]: [k] is the number of draws made so far.  The
    loop has no bound in the source; [fuel] bounds the number of passes and
    [None] says that it ran out. *)
Fixpoint generateSessionCode (fuel : nat) (rnd : nat → nat) (k : nat) (w : World)
  : option (string * nat * World) :=
  match fuel with
  | O => None
  | S fuel' =>
      let code := candidate rnd k in
      match SessionManager.get code w with
      | (Some _, w') => generateSessionCode fuel' rnd (k + 8)%nat w'
      | (None, w') => Some (code, (k + 8)%nat, w')
      end
  end.

(** [generateId(prefix)] and [generateSocketId()]; [r] is the text of
    [Math.random().toString(36)] and [now] the value of [Date.now()]. *)
Definition generateId (prefix : string) (r : string) (now : Z) : string :=
  prefix +:+ "_" +:+ JS.substring 2 15 r +:+ JS.showInt now.

Definition generateSocketId (r : string) (now : Z) : string :=
  "socket_" +:+ JS.substring 2 15 r +:+ JS.showInt now.

(** [generateBottleColor()]; [hue] is the text of [Math.random() * 360]. *)
Definition generateBottleColor (hue : string) : string :=
  "hsl(" +:+ hue +:+ ", 60%, 70%)".

(** ** Session management *)

Definition createSession (config : Config) (fuel : nat) (rnd : nat → nat) (k : nat)
  (now : Z) (w : World) : option (Session * nat * World) :=
  match generateSessionCode fuel rnd k w with
  | Some (code, k', w) =>
      let session :=
        {| id := code; mode := cfgMode config;
           question := JS.orNull (cfgQuestion config);
           optionA := JS.orNull (cfgOptionA config);
           optionB := JS.orNull (cfgOptionB config);
           timeout := cfgTimeout config; createdAt := now; isActive := true;
           participants := PSet []; messages := []; autoCloseTimer := None |} in
      let w := SessionManager.save code session w in
      let w := dispatchEvent (SessionCreated code session) w in
      Some (session, k', w)
  | None => None
  end.

Definition getSession (sid : string) (w : World) : option Session * World :=
  match SessionManager.get sid w with
  | (Some session, w) => (Some session, setSessions w (<[sid := session]> (sessions w)))
  | (None, w) => (None, w)
  end.

(** The values [addMessage] takes from its environment, in the order it
    asks for them. *)
Record Entropy := {
  idRandom : string;
  idNow : Z;
  stampNow : Z;
  hue : string
}.

(** The object literal [messageObj] of [addMessage], for the socket id
    [socket] and a session that holds [index] messages. *)
Definition messageObj (socket : string) (index : nat) (message : MessageInput)
  (e : Entropy) : Message :=
  {| msgId := generateId "msg" (idRandom e) (idNow e);
     participantId := socket;
     studentName := JS.orNull (inStudentName message);
     isAnonymous := inAnonymous message;
     selectedOption := JS.orNull (inSelectedOption message);
     messageText := inText message;
     wordCount := countWords (inText message);
     timestamp := stampNow e;
     isRead := false;
     bottlePosition := generateBottlePosition index;
     bottleColor := generateBottleColor (hue e) |}.

Definition addMessage (sessionId : string) (message : MessageInput) (e : Entropy)
  (w : World) : bool * World :=
  match getSession sessionId w with
  | (None, w) => (false, w)
  | (Some session, w) =>
      if (100 <=? length (messages session))%nat then (false, w)
      else
        let messageObj := messageObj (socketId w) (length (messages session)) message e in
        match SessionManager.addMessage sessionId messageObj w with
        | (true, w) =>
            let (_, w) := SessionManager.addParticipant sessionId (socketId w) w in
            let w := dispatchEvent (MessageAdded sessionId messageObj) w in
            let w := dispatchEvent (MessageSubmitted sessionId messageObj) w in
            (true, w)
        | (false, w) => (false, w)
        end
  end.

(** [clearTimeout] has no effect on the state kept here. *)
Definition closeSession (sessionId : string) (w : World) : World :=
  match getSession sessionId w with
  | (Some session, w) =>
      let session := setIsActive session false in
      let w := SessionManager.save sessionId session w in
      dispatchEvent (SessionClosed sessionId) w
  | (None, w) => w
  end.

(** [messages.find(m => m.id === messageId)] followed by the assignment
    to the message found. *)
Fixpoint markFirst (messageId : string) (ms : list Message) : option (list Message) :=
  match ms with
  | [] => None
  | m :: ms' =>
      if String.eqb (msgId m) messageId then Some (setIsRead m true :: ms')
      else option_map (cons m) (markFirst messageId ms')
  end.

(** The store part of [markAsRead]; the bottle is removed from the scene
    by the caller's [removeBottle]. *)
Definition markAsRead (sessionId messageId : string) (w : World) : World :=
  match getSession sessionId w with
  | (Some session, w) =>
      match markFirst messageId (messages session) with
      | Some ms => SessionManager.save sessionId (setMessages session ms) w
      | None => w
      end
  | (None, w) => w
  end.

Definition TWENTY_FOUR_HOURS : Z := 24 * 60 * 60 * 1000.

(** The test of the sweep's [if]. *)
Definition expired (now : Z) (session : Session) : bool :=
  (TWENTY_FOUR_HOURS <? now - createdAt session)%Z && negb (isActive session).

(** The body of the loop of [cleanupSessions], for one entry. *)
Definition sweepStep (now : Z) (w : World) (entry : string * Session) : World :=
  let '(sid, session) := entry in
  if expired now session then SessionManager.delete sid w else w.

(** [cleanupSessions()]: [Object.entries] is taken once, before the first
    deletion.  The order of the entries does not matter for the state the
    loop leaves. *)
Definition cleanupSessions (now : Z) (w : World) : World :=
  let (all, w) := SessionManager.getAll w in
  foldl (sweepStep now) w (map_to_list all).

(** [loadState()] *)
Definition loadState (now : Z) (w : World) : World :=
  let (all, w) := SessionManager.getAll w in
  let loaded := SessionManager.asSet <$> all in
  let w := setSessions (setGlobalSessions w loaded) loaded in
  cleanupSessions now w.

(** ** CSV export *)

Definition newline : string := String (ascii_of_nat 10) EmptyString.
Definition quoteMark : string := String JS.dquote EmptyString.

Definition csvHeader : string :=
  "Timestamp,Name,Anonymous,Option,Message,Word Count" +:+ newline.

(** The body of the [forEach] of [exportMessages]: the text appended to
    [csv] for one message, [None] when [toISOString] throws. *)
Definition csvRow (msg : Message) : option string :=
  match JS.toISOString (timestamp msg) with
  | Some timestamp =>
      let name :=
        if isAnonymous msg then "Anonymous" else JS.orElse (studentName msg) "Unknown" in
      let anonymous := if isAnonymous msg then "Yes" else "No" in
      let option := JS.orElse (selectedOption msg) "N/A" in
      let message :=
        quoteMark +:+ JS.str (JS.doubleQuotes (JS.chars (messageText msg))) +:+ quoteMark in
      let wordCount := JS.showInt (Z.of_nat (wordCount msg)) in
      Some (timestamp +:+ "," +:+ name +:+ "," +:+ anonymous +:+ "," +:+ option
            +:+ "," +:+ message +:+ "," +:+ wordCount +:+ newline)
  | None => None
  end.

Inductive ExportResult :=
| Exported (csv : string)
| NothingToExport
| ExportThrew.

Definition exportMessages (sessionId : string) (w : World) : ExportResult * World :=
  match getSession sessionId w with
  | (None, w) => (NothingToExport, w)
  | (Some session, w) =>
      if (length (messages session) =? 0)%nat then (NothingToExport, w)
      else
        let csv :=
          foldl (fun csv msg =>
                   match csv, csvRow msg with
                   | Some csv, Some row => Some (csv +:+ row)
                   | _, _ => None
                   end)
                (Some csvHeader) (messages session) in
        match csv with
        | Some csv => (Exported csv, w)
        | None => (ExportThrew, w)
        end
  end.

(** ** Router and student views *)

(** The view a route renders, with the session code it is given: the
    upper-cased parameter, [None] when upper-casing leaves the texts of
    this embedding. *)
Inductive View :=
| ViewLanding
| ViewTeacherDashboard
| ViewCreateSession
| ViewMonitor (sessionId : option string)
| ViewReview (sessionId : option string)
| ViewStudentJoin
| ViewStudentLanding (sessionId : option string)
| ViewComposer (sessionId : option string)
| ViewSubmitted (sessionId : option string).

(** The [switch] of [handleRoute], on the path and parameters the hash
    splits into: the view it goes on to render.  A missing or empty
    parameter is falsy. *)
Definition handleRoute (path : string) (params : list string) : View :=
  let p0 := params !! 0%nat in
  let p1 := params !! 1%nat in
  if String.eqb path "" then ViewLanding
  else if String.eqb path "teacher" then
    if bool_decide (p0 = Some "dashboard") then ViewTeacherDashboard
    else if bool_decide (p0 = Some "create") then ViewCreateSession
    else if bool_decide (p0 = Some "monitor") && JS.truthy p1
      then ViewMonitor (JS.toUpperCase (default "" p1))
    else if bool_decide (p0 = Some "review") && JS.truthy p1
      then ViewReview (JS.toUpperCase (default "" p1))
    else ViewTeacherDashboard
  else if String.eqb path "join" then
    if JS.truthy p0 then ViewStudentLanding (JS.toUpperCase (JS.trim (default "" p0)))
    else ViewStudentJoin
  else if String.eqb path "student" then
    if bool_decide (p0 = Some "compose") && JS.truthy p1
      then ViewComposer (JS.toUpperCase (default "" p1))
    else if bool_decide (p0 = Some "submitted") && JS.truthy p1
      then ViewSubmitted (JS.toUpperCase (default "" p1))
    else ViewStudentJoin
  else ViewLanding.

(** [session.messages.some(m => m.participantId === AppState.socketId)] *)
Definition hasSubmitted (session : Session) (w : World) : bool :=
  existsb (fun m => String.eqb (participantId m) (socketId w)) (messages session).

Inductive LandingResult :=
| LandingNotFound
| LandingEnded
| LandingFull
| LandingAlreadySubmitted
| LandingWelcome (currentParticipants : nat).

(** [renderStudentLanding(sessionId)]: what it shows and what it does to
    the store. *)
Definition renderStudentLanding (sessionId : string) (w : World)
  : LandingResult * World :=
  match getSession sessionId w with
  | (None, w) => (LandingNotFound, w)
  | (Some session, w) =>
      if negb (isActive session) then (LandingEnded, w)
      else if (100 <=? participantCount (participants session))%nat then (LandingFull, w)
      else if hasSubmitted session w then (LandingAlreadySubmitted, w)
      else
        let (_, w) := SessionManager.addParticipant sessionId (socketId w) w in
        let w := dispatchEvent (ParticipantJoined sessionId (socketId w)) w in
        (* the session was found above, so this lookup finds it again *)
        match getSession sessionId w with
        | (Some updatedSession, w) =>
            (LandingWelcome (participantCount (participants updatedSession)), w)
        | (None, w) => (LandingNotFound, w)
        end
  end.

Inductive ComposerResult :=
| ComposerNotAvailable
| ComposerAlreadySubmitted
| ComposerForm.

Definition renderComposer (sessionId : string) (w : World) : ComposerResult * World :=
  match getSession sessionId w with
  | (None, w) => (ComposerNotAvailable, w)
  | (Some session, w) =>
      if negb (isActive session) then (ComposerNotAvailable, w)
      else if hasSubmitted session w then (ComposerAlreadySubmitted, w)
      else (ComposerForm, w)
  end.

(** The fields [handleSubmitMessage] reads from the form and from
    [window.selectedOption]. *)
Record Form := {
  formText : string;
  formName : string;
  formAnonymous : bool;
  formSelected : option string
}.

Inductive SubmitResult :=
| SubmitNotFound
| SubmitEmpty
| SubmitTooLong
| SubmitNoOption
| SubmitSent
| SubmitFailed.

Definition handleSubmitMessage (sessionId : string) (form : Form) (e : Entropy)
  (w : World) : SubmitResult * World :=
  match getSession sessionId w with
  | (None, w) => (SubmitNotFound, w)
  | (Some session, w) =>
      let messageText := JS.trim (formText form) in
      let studentName := JS.trim (formName form) in
      if String.eqb messageText "" then (SubmitEmpty, w)
      else if (100 <? countWords messageText)%nat then (SubmitTooLong, w)
      else if isQuestion (mode session) && negb (JS.truthy (formSelected form))
        then (SubmitNoOption, w)
      else
        let message :=
          {| inText := messageText;
             inStudentName := if formAnonymous form then None else Some studentName;
             inAnonymous := formAnonymous form;
             inSelectedOption := JS.orNull (formSelected form) |} in
        match addMessage sessionId message e w with
        | (true, w) => (SubmitSent, w)
        | (false, w) => (SubmitFailed, w)
        end
  end.

(** The composer route followed by a submission of the form it shows: the
    form is there to submit only when [renderComposer] rendered it. *)
Definition composeAndSubmit (sessionId : string) (form : Form) (e : Entropy)
  (w : World) : option SubmitResult * World :=
  match renderComposer sessionId w with
  | (ComposerForm, w) =>
      let (r, w) := handleSubmitMessage sessionId form e w in (Some r, w)
  | (_, w) => (None, w)
  end.

(** ** The bottle pool of the ocean scene *)
Module Ocean.

(** A bottle is the [THREE.Group] with its [userData]; [phaseOffset] is
    kept as the draw of [Math.random()] it is computed from. *)
Record Bottle := {
  userMessage : Message;
  initialY : Z;
  phaseOffset : nat
}.

(** The module-level variables [bottles] and [clickableBottles], and the
    bottle groups among the children of [scene]. *)
Record Scene := {
  bottles : list Bottle;
  clickableBottles : bool;
  sceneChildren : list Bottle
}.

Definition createBottle (message : Message) (draw : nat) (sc : Scene) : Bottle * Scene :=
  let group :=
    {| userMessage := message;
       initialY := posY (bottlePosition message) + 1;
       phaseOffset := draw |} in
  (group,
   {| bottles := bottles sc ++ [group];
      clickableBottles := clickableBottles sc;
      sceneChildren := sceneChildren sc ++ [group] |}).

(** [bottles.some(b => b.userData.message.id === message.id)] *)
Definition exists_ (message : Message) (sc : Scene) : bool :=
  existsb (fun b => String.eqb (msgId (userMessage b)) (msgId message)) (bottles sc).

(** [!message.isRead || !clickableBottles] *)
Definition eligible (clickable : bool) (message : Message) : bool :=
  negb (isRead message) || negb clickable.

(** The body of the [forEach] of [updateOceanBottles]: [rnd] is the
    stream of draws and [k] the number of draws made so far. *)
Definition reconcileStep (rnd : nat → nat) (st : Scene * nat) (message : Message)
  : Scene * nat :=
  let '(sc, k) := st in
  if negb (exists_ message sc) && eligible (clickableBottles sc) message
  then (snd (createBottle message (rnd k) sc), S k)
  else (sc, k).

(** [updateOceanBottles(messages)] *)
Definition updateOceanBottles (messages : list Message) (rnd : nat → nat) (k : nat)
  (sc : Scene) : Scene * nat :=
  foldl (reconcileStep rnd) (sc, k) messages.

(** [initOceanScene(canvasId, messages, isClickable)] on the pool;
    [canvas] tells whether the canvas element was found: without it the
    function returns before it makes a new scene. *)
Definition initOceanScene (canvas : bool) (messages : list Message) (isClickable : bool)
  (rnd : nat → nat) (k : nat) (old : Scene) : Scene * nat :=
  if canvas then
    foldl (fun '(sc, k) message =>
             if eligible isClickable message
             then (snd (createBottle message (rnd k) sc), S k)
             else (sc, k))
          ({| bottles := []; clickableBottles := isClickable; sceneChildren := [] |}, k)
          messages
  else
    ({| bottles := []; clickableBottles := isClickable;
        sceneChildren := sceneChildren old |}, k).

(** The message identifiers of a list of bottles, and of the pool. *)
Definition bottleIds (bs : list Bottle) : list string :=
  (fun b => msgId (userMessage b)) <$> bs.

Definition poolIds (sc : Scene) : list string := bottleIds (bottles sc).

End Ocean.

(** ** The first revision of the store

    The first revision of [app.js] keeps the sessions in [AppState.sessions]
    alone and sweeps with a window of two hours. *)
Module Legacy.

Definition TWO_HOURS : Z := 2 * 60 * 60 * 1000.

Definition cleanupSessions (now : Z) (sessions : gmap string Session)
  : gmap string Session :=
  foldl (fun m '(sid, session) =>
           if (TWO_HOURS <? now - createdAt session)%Z && negb (isActive session)
           then base.delete sid m else m)
        sessions (map_to_list sessions).

End Legacy.

(** ** Sample states *)
Module Sample.

Definition freeConfig : Config :=
  {| cfgMode := Free; cfgQuestion := None; cfgOptionA := None;
     cfgOptionB := None; cfgTimeout := 120 |}.

Definition questionConfig : Config :=
  {| cfgMode := Question; cfgQuestion := Some "Cats or dogs?";
     cfgOptionA := Some "Cats"; cfgOptionB := Some "Dogs"; cfgTimeout := 120 |}.

(** A stream of draws: the [n]-th draw picks the character [n mod 36]. *)
Definition draws (n : nat) : nat := n mod 36.

Definition entropy : Entropy :=
  {| idRandom := "0.k3j9x2m4p7q1"; idNow := 1700000000000;
     stampNow := 1700000000001; hue := "211.4" |}.

Definition entropy2 : Entropy :=
  {| idRandom := "0.z8y7x6w5v4u3"; idNow := 1700000005000;
     stampNow := 1700000005001; hue := "17.9" |}.

Definition catsInput : MessageInput :=
  {| inText := "I like cats"; inStudentName := None; inAnonymous := true;
     inSelectedOption := Some "A" |}.

Definition catsForm : Form :=
  {| formText := "I like cats"; formName := ""; formAnonymous := true;
     formSelected := Some "A" |}.

Definition start : World := initialWorld "socket_r4nd0m1700000000000".

(** The world after [createSession(questionConfig)] at time [1000]. *)
Definition created : World :=
  match createSession questionConfig 1 draws 0 1000 start with
  | Some (_, _, w) => w
  | None => start
  end.

(** The session as the table holds it then. *)
Definition session0 : Session :=
  {| id := "ABCDEFGH"; mode := Question; question := Some "Cats or dogs?";
     optionA := Some "Cats"; optionB := Some "Dogs"; timeout := 120;
     createdAt := 1000; isActive := true; participants := PArray [];
     messages := []; autoCloseTimer := None |}.

(** ... after [closeSession] of the session just made. *)
Definition closed : World := closeSession "ABCDEFGH" created.

(** ... after one and after two [addMessage] by the same participant. *)
Definition once : World := snd (addMessage "ABCDEFGH" catsInput entropy created).
Definition twice : World := snd (addMessage "ABCDEFGH" catsInput entropy2 once).

(** ... after one and after two submissions through the composer. *)
Definition submitted : World :=
  snd (composeAndSubmit "ABCDEFGH" catsForm entropy created).
Definition resubmitted : World :=
  snd (composeAndSubmit "ABCDEFGH" catsForm entropy2 submitted).

(** ... after the form the composer showed is submitted a second time. *)
Definition submittedTwice : World :=
  snd (handleSubmitMessage "ABCDEFGH" catsForm entropy2 submitted).

Definition message : Message :=
  {| msgId := "msg_k3j9x2m4p7q11700000000000"; participantId := "socket_a";
     studentName := None; isAnonymous := true; selectedOption := None;
     messageText := "hello"; wordCount := 1; timestamp := 1700000000001;
     isRead := false; bottlePosition := generateBottlePosition 0;
     bottleColor := "hsl(211.4, 60%, 70%)" |}.

Definition session (code : string) (active : bool) (made : Z)
  (ps : Participants) (ms : list Message) : Session :=
  {| id := code; mode := Free; question := None; optionA := None;
     optionB := None; timeout := 120; createdAt := made; isActive := active;
     participants := ps; messages := ms; autoCloseTimer := None |}.

Definition world (g : gmap string Session) : World :=
  {| globalSessions := Some g; sessions := g;
     socketId := "socket_r4nd0m1700000000000"; dispatched := [] |}.

(** A session that holds 100 messages. *)
Definition fullSession : Session :=
  session "FULL0000" true 1000 (PArray ["socket_a"]) (replicate 100 message).

Definition full : World := world {[ "FULL0000" := fullSession ]}.

(** A session with 100 participants, [p0] ... [p99]. *)
Definition hundred : list string := map (fun n : nat => "p" +:+ pretty n) (seq 0 100).

Definition crowdedSession : Session :=
  session "CROWD000" true 1000 (PArray hundred) [].

Definition crowded : World := world {[ "CROWD000" := crowdedSession ]}.

(** ... after the socket of [crowded], none of the 100, opens the composer
    of that session and submits its form. *)
Definition overfull : World :=
  snd (composeAndSubmit "CROWD000" catsForm entropy crowded).

(** Three sessions seen at time [sweepTime]: closed 25 hours ago, closed
    one hour ago, and still active after 100 hours. *)
Definition hour : Z := 60 * 60 * 1000.
Definition sweepTime : Z := 1700000000000.

Definition staleSession : Session :=
  session "STALE000" false (sweepTime - 25 * hour) (PArray []) [].
Definition recentSession : Session :=
  session "RECENT00" false (sweepTime - 1 * hour) (PArray []) [].
Definition activeSession : Session :=
  session "ACTIVE00" true (sweepTime - 100 * hour) (PArray []) [].

Definition aged : World :=
  world (<["STALE000" := staleSession]>
           (<["RECENT00" := recentSession]> {[ "ACTIVE00" := activeSession ]})).

(** Messages for the ocean scene: [m1] has its bottle, [m2] is new and
    unread, [m3] is new and read. *)
Definition note (mid : string) (read : bool) (index : nat) : Message :=
  {| msgId := mid; participantId := "socket_a"; studentName := None;
     isAnonymous := true; selectedOption := None; messageText := "hello";
     wordCount := 1; timestamp := 1700000000001; isRead := read;
     bottlePosition := generateBottlePosition index;
     bottleColor := "hsl(211.4, 60%, 70%)" |}.

Definition m1 : Message := note "msg_1" false 0.
Definition m2 : Message := note "msg_2" false 1.
Definition m3 : Message := note "msg_3" true 2.

Definition bottle1 : Ocean.Bottle :=
  {| Ocean.userMessage := m1; Ocean.initialY := 1; Ocean.phaseOffset := 7 |}.

Definition review : Ocean.Scene :=
  {| Ocean.bottles := [bottle1]; Ocean.clickableBottles := true;
     Ocean.sceneChildren := [bottle1] |}.

(** A session with one anonymous message whose text holds quotes. *)
Definition quoting : Message :=
  {| msgId := "msg_q1w2e3r4t5y6u1700000000000"; participantId := "socket_a";
     studentName := None; isAnonymous := true; selectedOption := None;
     messageText := "He said " +:+ quoteMark +:+ "hi" +:+ quoteMark;
     wordCount := 3; timestamp := 1700000000001; isRead := false;
     bottlePosition := generateBottlePosition 0;
     bottleColor := "hsl(211.4, 60%, 70%)" |}.

Definition quotingSession : Session :=
  session "QUOTES00" false 1000 (PArray ["socket_a"]) [quoting].

Definition quoted : World := world {[ "QUOTES00" := quotingSession ]}.

End Sample.

(** ** Vocabulary of the properties *)

(** An upper-case letter [A]-[Z] or a digit [0]-[9]. *)
Definition isUpperAlnum (c : ascii) : bool :=
  let n := nat_of_ascii c in
  ((65 <=? n)%nat && (n <=? 90)%nat) || ((48 <=? n)%nat && (n <=? 57)%nat).

(** The [n]-th candidate code of a run of [generateSessionCode] that
    starts at draw [k]. *)
Definition nthCandidate (rnd : nat → nat) (k n : nat) : string :=
  candidate rnd (k + 8 * n)%nat.

(** The CSV format in the words of its description. *)
Definition isDigit (c : ascii) : bool :=
  let n := nat_of_ascii c in (48 <=? n)%nat && (n <=? 57)%nat.

(** The ISO-8601 shape [YYYY-MM-DDTHH:mm:ss.sssZ]. *)
Definition isISOTimestamp (s : string) : bool :=
  match JS.chars s with
  | [y1; y2; y3; y4; a; m1; m2; b; d1; d2; t; h1; h2; c; n1; n2; e; s1; s2; p; f1; f2; f3; z] =>
      forallb isDigit [y1; y2; y3; y4; m1; m2; d1; d2; h1; h2; n1; n2; s1; s2; f1; f2; f3]
      && Ascii.eqb a "-" && Ascii.eqb b "-" && Ascii.eqb t "T" && Ascii.eqb c ":"
      && Ascii.eqb e ":" && Ascii.eqb p "." && Ascii.eqb z "Z"
  | _ => false
  end.

(** Every double quote of the text written twice. *)
Fixpoint doubledQuotes (text : string) : string :=
  match text with
  | EmptyString => EmptyString
  | String c rest =>
      if Ascii.eqb c JS.dquote then String JS.dquote (String JS.dquote (doubledQuotes rest))
      else String c (doubledQuotes rest)
  end.

(** The Message field: the text between double quotes, its own double
    quotes doubled. *)
Definition quotedField (text : string) : string :=
  quoteMark +:+ doubledQuotes text +:+ quoteMark.

(** The Name field: [Anonymous] when the flag is set, else the display
    name, or [Unknown] without one. *)
Definition nameField (m : Message) : string :=
  if isAnonymous m then "Anonymous"
  else match studentName m with
       | Some name => if String.eqb name "" then "Unknown" else name
       | None => "Unknown"
       end.

Definition anonymousField (m : Message) : string :=
  if isAnonymous m then "Yes" else "No".

Definition optionField (m : Message) : string :=
  match selectedOption m with
  | Some o => if String.eqb o "" then "N/A" else o
  | None => "N/A"
  end.

(** A line of the file: the fields separated by commas, then a newline. *)
Definition csvLine (fields : list string) : string :=
  String.concat "," fields +:+ newline.

Definition joinRows (rows : list string) : string := foldr String.append "" rows.

(** The text that quotes the word hi after He said, and the field it is
    exported as. *)
Definition heSaidHi : string := "He said " +:+ quoteMark +:+ "hi" +:+ quoteMark.

Definition heSaidHiField : string :=
  quoteMark +:+ "He said " +:+ quoteMark +:+ quoteMark +:+ "hi"
  +:+ quoteMark +:+ quoteMark +:+ quoteMark.


(** ** Time display and the session timer *)

(** [s.padStart(n, c)] for a one-character [c]. *)
Definition padStart (n : nat) (c : ascii) (s : string) : string :=
  JS.str (replicate (n - String.length s) c) +:+ s.

(** [formatTime(seconds)], for an integer number of seconds: [Math.floor]
    of the quotient, and the remainder with the sign of [seconds]. *)
Definition formatTime (seconds : Z) : string :=
  let mins := seconds / 60 in
  let secs := Z.rem seconds 60 in
  padStart 2 "0" (JS.showInt mins) +:+ ":" +:+ padStart 2 "0" (JS.showInt secs).

(** The [endTime] of [startSessionTimer]. *)
Definition endTime (session : Session) : Z :=
  createdAt session + timeout session * 1000.

(** [Math.max(0, Math.floor((endTime - now) / 1000))] *)
Definition remainingAt (endTime now : Z) : Z := Z.max 0 ((endTime - now) / 1000).

Inductive TimerClass := TimerDanger | TimerWarning.

(** The class [updateTimer] gives the timer element; [None] leaves the
    class it has. *)
Definition timerClassAt (remaining : Z) : option TimerClass :=
  if (remaining <=? 30)%Z then Some TimerDanger
  else if (remaining <=? 60)%Z then Some TimerWarning
  else None.

(** The store part of [handleAutoClose] and of [handleForceClose] once
    confirmed. *)
Definition handleAutoClose (sessionId : string) (w : World) : World :=
  closeSession sessionId w.

(** One run of [updateTimer] at time [now]: the text and class shown, whether
    the next run is scheduled, and the state. *)
Definition updateTimer (sessionId : string) (endTime now : Z) (w : World)
  : string * option TimerClass * bool * World :=
  let remaining := remainingAt endTime now in
  let shown := (formatTime remaining, timerClassAt remaining) in
  if (remaining <=? 0)%Z then (shown, false, handleAutoClose sessionId w)
  else (shown, true, w).

(** [startSessionTimer(sessionId)] up to the end of its first
    [updateTimer]; [None] when it returns before starting the timer. *)
Definition startSessionTimer (sessionId : string) (now : Z) (w : World)
  : option (string * option TimerClass * bool) * World :=
  match getSession sessionId w with
  | (Some session, w) =>
      if negb (isActive session) then (None, w)
      else
        let '(shown, again, w) := updateTimer sessionId (endTime session) now w in
        (Some (shown, again), w)
  | (None, w) => (None, w)
  end.

(** The words of a list of characters in the words of the description of
    [countWords]: the maximal runs of characters that are not white space.
    [inWord] tells that the previous character belongs to a word. *)
Fixpoint wordRuns (inWord : bool) (l : list ascii) : nat :=
  match l with
  | [] => O
  | c :: l' =>
      if JS.isSpace c then wordRuns false l'
      else ((if inWord then 0 else 1) + wordRuns true l')%nat
  end.

(** A text without a character that is not white space. *)
Definition isBlank (text : string) : Prop := Forall (fun c => JS.isSpace c = true) (JS.chars text).

(** ** Rendering a route

    The state part of the renderers: what they read from and write to the
    store.  The listeners [renderMonitor] and [renderSubmitted] register
    look the session up again when a later event arrives, and the scene is
    set up by a timer; neither runs before the renderer returns. *)

Definition renderLanding (w : World) : World := snd (SessionManager.getAll w).

Definition renderTeacherDashboard (w : World) : World := snd (SessionManager.getAll w).

Definition renderCreateSession (w : World) : World := w.

Definition renderStudentJoin (w : World) : World := snd (SessionManager.getAll w).

(** [renderMonitor(sessionId)]; [now] is the time of the first run of the
    timer it starts. *)
Definition renderMonitor (sessionId : string) (now : Z) (w : World) : World :=
  match getSession sessionId w with
  | (Some _, w) => snd (startSessionTimer sessionId now w)
  | (None, w) => w
  end.

Definition renderReview (sessionId : string) (w : World) : World :=
  snd (getSession sessionId w).

Definition renderSubmitted (sessionId : string) (w : World) : World :=
  snd (getSession sessionId w).

(** A renderer at the code of a view.  A code outside the texts of the
    embedding is no key of the store: the renderer's lookup misses, and all
    the lookup leaves is the store made by [SessionManager.init]. *)
Definition renderAt (render : string → World → World) (code : option string)
  (w : World) : World :=
  match code with
  | Some sessionId => render sessionId w
  | None => SessionManager.init w
  end.

(** The calls of the [switch] of [handleRoute]. *)
Definition renderView (v : View) (now : Z) (w : World) : World :=
  match v with
  | ViewLanding => renderLanding w
  | ViewTeacherDashboard => renderTeacherDashboard w
  | ViewCreateSession => renderCreateSession w
  | ViewMonitor code => renderAt (fun sessionId => renderMonitor sessionId now) code w
  | ViewReview code => renderAt renderReview code w
  | ViewStudentJoin => renderStudentJoin w
  | ViewStudentLanding code =>
      renderAt (fun sessionId w => snd (renderStudentLanding sessionId w)) code w
  | ViewComposer code => renderAt (fun sessionId w => snd (renderComposer sessionId w)) code w
  | ViewSubmitted code => renderAt renderSubmitted code w
  end.

(** One run of the [handleRoute] of [setupRouter], for the hash that splits
    into [path] and [params]: at the end of [setupRouter] and at every
    [hashchange]. *)
Definition setupRouter (path : string) (params : list string) (now : Z) (w : World)
  : World :=
  renderView (handleRoute path params) now w.

(** [init()]: [now] is the time of the sweep of [loadState], [path] and
    [params] the hash of the page, [routeNow] the time at which its route is
    rendered.  [startPolling] sets an interval and [debugInfo] logs; neither
    touches the state before [init] returns. *)
Definition init (r : string) (idNow : Z) (now : Z) (path : string)
  (params : list string) (routeNow : Z) (w : World) : World :=
  let w := SessionManager.init w in
  let w := setSocketId w (generateSocketId r idNow) in
  let w := loadState now w in
  let w := setupRouter path params routeNow w in
  snd (SessionManager.getAll w).

(** ** Joining by code *)

Inductive JoinResult :=
| JoinNoCode
| JoinNotFound (code : option string)
| JoinNavigate (code : string).

(** [handleJoinSession(event)]: [input] is the value of the code field.
    [JoinNavigate code] stands for the assignment of the hash
    [#/join/code]; [SessionManager.debugInfo] reads the store and logs.  A
    code outside the texts of the embedding is not empty and is no key of
    the store. *)
Definition handleJoinSession (input : string) (w : World) : JoinResult * World :=
  match JS.toUpperCase (JS.trim input) with
  | Some code =>
      if String.eqb code "" then (JoinNoCode, w)
      else
        match SessionManager.get code w with
        | (Some _, w) => (JoinNavigate code, w)
        | (None, w) =>
            let (_, w) := SessionManager.getAll w in (JoinNotFound (Some code), w)
        end
  | None =>
      let w := SessionManager.init w in
      let (_, w) := SessionManager.getAll w in (JoinNotFound None, w)
  end.

(** ** The live word counter *)

(** [updateWordCount()]: the text of the counter, whether its class is
    [valid], and whether the submit button is disabled; [text] is the value
    of the message field. *)
Definition updateWordCount (text : string) : string * bool * bool :=
  let wordCount := countWords text in
  let counter := JS.showInt (Z.of_nat wordCount) +:+ " / 100 words" in
  if (100 <? wordCount)%nat then (counter, false, true)
  else if (0 <? wordCount)%nat then (counter, true, false)
  else (counter, true, false).
(** A letter [a]-[z]. *)
Definition isLowerLetter (c : ascii) : bool :=
  let n := nat_of_ascii c in (97 <=? n)%nat && (n <=? 122)%nat.

(** ** Reachable states *)

(** The steps that change the store.  With [guarded] set, a message enters
    the store only through [handleSubmitMessage], after a composer that
    showed the form or on its own, as when the form is submitted again;
    without it, [addMessage] may also be called as it is. *)
Inductive step (guarded : bool) : World → World → Prop :=
| StepCreate config fuel rnd k now w s k' w' :
    createSession config fuel rnd k now w = Some (s, k', w') →
    step guarded w w'
| StepGet sessionId w :
    step guarded w (snd (getSession sessionId w))
| StepAddParticipant sessionId pid w :
    step guarded w (snd (SessionManager.addParticipant sessionId pid w))
| StepLanding sessionId w :
    step guarded w (snd (renderStudentLanding sessionId w))
| StepAddMessage sessionId message e w :
    guarded = false →
    step guarded w (snd (addMessage sessionId message e w))
| StepSubmit sessionId form e w :
    step guarded w (snd (composeAndSubmit sessionId form e w))
| StepHandleSubmit sessionId form e w :
    step guarded w (snd (handleSubmitMessage sessionId form e w))
| StepMarkAsRead sessionId messageId w :
    step guarded w (markAsRead sessionId messageId w)
| StepClose sessionId w :
    step guarded w (closeSession sessionId w)
| StepSweep now w :
    step guarded w (cleanupSessions now w)
| StepRoute path params now w :
    step guarded w (setupRouter path params now w)
| StepInit r idNow now path params routeNow w :
    step guarded w (init r idNow now path params routeNow w).

(** A field of the session stored under a code. *)
Definition fieldAt {A : Type} (f : Session → A) (w : World) (code : string) : option A :=
  f <$> (table w !! code).

(** The participants of the messages of a session, in order. *)
Definition pids (s : Session) : list string := participantId <$> messages s.

Definition pidsAt (w : World) (code : string) : option (list string) :=
  pids <$> (table w !! code).

(** The messages of a session that come from one participant. *)
Definition messagesOf (pid : string) (s : Session) : list Message :=
  filter (fun m => participantId m = pid) (messages s).

(** Every session holds at most one message per participant. *)
Definition onePerParticipant (w : World) : Prop :=
  ∀ code s pid, table w !! code = Some s → (length (messagesOf pid s) <= 1)%nat.


(** ** How a step changes a stored session *)

(** What [handleSubmitMessage] lets through to [addMessage] for a session
    of mode [m]: a trimmed text that is not empty, of at most 100 words, an
    option when the session asks a question, and no name with an anonymous
    message. *)
Definition validInput (m : Mode) (message : MessageInput) : Prop :=
  (∃ raw, inText message = JS.trim raw) ∧
  inText message ≠ "" ∧
  (countWords (inText message) <= 100)%nat ∧
  (m = Question → JS.truthy (inSelectedOption message) = true) ∧
  (inAnonymous message = true → inStudentName message = None).

(** The ways a step leaves a stored session [s] as [s'], told up to the
    participants: nothing but the participants changes, the session is
    closed, a message is marked as read, or a message of a socket that is a
    member afterwards is appended while there is room.  With [guarded] the
    appended message is one [handleSubmitMessage] lets through. *)
Inductive sessionChange (guarded : bool) (s s' : Session) : Prop :=
| ChangeKept :
    eraseParticipants s' = eraseParticipants s →
    sessionChange guarded s s'
| ChangeClosed :
    eraseParticipants s' = eraseParticipants (setIsActive s false) →
    sessionChange guarded s s'
| ChangeRead messageId ms :
    markFirst messageId (messages s) = Some ms →
    eraseParticipants s' = eraseParticipants (setMessages s ms) →
    sessionChange guarded s s'
| ChangeAdded socket message e :
    (length (messages s) < 100)%nat →
    eraseParticipants s'
    = eraseParticipants
        (setMessages s (messages s
           ++ [messageObj socket (length (messages s)) message e])) →
    socket ∈ members (participants s') →
    (guarded = true → validInput (mode s) message) →
    sessionChange guarded s s'.

(** Every session of [w'] was in [w] with the same fields and messages and
    with no member lost. *)
Definition keepsSessions (w w' : World) : Prop :=
  ∀ j s', table w' !! j = Some s' →
    ∃ s, table w !! j = Some s ∧
         eraseParticipants s' = eraseParticipants s ∧
         ∀ x, x ∈ members (participants s) → x ∈ members (participants s').

(** A session as [createSession] stores it under [code]. *)
Definition freshSession (code : string) (s : Session) : Prop :=
  id s = code ∧ isActive s = true ∧ messages s = [] ∧ members (participants s) = [].

(** What a step from [w] to [w'] does to the sessions of [w']: each was in
    [w] and changed in one of the ways of [sessionChange] without losing a
    member, or is new. *)
Definition stepChanges (guarded : bool) (w w' : World) : Prop :=
  ∀ j s', table w' !! j = Some s' →
    match table w !! j with
    | Some s =>
        sessionChange guarded s s' ∧
        ∀ x, x ∈ members (participants s) → x ∈ members (participants s')
    | None => freshSession j s'
    end.

(** What the store keeps true of the messages of a session: at most 100
    of them, the i-th one with the i-th place of the spiral, written by a
    member of the session, and with the word count of its text. *)
Definition wellFormedSession (s : Session) : Prop :=
  (length (messages s) <= 100)%nat ∧
  ∀ i m, messages s !! i = Some m →
    spiralIndex (bottlePosition m) = i ∧
    participantId m ∈ members (participants s) ∧
    wordCount m = countWords (messageText m).

(** What [handleSubmitMessage] has checked of a message of a session of
    mode [md]. *)
Definition validatedMessage (md : Mode) (m : Message) : Prop :=
  (∃ raw, messageText m = JS.trim raw) ∧ messageText m ≠ "" ∧
  (1 <= wordCount m <= 100)%nat ∧
  (md = Question → JS.truthy (selectedOption m) = true) ∧
  (isAnonymous m = true → studentName m = None).
(** * Properties *)

#[local] Arguments Nat.leb : simpl never.
#[local] Arguments Nat.ltb : simpl never.
#[local] Arguments Z.ltb : simpl never.

(** ** The table behind [SessionManager] *)

Lemma table_setGlobalSessions w g : table (setGlobalSessions w g) = g.
Proof. reflexivity. Qed.

Lemma table_setSessions w m : table (setSessions w m) = table w.
Proof. reflexivity. Qed.

Lemma table_dispatchEvent e w : table (dispatchEvent e w) = table w.
Proof. reflexivity. Qed.

Lemma table_init w : table (SessionManager.init w) = table w.
Proof.
  unfold SessionManager.init, table.
  destruct (globalSessions w) eqn:E; simpl; by rewrite ?E.
Qed.

Lemma init_found w k s : table w !! k = Some s → SessionManager.init w = w.
Proof.
  unfold SessionManager.init, table. destruct (globalSessions w); [done|].
  simpl. by rewrite lookup_empty.
Qed.

Lemma get_found w k s :
  table w !! k = Some s →
  SessionManager.get k w
  = (Some (SessionManager.asSet s),
     setGlobalSessions w (<[k := SessionManager.asSet s]> (table w))).
Proof.
  intros Hk. unfold SessionManager.get.
  rewrite (init_found _ _ _ Hk), Hk. reflexivity.
Qed.

Lemma get_missing w k :
  table w !! k = None → SessionManager.get k w = (None, SessionManager.init w).
Proof.
  intros Hk. unfold SessionManager.get. by rewrite table_init, Hk.
Qed.

Lemma getSession_found w k s :
  table w !! k = Some s →
  getSession k w
  = (Some (SessionManager.asSet s),
     setSessions (setGlobalSessions w (<[k := SessionManager.asSet s]> (table w)))
                 (<[k := SessionManager.asSet s]> (sessions w))).
Proof. intros Hk. unfold getSession. by rewrite (get_found _ _ _ Hk). Qed.

Lemma getSession_missing w k :
  table w !! k = None → getSession k w = (None, SessionManager.init w).
Proof. intros Hk. unfold getSession. by rewrite (get_missing _ _ Hk). Qed.

(** ** Sessions up to the container of their participants *)

Lemma asSet_members s :
  SessionManager.asSet s = setParticipants s (PSet (members (participants s))).
Proof.
  unfold SessionManager.asSet.
  destruct s as [? ? ? ? ? ? ? ? [l|l] ? ?]; reflexivity.
Qed.

Lemma asSet_idem s : SessionManager.asSet (SessionManager.asSet s) = SessionManager.asSet s.
Proof. by destruct s as [? ? ? ? ? ? ? ? [l|l] ? ?]. Qed.

Lemma messages_asSet s : messages (SessionManager.asSet s) = messages s.
Proof. by destruct s as [? ? ? ? ? ? ? ? [l|l] ? ?]. Qed.

Lemma isActive_asSet s : isActive (SessionManager.asSet s) = isActive s.
Proof. by destruct s as [? ? ? ? ? ? ? ? [l|l] ? ?]. Qed.

Lemma members_asSet s :
  members (participants (SessionManager.asSet s)) = members (participants s).
Proof. by destruct s as [? ? ? ? ? ? ? ? [l|l] ? ?]. Qed.

(** Two sessions are the same up to the container of the participants
    exactly when all their fields agree, the participants as members. *)
Lemma sameSession_fields a b :
  SessionManager.asSet a = SessionManager.asSet b ↔
  id a = id b ∧ mode a = mode b ∧ question a = question b ∧ optionA a = optionA b ∧
  optionB a = optionB b ∧ timeout a = timeout b ∧ createdAt a = createdAt b ∧
  isActive a = isActive b ∧ members (participants a) = members (participants b) ∧
  messages a = messages b ∧ autoCloseTimer a = autoCloseTimer b.
Proof.
  rewrite !asSet_members. destruct a, b; simpl. split.
  - intros [=]. by subst.
  - intros (-> & -> & -> & -> & -> & -> & -> & -> & -> & -> & ->). done.
Qed.

Lemma lookup_insert_asSet (g : gmap string Session) k s j :
  g !! k = Some s →
  SessionManager.asSet <$> (<[k := SessionManager.asSet s]> g !! j)
  = SessionManager.asSet <$> (g !! j).
Proof.
  intros Hk. destruct (decide (k = j)) as [->|Hne].
  - rewrite lookup_insert_eq, Hk. simpl. by rewrite asSet_idem.
  - by rewrite lookup_insert_ne.
Qed.

(** C2.  [addMessage] on a session that holds exactly 100 messages returns
    [false]; it dispatches no event, and every stored session keeps all its
    fields, its messages and the members of its participant collection (the
    lookup only turns the stored participants of the session into a [Set]
    and records the handle in [AppState.sessions]): the state it leaves is
    the state a plain [getSession] leaves. *)
Theorem addMessage_full_rejected w sessionId s message e :
  table w !! sessionId = Some s →
  length (messages s) = 100%nat →
  let r := addMessage sessionId message e w in
  fst r = false ∧
  snd r = snd (getSession sessionId w) ∧
  dispatched (snd r) = dispatched w ∧
  socketId (snd r) = socketId w ∧
  (∀ k, SessionManager.asSet <$> (table (snd r) !! k)
        = SessionManager.asSet <$> (table w !! k)) ∧
  (∀ s', table (snd r) !! sessionId = Some s' →
         messages s' = messages s ∧
         members (participants s') = members (participants s)) ∧
  sessions (snd r) = <[sessionId := SessionManager.asSet s]> (sessions w).
Proof.
  intros Hk Hlen r. subst r. unfold addMessage.
  rewrite (getSession_found _ _ _ Hk), messages_asSet, Hlen. simpl.
  split_and!; try done.
  - intros k. by apply lookup_insert_asSet.
  - intros s'. rewrite table_setSessions, table_setGlobalSessions, lookup_insert_eq.
    intros [= <-]. split; [apply messages_asSet | apply members_asSet].
Qed.

Lemma addMessage_full_rejected_witness :
  table Sample.full !! "FULL0000" = Some Sample.fullSession ∧
  length (messages Sample.fullSession) = 100%nat ∧
  fst (addMessage "FULL0000" Sample.catsInput Sample.entropy Sample.full) = false ∧
  dispatched (snd (addMessage "FULL0000" Sample.catsInput Sample.entropy Sample.full))
  = dispatched Sample.full.
Proof.
  assert (H1 : table Sample.full !! "FULL0000" = Some Sample.fullSession)
    by (vm_compute; reflexivity).
  assert (H2 : length (messages Sample.fullSession) = 100%nat)
    by (vm_compute; reflexivity).
  pose proof (addMessage_full_rejected _ _ _ Sample.catsInput Sample.entropy H1 H2)
    as (Ha & _ & Hb & _).
  split_and!; [exact H1 | exact H2 | exact Ha | exact Hb].
Defined.

(** ** What each store operation does to the table *)

Lemma erase_asSet s : eraseParticipants (SessionManager.asSet s) = eraseParticipants s.
Proof. by destruct s as [? ? ? ? ? ? ? ? [l|l] ? ?]. Qed.

Lemma erase_sessionToSave s :
  eraseParticipants (SessionManager.sessionToSave s) = eraseParticipants s.
Proof. by destruct s as [? ? ? ? ? ? ? ? [l|l] ? ?]. Qed.

Lemma erase_setParticipants s p :
  eraseParticipants (setParticipants s p) = eraseParticipants s.
Proof. reflexivity. Qed.

Lemma erase_setMessages_asSet s ms :
  eraseParticipants (setMessages (SessionManager.asSet s) ms)
  = eraseParticipants (setMessages s ms).
Proof. by destruct s as [? ? ? ? ? ? ? ? [l|l] ? ?]. Qed.

Lemma messages_erase s : messages (eraseParticipants s) = messages s.
Proof. reflexivity. Qed.

Lemma get_result w k : fst (SessionManager.get k w) = SessionManager.asSet <$> (table w !! k).
Proof.
  destruct (table w !! k) as [s|] eqn:Hk.
  - by rewrite (get_found _ _ _ Hk).
  - by rewrite (get_missing _ _ Hk).
Qed.

Lemma get_table w k j :
  table (snd (SessionManager.get k w)) !! j
  = if decide (j = k) then SessionManager.asSet <$> (table w !! j) else table w !! j.
Proof.
  destruct (table w !! k) as [s|] eqn:Hk.
  - rewrite (get_found _ _ _ Hk). simpl. rewrite table_setGlobalSessions.
    case_decide as Hj.
    + subst j. by rewrite lookup_insert_eq, Hk.
    + by rewrite lookup_insert_ne.
  - rewrite (get_missing _ _ Hk). simpl. rewrite table_init.
    case_decide as Hj; [|done]. subst j. by rewrite Hk.
Qed.

Lemma get_others w k :
  socketId (snd (SessionManager.get k w)) = socketId w ∧
  dispatched (snd (SessionManager.get k w)) = dispatched w ∧
  sessions (snd (SessionManager.get k w)) = sessions w.
Proof.
  unfold SessionManager.get, SessionManager.init.
  destruct (globalSessions w); simpl; destruct (_ !! k); done.
Qed.

Lemma getSession_result w k : fst (getSession k w) = SessionManager.asSet <$> (table w !! k).
Proof.
  unfold getSession. pose proof (get_result w k) as H.
  destruct (SessionManager.get k w) as [[s|] w']; simpl in *; done.
Qed.

Lemma getSession_table w k j :
  table (snd (getSession k w)) !! j
  = if decide (j = k) then SessionManager.asSet <$> (table w !! j) else table w !! j.
Proof.
  unfold getSession. pose proof (get_table w k j) as H.
  destruct (SessionManager.get k w) as [[s|] w']; simpl in *; done.
Qed.

Lemma getSession_others w k :
  socketId (snd (getSession k w)) = socketId w ∧
  dispatched (snd (getSession k w)) = dispatched w.
Proof.
  unfold getSession. pose proof (get_others w k) as (? & ? & ?).
  destruct (SessionManager.get k w) as [[s|] w']; simpl in *; done.
Qed.

Lemma save_table k d w j :
  table (SessionManager.save k d w) !! j
  = if decide (j = k) then Some (SessionManager.sessionToSave d) else table w !! j.
Proof.
  unfold SessionManager.save.
  rewrite table_dispatchEvent, table_setSessions, table_setGlobalSessions, table_init.
  case_decide as Hj.
  - subst. by rewrite lookup_insert_eq.
  - by rewrite lookup_insert_ne.
Qed.

Lemma save_socketId k d w : socketId (SessionManager.save k d w) = socketId w.
Proof. unfold SessionManager.save, SessionManager.init. by destruct (globalSessions w). Qed.

Lemma delete_table k w j :
  table (SessionManager.delete k w) !! j
  = if decide (j = k) then None else table w !! j.
Proof.
  unfold SessionManager.delete.
  rewrite table_setSessions, table_setGlobalSessions, table_init.
  case_decide as Hj.
  - subst. by rewrite lookup_delete_eq.
  - by rewrite lookup_delete_ne.
Qed.

(** [SessionManager.addMessage] appends to the session it finds. *)
Lemma SM_addMessage_result k m w :
  fst (SessionManager.addMessage k m w) = bool_decide (is_Some (table w !! k)).
Proof.
  unfold SessionManager.addMessage. pose proof (get_result w k) as H.
  destruct (SessionManager.get k w) as [[s|] w']; simpl in *;
    destruct (table w !! k); simplify_eq/=; by rewrite ?bool_decide_eq_true_2 by eauto.
Qed.

Lemma SM_addMessage_table k m w j :
  eraseParticipants <$> (table (snd (SessionManager.addMessage k m w)) !! j)
  = if decide (j = k)
    then (fun s => eraseParticipants (setMessages s (messages s ++ [m]))) <$> (table w !! j)
    else eraseParticipants <$> (table w !! j).
Proof.
  unfold SessionManager.addMessage.
  pose proof (get_result w k) as Hr. pose proof (get_table w k j) as Ht.
  destruct (SessionManager.get k w) as [[s|] w']; simpl in *.
  - rewrite save_table. case_decide as Hj.
    + subst j. destruct (table w !! k) as [s0|]; simplify_eq/=.
      rewrite erase_sessionToSave. f_equal.
      by destruct s0 as [? ? ? ? ? ? ? ? [l|l] ? ?].
    + by rewrite Ht.
  - rewrite Ht. case_decide as Hj; [|done]. subst j.
    destruct (table w !! k); simplify_eq/=. done.
Qed.

Lemma SM_addMessage_socketId k m w :
  socketId (snd (SessionManager.addMessage k m w)) = socketId w.
Proof.
  unfold SessionManager.addMessage. pose proof (get_others w k) as (Hs & _).
  destruct (SessionManager.get k w) as [[s|] w']; cbn [fst snd] in *; [|done].
  by rewrite save_socketId.
Qed.

(** [SessionManager.addParticipant] touches the participants alone. *)
Lemma SM_addParticipant_table k pid w j :
  eraseParticipants <$> (table (snd (SessionManager.addParticipant k pid w)) !! j)
  = eraseParticipants <$> (table w !! j).
Proof.
  unfold SessionManager.addParticipant.
  pose proof (get_result w k) as Hr. pose proof (get_table w k j) as Ht.
  destruct (SessionManager.get k w) as [[s|] w']; simpl in *.
  - assert (Hget : eraseParticipants <$> (table w' !! j) = eraseParticipants <$> (table w !! j)).
    { rewrite Ht. case_decide; [|done].
      destruct (table w !! j); simpl; [|done]. by rewrite erase_asSet. }
    destruct (decide (pid ∈ _)); cbn [fst snd]; [done|].
    rewrite save_table. case_decide as Hj; [|done]. subst j.
    destruct (table w !! k) as [s0|]; simplify_eq/=.
    by rewrite erase_sessionToSave, erase_setParticipants, erase_asSet.
  - rewrite Ht. case_decide; [|done].
    destruct (table w !! j); simpl; [|done]. by rewrite erase_asSet.
Qed.

Lemma SM_addParticipant_socketId k pid w :
  socketId (snd (SessionManager.addParticipant k pid w)) = socketId w.
Proof.
  unfold SessionManager.addParticipant. pose proof (get_others w k) as (Hs & _).
  destruct (SessionManager.get k w) as [[s|] w']; cbn [fst snd] in *; [|done].
  destruct (decide (pid ∈ _)); cbn [fst snd]; [done|]. by rewrite save_socketId.
Qed.

(** ** [addMessage] *)

Lemma addMessage_result k msg e w :
  fst (addMessage k msg e w)
  = match table w !! k with
    | Some s => negb (100 <=? length (messages s))%nat
    | None => false
    end.
Proof.
  unfold addMessage.
  pose proof (getSession_result w k) as Hr. pose proof (getSession_table w k k) as Ht.
  rewrite decide_True in Ht by done.
  destruct (getSession k w) as [[s|] w']; cbn [fst snd] in *.
  - destruct (table w !! k) as [s0|]; simplify_eq/=. rewrite messages_asSet.
    destruct (100 <=? length (messages s0))%nat; [done|]. cbn [negb].
    pose proof (SM_addMessage_result k
      (messageObj (socketId w') (length (messages s0)) msg e) w') as Hm.
    rewrite Ht, bool_decide_eq_true_2 in Hm by eauto.
    destruct (SessionManager.addMessage _ _ w') as [[|] w'']; simplify_eq/=.
    by destruct (SessionManager.addParticipant _ _ w'').
  - by destruct (table w !! k).
Qed.

Lemma addMessage_table k msg e w j :
  eraseParticipants <$> (table (snd (addMessage k msg e w)) !! j)
  = if decide (j = k)
    then (fun s =>
            if (100 <=? length (messages s))%nat then eraseParticipants s
            else eraseParticipants
                   (setMessages s (messages s
                      ++ [messageObj (socketId w) (length (messages s)) msg e])))
         <$> (table w !! j)
    else eraseParticipants <$> (table w !! j).
Proof.
  unfold addMessage.
  pose proof (getSession_result w k) as Hr. pose proof (getSession_table w k) as Ht.
  pose proof (getSession_others w k) as (Hs & _).
  destruct (getSession k w) as [[s|] w']; cbn [fst snd] in *.
  - assert (Hk : ∃ s0, table w !! k = Some s0 ∧ s = SessionManager.asSet s0).
    { destruct (table w !! k) as [s0|]; simplify_eq/=. eauto. }
    destruct Hk as (s0 & Hk & ->). rewrite messages_asSet.
    assert (Hget : ∀ i, eraseParticipants <$> (table w' !! i)
                        = eraseParticipants <$> (table w !! i)).
    { intros i. rewrite Ht. case_decide; [|done].
      destruct (table w !! i); simpl; [|done]. by rewrite erase_asSet. }
    destruct (100 <=? length (messages s0))%nat eqn:Hfull.
    + cbn [snd]. rewrite Hget. case_decide as Hj; [|done]. subst j.
      rewrite Hk. simpl. by rewrite Hfull.
    + rewrite Hs.
      pose proof (SM_addMessage_table k
        (messageObj (socketId w) (length (messages s0)) msg e) w' j) as Hm.
      destruct (SessionManager.addMessage _ _ w') as [[|] w'']; cbn [fst snd] in *.
      * pose proof (SM_addParticipant_table k (socketId w'') w'' j) as Hp.
        destruct (SessionManager.addParticipant _ _ w'') as [b w3]; cbn [fst snd] in *.
        rewrite !table_dispatchEvent, Hp, Hm.
        case_decide as Hj; [|apply Hget]. subst j.
        rewrite (Ht k), decide_True, Hk by done. simpl.
        by rewrite Hfull, messages_asSet, erase_setMessages_asSet.
      * rewrite Hm. case_decide as Hj; [|apply Hget]. subst j.
        rewrite (Ht k), decide_True, Hk by done. simpl.
        by rewrite Hfull, messages_asSet, erase_setMessages_asSet.
  - rewrite Ht. case_decide as Hj; [|done]. subst j.
    destruct (table w !! k); simplify_eq/=. done.
Qed.

Lemma addMessage_socketId k msg e w : socketId (snd (addMessage k msg e w)) = socketId w.
Proof.
  unfold addMessage. pose proof (getSession_others w k) as (Hs & _).
  destruct (getSession k w) as [[s|] w']; cbn [fst snd] in *; [|done].
  destruct (100 <=? _)%nat; [done|].
  pose proof (SM_addMessage_socketId k
    (messageObj (socketId w') (length (messages s)) msg e) w') as Hm.
  destruct (SessionManager.addMessage _ _ w') as [[|] w'']; cbn [fst snd] in *;
    [|congruence].
  pose proof (SM_addParticipant_socketId k (socketId w'') w'') as Hp.
  destruct (SessionManager.addParticipant _ _ w'') as [b w3]; cbn [fst snd] in *.
  unfold dispatchEvent. cbn [socketId]. congruence.
Qed.

(** [addMessage] accepts on every session with room, whatever its active
    flag: the flag is not read. *)
Lemma addMessage_accepts k msg e w s :
  table w !! k = Some s →
  (length (messages s) < 100)%nat →
  fst (addMessage k msg e w) = true ∧
  (messages <$> (table (snd (addMessage k msg e w)) !! k))
  = Some (messages s ++ [messageObj (socketId w) (length (messages s)) msg e])%list ∧
  (isActive <$> (table (snd (addMessage k msg e w)) !! k)) = Some (isActive s).
Proof.
  intros Hk Hlen.
  assert (Hroom : (100 <=? length (messages s))%nat = false) by by apply Nat.leb_gt.
  pose proof (addMessage_table k msg e w k) as Ht.
  rewrite decide_True, Hk in Ht by done. cbn in Ht. rewrite Hroom in Ht.
  split_and!.
  - by rewrite addMessage_result, Hk, Hroom.
  - destruct (table (snd (addMessage k msg e w)) !! k) as [s'|]; simplify_eq/=.
    congruence.
  - destruct (table (snd (addMessage k msg e w)) !! k) as [s'|]; simplify_eq/=.
    congruence.
Qed.

(** C1.  [addMessage] on a session that was closed does not reject: on the
    session [closeSession] has just closed it returns [true], appends the
    message and registers the participant. *)
Theorem addMessage_inactive_accepted :
  (isActive <$> (table Sample.closed !! "ABCDEFGH")) = Some false ∧
  (messages <$> (table Sample.closed !! "ABCDEFGH")) = Some [] ∧
  let r := addMessage "ABCDEFGH" Sample.catsInput Sample.entropy Sample.closed in
  fst r = true ∧
  (messages <$> (table (snd r) !! "ABCDEFGH"))
  = Some [messageObj "socket_r4nd0m1700000000000" 0 Sample.catsInput Sample.entropy] ∧
  (participants <$> (table (snd r) !! "ABCDEFGH"))
  = Some (PArray ["socket_r4nd0m1700000000000"]) ∧
  (isActive <$> (table (snd r) !! "ABCDEFGH")) = Some false.
Proof. vm_compute. repeat split. Qed.

(** The scenario of a question session with the options Cats and Dogs: one
    submission choosing A leaves one message of three words, one
    participant and the option A. *)
Example scenario_question_session :
  fst (composeAndSubmit "ABCDEFGH" Sample.catsForm Sample.entropy Sample.created)
  = Some SubmitSent ∧
  ((fun s => (length (messages s), length (members (participants s)),
              wordCount <$> messages s, selectedOption <$> messages s))
     <$> (table Sample.submitted !! "ABCDEFGH"))
  = Some (1%nat, 1%nat, [3%nat], [Some "A"]).
Proof. vm_compute. split; reflexivity. Qed.

(** ** The participant cap *)

Lemma participantCount_asSet s :
  participantCount (participants (SessionManager.asSet s))
  = length (members (participants s)).
Proof. by destruct s as [? ? ? ? ? ? ? ? [l|l] ? ?]. Qed.

(** [SessionManager.addParticipant] has no cap: on a session with 100
    participants it inserts a new identifier and returns [true]. *)
Lemma addParticipant_no_cap :
  table Sample.crowded !! "CROWD000" = Some Sample.crowdedSession ∧
  length (members (participants Sample.crowdedSession)) = 100%nat ∧
  ("late" ∉ members (participants Sample.crowdedSession)) ∧
  let r := SessionManager.addParticipant "CROWD000" "late" Sample.crowded in
  fst r = true ∧
  ((fun s => members (participants s)) <$> (table (snd r) !! "CROWD000"))
  = Some (Sample.hundred ++ ["late"])%list ∧
  ((fun s => length (members (participants s))) <$> (table (snd r) !! "CROWD000"))
  = Some 101%nat.
Proof.
  split; [vm_compute; reflexivity|].
  split; [vm_compute; reflexivity|].
  split.
  - intros H. apply list_elem_of_In in H. vm_compute in H.
    repeat (destruct H as [H|H]; [discriminate H|]). exact H.
  - vm_compute. split_and!; reflexivity.
Qed.

(** The landing page keeps to the cap: on a session whose
    participant collection has 100 members or more it shows
    that the session is full (or has ended), does not call
    [addParticipant], dispatches no event, and every stored session keeps
    its fields, its messages and the members of its participants: the
    state it leaves is the state a plain [getSession] leaves. *)
Theorem renderStudentLanding_full w sessionId s :
  table w !! sessionId = Some s →
  (100 <= length (members (participants s)))%nat →
  let r := renderStudentLanding sessionId w in
  fst r = (if isActive s then LandingFull else LandingEnded) ∧
  snd r = snd (getSession sessionId w) ∧
  dispatched (snd r) = dispatched w ∧
  (∀ k, SessionManager.asSet <$> (table (snd r) !! k)
        = SessionManager.asSet <$> (table w !! k)) ∧
  (∀ s', table (snd r) !! sessionId = Some s' →
         members (participants s') = members (participants s)).
Proof.
  intros Hk Hfull r. subst r. unfold renderStudentLanding.
  rewrite (getSession_found _ _ _ Hk), isActive_asSet, participantCount_asSet.
  assert (Hle : (100 <=? length (members (participants s)))%nat = true)
    by by apply Nat.leb_le.
  rewrite Hle.
  assert (Hsame : ∀ k, SessionManager.asSet <$>
                  (<[sessionId := SessionManager.asSet s]> (table w) !! k)
                  = SessionManager.asSet <$> (table w !! k))
    by (intros k; by apply lookup_insert_asSet).
  destruct (isActive s); cbn [negb fst snd]; split_and!; try done.
  all: intros s'; rewrite table_setSessions, table_setGlobalSessions, lookup_insert_eq;
    intros [= <-]; apply members_asSet.
Qed.

Lemma renderStudentLanding_full_witness :
  table Sample.crowded !! "CROWD000" = Some Sample.crowdedSession ∧
  (100 <= length (members (participants Sample.crowdedSession)))%nat ∧
  fst (renderStudentLanding "CROWD000" Sample.crowded) = LandingFull.
Proof.
  assert (H1 : table Sample.crowded !! "CROWD000" = Some Sample.crowdedSession)
    by (vm_compute; reflexivity).
  assert (H2 : (100 <= length (members (participants Sample.crowdedSession)))%nat)
    by (vm_compute; reflexivity).
  split_and!; [exact H1 | exact H2 |].
  exact (proj1 (renderStudentLanding_full _ _ _ H1 H2)).
Defined.

(** C6, as the code has it.  The cap of 100 participants is tested on the
    landing page alone.  [addMessage] registers the socket that submits
    through [SessionManager.addParticipant], which has no cap, and the
    composer route reaches it without the landing page: on a session with
    100 participants the landing page turns the socket away as full, and
    the composer and its form store the socket as participant 101. *)
Theorem compose_exceeds_participant_cap :
  table Sample.crowded !! "CROWD000" = Some Sample.crowdedSession ∧
  isActive Sample.crowdedSession = true ∧
  length (members (participants Sample.crowdedSession)) = 100%nat ∧
  (socketId Sample.crowded ∉ members (participants Sample.crowdedSession)) ∧
  fst (renderStudentLanding "CROWD000" Sample.crowded) = LandingFull ∧
  fst (renderComposer "CROWD000" Sample.crowded) = ComposerForm ∧
  fst (composeAndSubmit "CROWD000" Sample.catsForm Sample.entropy Sample.crowded)
  = Some SubmitSent ∧
  ((fun s => members (participants s)) <$> (table Sample.overfull !! "CROWD000"))
  = Some (Sample.hundred ++ [socketId Sample.crowded])%list ∧
  ((fun s => length (members (participants s))) <$> (table Sample.overfull !! "CROWD000"))
  = Some 101%nat.
Proof.
  split; [vm_compute; reflexivity|].
  split; [reflexivity|].
  split; [vm_compute; reflexivity|].
  split.
  - intros H. apply list_elem_of_In in H. vm_compute in H.
    repeat (destruct H as [H|H]; [discriminate H|]). exact H.
  - vm_compute. split_and!; reflexivity.
Qed.

(** ** Lookup by code *)

(** C4, as the code has it.  [getSession] looks the code up as it is
    given: a lower-case spelling of a stored code is not found. *)
Lemma getSession_case_sensitive :
  is_Some (table Sample.created !! "ABCDEFGH") ∧
  JS.toUpperCase "abcdefgh" = Some "ABCDEFGH" ∧
  fst (getSession "abcdefgh" Sample.created) = None.
Proof. split_and!; [eexists|..]; vm_compute; reflexivity. Qed.

Lemma truthy_nonempty p : p ≠ "" → JS.truthy (Some p) = true.
Proof.
  intros Hp. unfold JS.truthy. destruct (String.eqb_spec p ""); [done|]. done.
Qed.

(** A test that holds of the 256 code units holds of every one. *)
Lemma ascii_all (P : ascii → bool) :
  forallb P (map ascii_of_nat (seq 0 256)) = true → ∀ c, P c = true.
Proof.
  intros H c. rewrite forallb_forall in H. apply H.
  rewrite <- (ascii_nat_embedding c). apply in_map, in_seq.
  pose proof (nat_ascii_bounded c). lia.
Qed.

(** No code unit of an upper-cased text is a letter [a]-[z]. *)
Lemma upperChar_no_lower c u :
  JS.upperChar c = Some u → Forall (fun x => isLowerLetter x = false) u.
Proof.
  intros Hc.
  pose proof (ascii_all (fun c => match JS.upperChar c with
                                  | Some u => forallb (fun x => negb (isLowerLetter x)) u
                                  | None => true
                                  end) ltac:(vm_compute; reflexivity) c) as H.
  cbv beta in H. rewrite Hc in H. rewrite forallb_forall in H.
  apply Forall_forall. intros x Hx%list_elem_of_In. apply H in Hx.
  by apply negb_true_iff.
Qed.

Lemma upperChars_no_lower l : ∀ u,
  JS.upperChars l = Some u → Forall (fun x => isLowerLetter x = false) u.
Proof.
  induction l as [|c l IH]; intros u H; cbn [JS.upperChars] in H.
  - injection H as <-. constructor.
  - destruct (JS.upperChar c) as [uc|] eqn:Hc; [|done].
    destruct (JS.upperChars l) as [ul|]; [|done]. injection H as <-.
    apply Forall_app. split; [by apply (upperChar_no_lower c)|by apply IH].
Qed.

Lemma chars_str l : JS.chars (JS.str l) = l.
Proof. apply list_ascii_of_string_of_list_ascii. Qed.

(** An upper-cased text is none of the names [window.globalSessions]
    inherits: each of them holds a letter [a]-[z]. *)
Lemma toUpperCase_own s code :
  JS.toUpperCase s = Some code → code ∉ objectPrototypeNames.
Proof.
  unfold JS.toUpperCase. destruct (JS.upperChars (JS.chars s)) as [u|] eqn:Hu; [|done].
  intros [= <-] Hin. apply upperChars_no_lower in Hu.
  assert (Hnames : Forall (fun n => existsb isLowerLetter (JS.chars n) = true)
                     objectPrototypeNames) by (vm_compute; repeat constructor).
  apply (proj1 (Forall_forall _ _) Hnames) in Hin.
  rewrite chars_str in Hin. apply existsb_exists in Hin as (x & Hx & Hlow).
  apply list_elem_of_In in Hx. apply (proj1 (Forall_forall _ _) Hu) in Hx. congruence.
Qed.

(** C4, amended.  [getSession] is an exact lookup of the key it is given.
    The router upper-cases the code of a route before the view looks it
    up (and trims it first on the join route), so a route whose parameter
    upper-cases to the code of a stored session reaches that session; and
    the code it hands over is none of the inherited names. *)
Theorem router_uppercases_code w code s p :
  table w !! code = Some s →
  p ≠ "" →
  JS.toUpperCase p = Some code →
  handleRoute "teacher" ["monitor"; p] = ViewMonitor (Some code) ∧
  handleRoute "teacher" ["review"; p] = ViewReview (Some code) ∧
  handleRoute "student" ["compose"; p] = ViewComposer (Some code) ∧
  handleRoute "student" ["submitted"; p] = ViewSubmitted (Some code) ∧
  (∀ raw, raw ≠ "" → JS.toUpperCase (JS.trim raw) = Some code →
          handleRoute "join" [raw] = ViewStudentLanding (Some code)) ∧
  (code ∉ objectPrototypeNames) ∧
  fst (getSession code w) = Some (SessionManager.asSet s) ∧
  (∀ q, q ∉ objectPrototypeNames →
        fst (getSession q w) = SessionManager.asSet <$> (table w !! q)).
Proof.
  intros Hk Hp Hup.
  assert (Hget : fst (getSession code w) = Some (SessionManager.asSet s))
    by by rewrite getSession_result, Hk.
  assert (Hall : ∀ q, q ∉ objectPrototypeNames →
                      fst (getSession q w) = SessionManager.asSet <$> (table w !! q))
    by (intros q _; apply getSession_result).
  assert (Hown : code ∉ objectPrototypeNames) by by apply (toUpperCase_own p).
  split_and!; try done.
  5:{ intros raw Hraw Hcode. unfold handleRoute.
      cbn [lookup list_lookup default from_option]. unfold Datatypes.id.
      by rewrite (truthy_nonempty _ Hraw), Hcode. }
  all: unfold handleRoute;
    cbn [lookup list_lookup default from_option]; unfold Datatypes.id;
    rewrite (truthy_nonempty _ Hp), Hup; reflexivity.
Qed.

Lemma router_uppercases_code_witness :
  table Sample.created !! "ABCDEFGH" = Some (Sample.session0) ∧
  handleRoute "teacher" ["monitor"; "abcdefgh"] = ViewMonitor (Some "ABCDEFGH") ∧
  handleRoute "join" [" abcdefgh "] = ViewStudentLanding (Some "ABCDEFGH") ∧
  fst (getSession "ABCDEFGH" Sample.created)
  = Some (SessionManager.asSet Sample.session0).
Proof.
  assert (H1 : table Sample.created !! "ABCDEFGH" = Some Sample.session0)
    by (vm_compute; reflexivity).
  assert (H2 : "abcdefgh" ≠ "") by discriminate.
  assert (H3 : JS.toUpperCase "abcdefgh" = Some "ABCDEFGH") by (vm_compute; reflexivity).
  assert (H4 : " abcdefgh " ≠ "") by discriminate.
  assert (H5 : JS.toUpperCase (JS.trim " abcdefgh ") = Some "ABCDEFGH")
    by (vm_compute; reflexivity).
  pose proof (router_uppercases_code _ _ _ _ H1 H2 H3) as (Ha & _ & _ & _ & Hj & _ & Hb & _).
  split_and!; [exact H1 | exact Ha | exact (Hj _ H4 H5) | exact Hb].
Defined.

(** The router upper-cases beyond the letters [a]-[z]: a parameter spelled
    with the sharp s reaches the session whose code spells it [SS]. *)
Example router_uppercases_sharp_s :
  JS.toUpperCase (String (ascii_of_nat 223) "abcdef") = Some "SSABCDEF" ∧
  JS.toUpperCase (String (ascii_of_nat 233) "") = Some (String (ascii_of_nat 201) "") ∧
  JS.toUpperCase (String (ascii_of_nat 181) "") = None.
Proof. vm_compute. split_and!; reflexivity. Qed.

(** ** The expiry sweep *)

Lemma cleanupSessions_fold now w :
  cleanupSessions now w
  = foldl (sweepStep now) (SessionManager.init w) (map_to_list (table w)).
Proof.
  unfold cleanupSessions, SessionManager.getAll. by rewrite table_init.
Qed.

Lemma sweep_gone now l w j :
  table w !! j = None → table (foldl (sweepStep now) w l) !! j = None.
Proof.
  revert w. induction l as [|[k s] l IH]; intros w Hj; [done|].
  cbn [foldl]. apply IH. unfold sweepStep.
  destruct (expired now s); [|done].
  rewrite delete_table. by case_decide.
Qed.

Lemma sweep_kept now l w j :
  (∀ s, (j, s) ∈ l → expired now s = false) →
  table (foldl (sweepStep now) w l) !! j = table w !! j.
Proof.
  revert w. induction l as [|[k s] l IH]; intros w Hl; [done|].
  cbn [foldl]. rewrite IH.
  - unfold sweepStep. destruct (expired now s) eqn:He; [|done].
    rewrite delete_table. case_decide as Hj; [|done]. subst k.
    rewrite Hl in He; [done|]. left.
  - intros s' Hs'. apply Hl. by right.
Qed.

Lemma sweep_removed now l w j s :
  (j, s) ∈ l → expired now s = true →
  table (foldl (sweepStep now) w l) !! j = None.
Proof.
  revert w. induction l as [|[k s'] l IH]; intros w Hin He.
  - by apply elem_of_nil in Hin.
  - cbn [foldl]. apply elem_of_cons in Hin as [[= <- <-]|Hin].
    + apply sweep_gone. unfold sweepStep. rewrite He, delete_table.
      by rewrite decide_True.
    + by apply IH.
Qed.

Lemma cleanupSessions_table now w j :
  table (cleanupSessions now w) !! j
  = table w !! j ≫= (fun s => if expired now s then None else Some s).
Proof.
  rewrite cleanupSessions_fold.
  destruct (table w !! j) as [s|] eqn:Hj; cbn.
  - destruct (expired now s) eqn:He.
    + apply (sweep_removed _ _ _ _ s); [|done]. by apply elem_of_map_to_list.
    + rewrite sweep_kept, table_init; [done|].
      intros s' Hs'. apply elem_of_map_to_list in Hs'. congruence.
  - apply sweep_gone. by rewrite table_init.
Qed.

Lemma expired_spec now s :
  expired now s = true ↔ isActive s = false ∧ TWENTY_FOUR_HOURS < now - createdAt s.
Proof.
  unfold expired. rewrite andb_true_iff, negb_true_iff, Z.ltb_lt. tauto.
Qed.

(** C7.  The sweep removes exactly the sessions that are inactive and
    older than 24 hours and keeps every other session as it is: an
    inactive session made 25 hours ago goes, a session made one hour ago
    stays, and an active session stays whatever its age.  The sweep adds
    nothing. *)
Theorem cleanupSessions_exact now w sessionId s :
  table w !! sessionId = Some s →
  let w' := cleanupSessions now w in
  (isActive s = false ∧ TWENTY_FOUR_HOURS < now - createdAt s →
     table w' !! sessionId = None) ∧
  (¬ (isActive s = false ∧ TWENTY_FOUR_HOURS < now - createdAt s) →
     table w' !! sessionId = Some s) ∧
  (isActive s = false → createdAt s = now - 25 * 60 * 60 * 1000 →
     table w' !! sessionId = None) ∧
  (createdAt s = now - 1 * 60 * 60 * 1000 → table w' !! sessionId = Some s) ∧
  (isActive s = true → table w' !! sessionId = Some s) ∧
  (∀ k s', table w' !! k = Some s' → table w !! k = Some s').
Proof.
  intros Hk w'. subst w'.
  assert (Hyes : isActive s = false ∧ TWENTY_FOUR_HOURS < now - createdAt s →
                 table (cleanupSessions now w) !! sessionId = None).
  { intros He. apply expired_spec in He.
    by rewrite cleanupSessions_table, Hk; cbn; rewrite He. }
  assert (Hno : ¬ (isActive s = false ∧ TWENTY_FOUR_HOURS < now - createdAt s) →
                table (cleanupSessions now w) !! sessionId = Some s).
  { intros He. rewrite <- expired_spec in He. apply not_true_is_false in He.
    by rewrite cleanupSessions_table, Hk; cbn; rewrite He. }
  split_and!; try done.
  - intros Hi Hc. apply Hyes. split; [done|].
    rewrite Hc. unfold TWENTY_FOUR_HOURS. lia.
  - intros Hc. apply Hno. intros [_ Hlt]. rewrite Hc in Hlt.
    unfold TWENTY_FOUR_HOURS in Hlt. lia.
  - intros Hi. apply Hno. intros [Hf _]. congruence.
  - intros k s'. rewrite cleanupSessions_table.
    destruct (table w !! k) as [s0|]; cbn; [|done].
    by destruct (expired now s0).
Qed.

Lemma cleanupSessions_exact_witness :
  table (cleanupSessions Sample.sweepTime Sample.aged) !! "STALE000" = None ∧
  table (cleanupSessions Sample.sweepTime Sample.aged) !! "RECENT00"
  = Some Sample.recentSession ∧
  table (cleanupSessions Sample.sweepTime Sample.aged) !! "ACTIVE00"
  = Some Sample.activeSession.
Proof.
  assert (H1 : table Sample.aged !! "STALE000" = Some Sample.staleSession)
    by (vm_compute; reflexivity).
  assert (H2 : table Sample.aged !! "RECENT00" = Some Sample.recentSession)
    by (vm_compute; reflexivity).
  assert (H3 : table Sample.aged !! "ACTIVE00" = Some Sample.activeSession)
    by (vm_compute; reflexivity).
  split_and!.
  - apply (proj1 (proj2 (proj2 (cleanupSessions_exact Sample.sweepTime _ _ _ H1))));
      vm_compute; reflexivity.
  - apply (proj1 (proj2 (proj2 (proj2 (cleanupSessions_exact Sample.sweepTime _ _ _ H2)))));
      vm_compute; reflexivity.
  - apply (proj1 (proj2 (proj2 (proj2 (proj2
             (cleanupSessions_exact Sample.sweepTime _ _ _ H3))))));
      vm_compute; reflexivity.
Defined.

(** The first revision sweeps the same way with its window of two hours. *)
Lemma legacy_cleanupSessions_lookup now (m : gmap string Session) j :
  Legacy.cleanupSessions now m !! j
  = m !! j ≫= (fun s => if (Legacy.TWO_HOURS <? now - createdAt s)%Z && negb (isActive s)
                       then None else Some s).
Proof.
  unfold Legacy.cleanupSessions.
  set (f := fun (m : gmap string Session) '(sid, session) =>
              if (Legacy.TWO_HOURS <? now - createdAt session)%Z && negb (isActive session)
              then base.delete sid m else m).
  assert (Hgone : ∀ l (m0 : gmap string Session), m0 !! j = None → foldl f m0 l !! j = None).
  { induction l as [|[k s] l IH]; intros m0 H0; [done|]. cbn [foldl]. apply IH.
    unfold f. destruct (_ && _); [|done].
    destruct (decide (k = j)) as [->|]; [apply lookup_delete_eq|by rewrite lookup_delete_ne]. }
  assert (Hkept : ∀ l (m0 : gmap string Session),
            (∀ s, (j, s) ∈ l →
                  (Legacy.TWO_HOURS <? now - createdAt s)%Z && negb (isActive s) = false) →
            foldl f m0 l !! j = m0 !! j).
  { induction l as [|[k s] l IH]; intros m0 Hl; [done|]. cbn [foldl]. rewrite IH.
    - unfold f. destruct (_ && _) eqn:He; [|done].
      destruct (decide (k = j)) as [->|]; [|by rewrite lookup_delete_ne].
      rewrite Hl in He; [done|left].
    - intros s' Hs'. apply Hl. by right. }
  assert (Hrem : ∀ l (m0 : gmap string Session) s, (j, s) ∈ l →
            (Legacy.TWO_HOURS <? now - createdAt s)%Z && negb (isActive s) = true →
            foldl f m0 l !! j = None).
  { induction l as [|[k s'] l IH]; intros m0 s Hin He.
    - by apply elem_of_nil in Hin.
    - cbn [foldl]. apply elem_of_cons in Hin as [[= <- <-]|Hin]; [|by eapply IH].
      apply Hgone. unfold f. rewrite He. apply lookup_delete_eq. }
  destruct (m !! j) as [s|] eqn:Hj; cbn.
  - destruct (_ && _) eqn:He.
    + apply (Hrem _ _ s); [|done]. by apply elem_of_map_to_list.
    + rewrite Hkept; [done|]. intros s' Hs'. apply elem_of_map_to_list in Hs'. congruence.
  - by apply Hgone.
Qed.

(** ** Session codes *)

Lemma asSet_lookup_None (a b : option Session) :
  SessionManager.asSet <$> a = SessionManager.asSet <$> b → a = None ↔ b = None.
Proof. destruct a, b; naive_solver. Qed.

Lemma get_asSet w k j :
  SessionManager.asSet <$> (table (snd (SessionManager.get k w)) !! j)
  = SessionManager.asSet <$> (table w !! j).
Proof.
  rewrite get_table. case_decide; [|done].
  destruct (table w !! j); [|done]. cbn. by rewrite asSet_idem.
Qed.

(** The loop returns the first candidate that is free, whatever fuel is
    left beyond the passes it needs. *)
Lemma generateSessionCode_first rnd n : ∀ k w,
  (∀ j, (j < n)%nat → is_Some (table w !! nthCandidate rnd k j)) →
  table w !! nthCandidate rnd k n = None →
  ∃ w', (∀ fuel, (n < fuel)%nat →
           generateSessionCode fuel rnd k w
           = Some (nthCandidate rnd k n, (k + 8 * (n + 1))%nat, w')) ∧
        ∀ j, SessionManager.asSet <$> (table w' !! j)
             = SessionManager.asSet <$> (table w !! j).
Proof.
  induction n as [|n IH]; intros k w Hocc Hfree.
  - unfold nthCandidate in *. rewrite Nat.mul_0_r, Nat.add_0_r in *.
    exists (SessionManager.init w). split.
    + intros [|fuel] Hfuel; [lia|]. cbn [generateSessionCode].
      rewrite (get_missing _ _ Hfree). do 3 f_equal; lia.
    + intros j. by rewrite table_init.
  - destruct (Hocc 0%nat ltac:(lia)) as [s Hs].
    unfold nthCandidate in Hs. rewrite Nat.mul_0_r, Nat.add_0_r in Hs.
    pose proof (get_asSet w (candidate rnd k)) as Hkeep.
    pose proof (get_found _ _ _ Hs) as Hget. rewrite Hget in Hkeep. cbn [snd] in Hkeep.
    set (w1 := setGlobalSessions w _) in *.
    assert (Hshift : ∀ j, nthCandidate rnd (k + 8) j = nthCandidate rnd k (S j)).
    { intros j. unfold nthCandidate. f_equal. lia. }
    destruct (IH (k + 8)%nat w1) as (w' & Hrun & Hsame).
    + intros j Hj. rewrite Hshift.
      destruct (Hocc (S j) ltac:(lia)) as [s' Hs'].
      destruct (table w1 !! nthCandidate rnd k (S j)) eqn:E; [eauto|].
      apply (asSet_lookup_None _ _ (Hkeep _)) in E. congruence.
    + rewrite Hshift. by apply (asSet_lookup_None _ _ (Hkeep _)).
    + exists w'. split.
      * intros [|fuel] Hfuel; [lia|]. cbn [generateSessionCode].
        rewrite Hget, Hrun, Hshift by lia. do 3 f_equal; lia.
      * intros j. by rewrite Hsame, Hkeep.
Qed.

Lemma least_free (P : nat → Prop) (Hdec : ∀ n, Decision (P n)) n :
  P n → ∃ m, P m ∧ ∀ j, (j < m)%nat → ¬ P j.
Proof.
  assert (Hscan : ∀ b, (∀ j, (j < b)%nat → ¬ P j) ∨
                       (∃ m, P m ∧ ∀ j, (j < m)%nat → ¬ P j)).
  { induction b as [|b [Hnone|Hsome]]; [left; lia| |by right].
    destruct (decide (P b)) as [Hb|Hb].
    - right. by exists b.
    - left. intros j Hj. destruct (decide (j = b)) as [->|]; [done|].
      apply Hnone. lia. }
  intros Hn. destruct (Hscan n) as [Hnone|Hsome]; [|done]. by exists n.
Qed.

(** C10.  When the stream of candidates holds a code that is not in the
    store, [generateSessionCode] terminates: there is a first such
    candidate, and with any fuel beyond the passes that reach it the loop
    returns exactly that candidate, having left every stored session as it
    was up to the container of its participants. *)
Theorem generateSessionCode_terminates rnd k w :
  (∃ n, table w !! nthCandidate rnd k n = None) →
  ∃ n w',
    table w !! nthCandidate rnd k n = None ∧
    (∀ j, (j < n)%nat → is_Some (table w !! nthCandidate rnd k j)) ∧
    (∀ fuel, (n < fuel)%nat →
       generateSessionCode fuel rnd k w
       = Some (nthCandidate rnd k n, (k + 8 * (n + 1))%nat, w')) ∧
    (∀ j, SessionManager.asSet <$> (table w' !! j)
          = SessionManager.asSet <$> (table w !! j)).
Proof.
  intros [n0 Hn0].
  destruct (least_free (fun n => table w !! nthCandidate rnd k n = None) _ n0 Hn0)
    as (n & Hfree & Hleast).
  assert (Hocc : ∀ j, (j < n)%nat → is_Some (table w !! nthCandidate rnd k j)).
  { intros j Hj. specialize (Hleast j Hj).
    by destruct (table w !! nthCandidate rnd k j); [eauto|]. }
  destruct (generateSessionCode_first rnd n k w Hocc Hfree) as (w' & Hrun & Hsame).
  by exists n, w'.
Qed.

Lemma charAt_codeChars d :
  (d < 36)%nat →
  ∃ c, JS.charAt codeChars d = String c EmptyString ∧ isUpperAlnum c = true.
Proof.
  intros Hd.
  do 36 (destruct d as [|d]; [eexists; split; vm_compute; reflexivity|]).
  lia.
Qed.

(** A candidate built from draws below 36 has eight characters, each an
    upper-case letter or a digit. *)
Lemma candidate_shape rnd k :
  (∀ i, (rnd i < 36)%nat) →
  String.length (candidate rnd k) = 8%nat ∧
  Forall (fun c => isUpperAlnum c = true) (JS.chars (candidate rnd k)).
Proof.
  intros Hrnd. unfold candidate. cbn [seq foldl].
  destruct (charAt_codeChars _ (Hrnd (k + 0)%nat)) as (c0 & -> & H0).
  destruct (charAt_codeChars _ (Hrnd (k + 1)%nat)) as (c1 & -> & H1).
  destruct (charAt_codeChars _ (Hrnd (k + 2)%nat)) as (c2 & -> & H2).
  destruct (charAt_codeChars _ (Hrnd (k + 3)%nat)) as (c3 & -> & H3).
  destruct (charAt_codeChars _ (Hrnd (k + 4)%nat)) as (c4 & -> & H4).
  destruct (charAt_codeChars _ (Hrnd (k + 5)%nat)) as (c5 & -> & H5).
  destruct (charAt_codeChars _ (Hrnd (k + 6)%nat)) as (c6 & -> & H6).
  destruct (charAt_codeChars _ (Hrnd (k + 7)%nat)) as (c7 & -> & H7).
  cbn. split; [done|]. repeat constructor; done.
Qed.

(** C5.  When one of the candidates the fuel allows for is free,
    [createSession] returns a session whose code has exactly eight
    characters, each an upper-case letter or a digit, and which is the code
    of no session the store held when it was called (no session was stored
    under it, and where the sessions are stored under their own codes, as
    they are in every reachable state, none had it as its [id]); the
    session is stored under that code. *)
Theorem createSession_code config fuel rnd k now w :
  (∀ i, (rnd i < 36)%nat) →
  (∃ n, (n < fuel)%nat ∧ table w !! nthCandidate rnd k n = None) →
  ∃ s k' w',
    createSession config fuel rnd k now w = Some (s, k', w') ∧
    String.length (id s) = 8%nat ∧
    Forall (fun c => isUpperAlnum c = true) (JS.chars (id s)) ∧
    (∀ code s0, table w !! code = Some s0 → code ≠ id s) ∧
    ((∀ code s0, table w !! code = Some s0 → id s0 = code) →
     ∀ code s0, table w !! code = Some s0 → id s0 ≠ id s) ∧
    table w' !! id s = Some (SessionManager.sessionToSave s) ∧
    (∀ code, code ≠ id s →
       SessionManager.asSet <$> (table w' !! code)
       = SessionManager.asSet <$> (table w !! code)).
Proof.
  intros Hrnd (n0 & Hn0 & Hfree0).
  destruct (least_free (fun n => table w !! nthCandidate rnd k n = None) _ n0 Hfree0)
    as (n & Hfree & Hleast).
  assert (Hn : (n < fuel)%nat).
  { destruct (decide (n0 < n)%nat) as [Hlt|]; [|lia]. by destruct (Hleast n0 Hlt). }
  assert (Hocc : ∀ j, (j < n)%nat → is_Some (table w !! nthCandidate rnd k j)).
  { intros j Hj. specialize (Hleast j Hj).
    by destruct (table w !! nthCandidate rnd k j); [eauto|]. }
  destruct (generateSessionCode_first rnd n k w Hocc Hfree) as (w1 & Hrun & Hsame).
  unfold createSession. rewrite (Hrun fuel Hn).
  destruct (candidate_shape rnd (k + 8 * n) Hrnd) as [Hlen Hchars].
  eexists _, _, _. split; [reflexivity|]. cbn [id]. unfold nthCandidate in *.
  split_and!; try done.
  - intros code s0 Hcode Heq. rewrite Heq in Hcode. congruence.
  - intros Hkeyed code s0 Hcode Heq. rewrite <- (Hkeyed _ _ Hcode), Heq in Hcode.
    congruence.
  - by rewrite table_dispatchEvent, save_table, decide_True.
  - intros code Hcode. by rewrite table_dispatchEvent, save_table, decide_False.
Qed.

Lemma createSession_code_witness :
  (∀ i, (Sample.draws i < 36)%nat) ∧
  (∃ n, (n < 2)%nat ∧ table Sample.created !! nthCandidate Sample.draws 0 n = None) ∧
  ∃ s k' w',
    createSession Sample.freeConfig 2 Sample.draws 0 2000 Sample.created
    = Some (s, k', w') ∧
    String.length (id s) = 8%nat.
Proof.
  assert (H1 : ∀ i, (Sample.draws i < 36)%nat).
  { intros i. unfold Sample.draws. apply Nat.mod_upper_bound. discriminate. }
  assert (H2 : ∃ n, (n < 2)%nat ∧
                    table Sample.created !! nthCandidate Sample.draws 0 n = None).
  { exists 1%nat. split; [lia|]. vm_compute. reflexivity. }
  split_and!; [exact H1 | exact H2 |].
  destruct (createSession_code Sample.freeConfig 2 Sample.draws 0 2000 Sample.created H1 H2)
    as (s & k' & w' & Hrun & Hlen & _).
  exists s, k', w'. split; [exact Hrun | exact Hlen].
Defined.

Lemma generateSessionCode_terminates_witness :
  (∃ n, table Sample.created !! nthCandidate Sample.draws 0 n = None) ∧
  ∃ n w',
    table Sample.created !! nthCandidate Sample.draws 0 n = None ∧
    (∀ fuel, (n < fuel)%nat →
       generateSessionCode fuel Sample.draws 0 Sample.created
       = Some (nthCandidate Sample.draws 0 n, (0 + 8 * (n + 1))%nat, w')).
Proof.
  assert (H : ∃ n, table Sample.created !! nthCandidate Sample.draws 0 n = None).
  { exists 1%nat. vm_compute. reflexivity. }
  split; [exact H|].
  destruct (generateSessionCode_terminates Sample.draws 0 Sample.created H)
    as (n & w' & Hfree & _ & Hrun & _).
  exists n, w'. split; [exact Hfree | exact Hrun].
Defined.

(** The run of the witness: the first candidate is taken, the second is
    returned. *)
Example generateSessionCode_second :
  option_map (fun r => (fst (fst r), snd (fst r)))
             (generateSessionCode 2 Sample.draws 0 Sample.created)
  = Some ("IJKLMNOP", 16%nat).
Proof. vm_compute. reflexivity. Qed.

(** ** Reconciliation of the bottle pool *)
Section Reconcile.
Import Ocean.

Lemma exists_spec m sc : exists_ m sc = true ↔ msgId m ∈ poolIds sc.
Proof.
  unfold exists_, poolIds, bottleIds. rewrite existsb_exists. split.
  - intros (b & Hb & Heq). apply String.eqb_eq in Heq. rewrite <- Heq.
    apply list_elem_of_fmap. exists b. split; [done|]. by apply list_elem_of_In.
  - intros (b & Heq & Hb)%list_elem_of_fmap. exists b. split.
    + by apply list_elem_of_In.
    + apply String.eqb_eq. done.
Qed.

Lemma exists_false m sc : exists_ m sc = false ↔ msgId m ∉ poolIds sc.
Proof. rewrite <- exists_spec. by destruct (exists_ m sc). Qed.

Lemma bottleIds_app a b : bottleIds (a ++ b) = (bottleIds a ++ bottleIds b)%list.
Proof. unfold bottleIds. apply fmap_app. Qed.

Lemma updateOceanBottles_cons m ms rnd k sc :
  updateOceanBottles (m :: ms) rnd k sc
  = if negb (exists_ m sc) && eligible (clickableBottles sc) m
    then updateOceanBottles ms rnd (S k) (snd (createBottle m (rnd k) sc))
    else updateOceanBottles ms rnd k sc.
Proof.
  unfold updateOceanBottles. cbn [foldl]. unfold reconcileStep at 2.
  by destruct (negb (exists_ m sc) && eligible (clickableBottles sc) m).
Qed.

(** What one call adds to the pool. *)
Lemma updateOceanBottles_added msgs rnd : ∀ k sc,
  ∃ added,
    bottles (fst (updateOceanBottles msgs rnd k sc)) = (bottles sc ++ added)%list ∧
    sceneChildren (fst (updateOceanBottles msgs rnd k sc))
    = (sceneChildren sc ++ added)%list ∧
    clickableBottles (fst (updateOceanBottles msgs rnd k sc)) = clickableBottles sc ∧
    NoDup (bottleIds added) ∧
    (∀ i, i ∈ bottleIds added ↔
          (i ∉ poolIds sc) ∧
          ∃ m, m ∈ msgs ∧ msgId m = i ∧ eligible (clickableBottles sc) m = true) ∧
    (∀ b, b ∈ added →
          userMessage b ∈ msgs ∧ eligible (clickableBottles sc) (userMessage b) = true).
Proof.
  induction msgs as [|m ms IH]; intros k sc.
  - exists []. cbn. rewrite !app_nil_r. split_and!; try done.
    + constructor.
    + intros i. split; [by intros ?%elem_of_nil|].
      intros (_ & m & ?%elem_of_nil & _). done.
    + by intros b ?%elem_of_nil.
  - rewrite updateOceanBottles_cons.
    destruct (negb (exists_ m sc) && eligible (clickableBottles sc) m) eqn:Hstep.
    + apply andb_true_iff in Hstep as [Hnew Hel].
      apply negb_true_iff, exists_false in Hnew.
      set (b := {| userMessage := m; initialY := posY (bottlePosition m) + 1;
                   phaseOffset := rnd k |}).
      set (sc1 := snd (createBottle m (rnd k) sc)).
      destruct (IH (S k) sc1) as (added & Hb & Hc & Hf & Hnd & Hiff & Hmsg).
      assert (Hids1 : poolIds sc1 = (poolIds sc ++ [msgId m])%list).
      { unfold poolIds, sc1. cbn. by rewrite bottleIds_app. }
      exists (b :: added). rewrite Hb, Hc, Hf. cbn [bottleIds fmap list_fmap].
      split_and!.
      * subst sc1. cbn. by rewrite <- app_assoc.
      * subst sc1. cbn. by rewrite <- app_assoc.
      * done.
      * apply NoDup_cons. split; [|done]. cbn.
        intros Hin. apply Hiff in Hin as [Hnot _]. apply Hnot.
        rewrite Hids1. apply elem_of_app. right. by left.
      * intros i. fold (bottleIds added). rewrite elem_of_cons, Hiff, Hids1.
        cbn [userMessage b]. split.
        -- intros [->|(Hnot & m' & Hm' & Hid & Hel')].
           ++ split; [done|]. exists m. split_and!; [by left|done|done].
           ++ split; [intros Hin; apply Hnot, elem_of_app; by left|].
              exists m'. split_and!; [by right|done|done].
        -- intros (Hnot & m' & Hm' & Hid & Hel').
           destruct (decide (i = msgId m)) as [->|Hne]; [by left|]. right.
           split.
           ++ intros [?|?%list_elem_of_singleton]%elem_of_app; done.
           ++ apply elem_of_cons in Hm' as [->|Hm']; [done|].
              exists m'. done.
      * intros b' [->|Hin]%elem_of_cons.
        -- cbn. split; [by left|done].
        -- destruct (Hmsg b' Hin) as [? ?]. split; [by right|done].
    + destruct (IH k sc) as (added & Hb & Hc & Hf & Hnd & Hiff & Hmsg).
      exists added. split_and!; try done.
      * intros i. rewrite Hiff. split.
        -- intros (Hnot & m' & Hm' & Hid & Hel'). split; [done|].
           exists m'. split_and!; [by right|done|done].
        -- intros (Hnot & m' & Hm' & Hid & Hel'). split; [done|].
           apply elem_of_cons in Hm' as [->|Hm']; [|by exists m'].
           rewrite Hel', andb_true_r in Hstep.
           apply negb_false_iff, exists_spec in Hstep. by subst i.
      * intros b' Hin. destruct (Hmsg b' Hin) as [? ?]. split; [by right|done].
Qed.

(** Nothing is added when every eligible message has its bottle. *)
Lemma updateOceanBottles_noop msgs rnd k sc :
  (∀ m, m ∈ msgs → eligible (clickableBottles sc) m = true → msgId m ∈ poolIds sc) →
  updateOceanBottles msgs rnd k sc = (sc, k).
Proof.
  induction msgs as [|m ms IH]; intros Hall; [done|].
  rewrite updateOceanBottles_cons.
  destruct (negb (exists_ m sc) && eligible (clickableBottles sc) m) eqn:Hstep.
  - apply andb_true_iff in Hstep as [Hnew Hel].
    apply negb_true_iff, exists_false in Hnew.
    destruct Hnew. apply Hall; [by left|done].
  - apply IH. intros m' Hm'. apply Hall. by right.
Qed.

(** C8.  [updateOceanBottles] only adds: the pool after the call is the
    pool before followed by new bottles, one for each identifier that was
    not in the pool and belongs to an eligible message of the list (unread,
    or the scene is not clickable), each new bottle carrying such a
    message; no identifier gets a second bottle, no bottle is removed, and
    a second call with the same list changes nothing. *)
Theorem updateOceanBottles_add_only_idempotent msgs rnd k sc :
  ∃ added,
    bottles (fst (updateOceanBottles msgs rnd k sc)) = (bottles sc ++ added)%list ∧
    sceneChildren (fst (updateOceanBottles msgs rnd k sc))
    = (sceneChildren sc ++ added)%list ∧
    NoDup (bottleIds added) ∧
    (∀ i, i ∈ bottleIds added ↔
          (i ∉ poolIds sc) ∧
          ∃ m, m ∈ msgs ∧ msgId m = i ∧ eligible (clickableBottles sc) m = true) ∧
    (∀ b, b ∈ added →
          userMessage b ∈ msgs ∧ eligible (clickableBottles sc) (userMessage b) = true) ∧
    (NoDup (poolIds sc) → NoDup (poolIds (fst (updateOceanBottles msgs rnd k sc)))) ∧
    (∀ rnd' k',
       fst (updateOceanBottles msgs rnd' k' (fst (updateOceanBottles msgs rnd k sc)))
       = fst (updateOceanBottles msgs rnd k sc)).
Proof.
  destruct (updateOceanBottles_added msgs rnd k sc)
    as (added & Hb & Hc & Hf & Hnd & Hiff & Hmsg).
  exists added. split_and!; try done.
  - intros Hpool. unfold poolIds. rewrite Hb, bottleIds_app.
    apply NoDup_app. split_and!; [done| |done].
    intros i Hi Hadded. apply Hiff in Hadded as [Hnot _]. done.
  - intros rnd' k'. rewrite updateOceanBottles_noop; [done|].
    intros m Hm Hel. rewrite Hf in Hel.
    unfold poolIds. rewrite Hb, bottleIds_app. apply elem_of_app.
    destruct (decide (msgId m ∈ poolIds sc)) as [Hin|Hnot]; [by left|].
    right. apply Hiff. split; [done|]. by exists m.
Qed.

(** In review mode, with the bottle of [m1] in the pool: of [m1], [m2],
    [m2] again and the read [m3], only [m2] gets a bottle, once. *)
Example updateOceanBottles_review :
  poolIds (fst (updateOceanBottles [Sample.m1; Sample.m2; Sample.m2; Sample.m3]
                  Sample.draws 0 Sample.review))
  = ["msg_1"; "msg_2"] ∧
  snd (updateOceanBottles [Sample.m1; Sample.m2; Sample.m2; Sample.m3]
         Sample.draws 0 Sample.review) = 1%nat.
Proof. vm_compute. split; reflexivity. Qed.

End Reconcile.

(** ** CSV export *)

Lemma append_assoc (a b c : string) : (a +:+ b) +:+ c = a +:+ (b +:+ c).
Proof.
  induction a as [|x a IH]; [done|].
  change (String x ((a +:+ b) +:+ c) = String x (a +:+ (b +:+ c))). by rewrite IH.
Qed.

Lemma append_nil_r (a : string) : a +:+ "" = a.
Proof.
  induction a as [|x a IH]; [done|].
  change (String x (a +:+ "") = String x a). by rewrite IH.
Qed.

Lemma civil_year_range t :
  0 <= t <= 253402300799999 →
  ∃ y m d, JS.civilFromDays (t / JS.msPerDay) = (y, m, d) ∧ 0 <= y <= 9999.
Proof.
  intros Ht. unfold JS.civilFromDays, JS.msPerDay.
  eexists _, _, _. split; [reflexivity|].
  set (days := t / 86400000).
  assert (Hd : 0 <= days <= 2932896) by (subst days; Z.div_mod_to_equations; lia).
  clearbody days. clear Ht t.
  set (z := days + 719468).
  set (era := z / 146097). set (doe := z mod 146097).
  assert (He : 4 <= era <= 24) by (subst era z; Z.div_mod_to_equations; lia).
  assert (Hdoe : 0 <= doe <= 146096) by (subst doe; Z.div_mod_to_equations; lia).
  assert (Hlast : era = 24 → doe <= 146036)
    by (subst era doe z; Z.div_mod_to_equations; lia).
  clearbody era doe. clear z days Hd.
  set (yoe := (doe - doe / 1460 + doe / 36524 - doe / 146096) / 365).
  assert (Hyoe : 0 <= yoe <= 399) by (subst yoe; Z.div_mod_to_equations; lia).
  set (doy := doe - (365 * yoe + yoe / 4 - yoe / 100)).
  set (mp := (5 * doy + 2) / 153).
  destruct (mp <? 10)%Z eqn:Hmp.
  - assert ((mp + 3 <=? 2)%Z = false) as ->
      by (apply Z.leb_gt; subst mp doy yoe; Z.div_mod_to_equations; lia).
    lia.
  - destruct (mp - 9 <=? 2)%Z; [|lia].
    assert (¬ (era = 24 ∧ yoe = 399)); [|lia].
    intros [-> Hy]. specialize (Hlast eq_refl). apply Z.ltb_ge in Hmp.
    subst mp doy. rewrite Hy in Hmp. subst yoe. Z.div_mod_to_equations. lia.
Qed.

Lemma isDigit_digitChar d : isDigit (JS.digitChar d) = true.
Proof.
  unfold JS.digitChar.
  assert (Hn : (Z.to_nat (d mod 10) < 10)%nat)
    by (pose proof (Z.mod_pos_bound d 10); lia).
  destruct (Z.to_nat (d mod 10)) as [|n]; [done|].
  do 9 (destruct n as [|n]; [done|]). lia.
Qed.

(** In the years 1970 to 9999 [toISOString] succeeds with a text of the
    ISO-8601 shape. *)
Lemma toISOString_shape t :
  0 <= t <= 253402300799999 →
  ∃ iso, JS.toISOString t = Some iso ∧ isISOTimestamp iso = true.
Proof.
  intros Ht. unfold JS.toISOString.
  assert (Hr : (- JS.maxTime <=? t)%Z && (t <=? JS.maxTime)%Z = true).
  { unfold JS.maxTime. apply andb_true_iff. split; apply Z.leb_le; lia. }
  rewrite Hr. destruct (civil_year_range t Ht) as (y & m & d & -> & Hy).
  assert (Hy' : (0 <=? y)%Z && (y <=? 9999)%Z = true).
  { apply andb_true_iff. split; apply Z.leb_le; lia. }
  rewrite Hy'. eexists. split; [reflexivity|].
  unfold isISOTimestamp, JS.chars, JS.str.
  rewrite list_ascii_of_string_of_list_ascii.
  unfold JS.pad2, JS.pad3, JS.pad4. cbn [app forallb].
  rewrite !isDigit_digitChar. reflexivity.
Qed.

Lemma doubleQuotes_doubled text :
  JS.str (JS.doubleQuotes (JS.chars text)) = doubledQuotes text.
Proof.
  unfold JS.str, JS.chars, JS.doubleQuotes.
  induction text as [|c rest IH]; [done|].
  cbn [list_ascii_of_string flat_map doubledQuotes].
  destruct (Ascii.eqb c JS.dquote); cbn; by rewrite IH.
Qed.

(** The row of a message, field by field. *)
Lemma csvRow_fields m :
  0 <= timestamp m <= 253402300799999 →
  ∃ iso,
    JS.toISOString (timestamp m) = Some iso ∧
    isISOTimestamp iso = true ∧
    csvRow m = Some (csvLine [iso; nameField m; anonymousField m; optionField m;
                              quotedField (messageText m);
                              JS.showInt (Z.of_nat (wordCount m))]).
Proof.
  intros Ht. destruct (toISOString_shape _ Ht) as (iso & Hiso & Hshape).
  exists iso. split_and!; [done..|].
  unfold csvRow. rewrite Hiso, doubleQuotes_doubled.
  unfold csvLine, quotedField, nameField, anonymousField, optionField, JS.orElse.
  cbn [String.concat]. f_equal. by rewrite !append_assoc.
Qed.

Lemma exportMessages_fold ms : ∀ acc,
  Forall (fun m => 0 <= timestamp m <= 253402300799999) ms →
  ∃ rows,
    foldl (fun csv msg =>
             match csv, csvRow msg with
             | Some csv, Some row => Some (csv +:+ row)
             | _, _ => None
             end) (Some acc) ms
    = Some (acc +:+ joinRows rows) ∧
    Forall2 (fun m row =>
               ∃ iso, JS.toISOString (timestamp m) = Some iso ∧
                      isISOTimestamp iso = true ∧
                      row = csvLine [iso; nameField m; anonymousField m; optionField m;
                                     quotedField (messageText m);
                                     JS.showInt (Z.of_nat (wordCount m))])
            ms rows.
Proof.
  induction ms as [|m ms IH]; intros acc Hts.
  - exists []. split; [|constructor].
    cbn [foldl joinRows foldr]. by rewrite append_nil_r.
  - apply Forall_cons in Hts as [Ht Hts].
    destruct (csvRow_fields m Ht) as (iso & Hiso & Hshape & Hrow).
    cbn [foldl]. rewrite Hrow.
    destruct (IH (acc +:+ csvLine [iso; nameField m; anonymousField m; optionField m;
                                    quotedField (messageText m);
                                    JS.showInt (Z.of_nat (wordCount m))]) Hts)
      as (rows & Hfold & Hrows).
    eexists (_ :: rows). split.
    + rewrite Hfold. cbn [joinRows foldr]. by rewrite append_assoc.
    + constructor; [|done]. by exists iso.
Qed.

(** C9.  For a session with at least one message, whose messages carry
    time stamps of the years 1970 to 9999, the export is the header line
    followed by one row per message in the order of the messages; a row
    holds the time stamp as an ISO-8601 text, the name ([Anonymous] when
    the flag is set, else the display name, or [Unknown] without one), the
    flag, the option, the text between double quotes with its own double
    quotes doubled, and the word count.  The text [heSaidHi], which quotes
    the word hi, is exported as the field [heSaidHiField]. *)
Theorem exportMessages_csv w sessionId s :
  table w !! sessionId = Some s →
  messages s ≠ [] →
  Forall (fun m => 0 <= timestamp m <= 253402300799999) (messages s) →
  ∃ rows,
    fst (exportMessages sessionId w)
    = Exported (("Timestamp,Name,Anonymous,Option,Message,Word Count" +:+ newline)
                +:+ joinRows rows) ∧
    Forall2 (fun m row =>
               ∃ iso, JS.toISOString (timestamp m) = Some iso ∧
                      isISOTimestamp iso = true ∧
                      row = csvLine [iso; nameField m; anonymousField m; optionField m;
                                     quotedField (messageText m);
                                     JS.showInt (Z.of_nat (wordCount m))])
            (messages s) rows ∧
    (∀ m, isAnonymous m = true → nameField m = "Anonymous") ∧
    (∀ m name, isAnonymous m = false → studentName m = Some name → name ≠ "" →
               nameField m = name) ∧
    (∀ m, isAnonymous m = false → studentName m = None → nameField m = "Unknown") ∧
    quotedField heSaidHi = heSaidHiField.
Proof.
  intros Hk Hne Hts.
  destruct (exportMessages_fold (messages s) csvHeader Hts) as (rows & Hfold & Hrows).
  exists rows. split_and!.
  - unfold exportMessages. rewrite (getSession_found _ _ _ Hk), messages_asSet.
    destruct (messages s) as [|m ms] eqn:Hms; [done|]. cbn [length Nat.eqb].
    rewrite <- Hms in *. by rewrite Hfold.
  - done.
  - intros m Ha. unfold nameField. by rewrite Ha.
  - intros m name Ha Hn Hname. unfold nameField. rewrite Ha, Hn.
    by destruct (String.eqb_spec name "").
  - intros m Ha Hn. unfold nameField. by rewrite Ha, Hn.
  - vm_compute. reflexivity.
Qed.

Lemma exportMessages_csv_witness :
  table Sample.quoted !! "QUOTES00" = Some Sample.quotingSession ∧
  messages Sample.quotingSession ≠ [] ∧
  Forall (fun m => 0 <= timestamp m <= 253402300799999) (messages Sample.quotingSession) ∧
  ∃ rows,
    fst (exportMessages "QUOTES00" Sample.quoted)
    = Exported (("Timestamp,Name,Anonymous,Option,Message,Word Count" +:+ newline)
                +:+ joinRows rows).
Proof.
  assert (H1 : table Sample.quoted !! "QUOTES00" = Some Sample.quotingSession)
    by (vm_compute; reflexivity).
  assert (H2 : messages Sample.quotingSession ≠ []) by discriminate.
  assert (H3 : Forall (fun m => 0 <= timestamp m <= 253402300799999)
                      (messages Sample.quotingSession)).
  { repeat constructor; vm_compute; discriminate. }
  split_and!; [exact H1 | exact H2 | exact H3 |].
  destruct (exportMessages_csv _ _ _ H1 H2 H3) as (rows & Hcsv & _).
  exists rows. exact Hcsv.
Defined.

(** The file of the witness, in full. *)
Example exportMessages_quoting :
  fst (exportMessages "QUOTES00" Sample.quoted)
  = Exported ("Timestamp,Name,Anonymous,Option,Message,Word Count" +:+ newline
              +:+ "2023-11-14T22:13:20.001Z,Anonymous,Yes,N/A," +:+ heSaidHiField
              +:+ ",3" +:+ newline).
Proof. vm_compute. reflexivity. Qed.

(** ** One message per participant *)

(** [addMessage] does not look for an earlier message of the participant:
    two calls by one participant leave two messages with the same
    [participantId] in the session, in a state reached by store operations
    alone. *)
Lemma addMessage_twice_same_participant :
  rtc (step false) Sample.start Sample.twice ∧
  ¬ onePerParticipant Sample.twice.
Proof.
  split.
  - eapply rtc_l.
    { eapply (StepCreate false Sample.questionConfig 1 Sample.draws 0 1000 Sample.start
                _ _ Sample.created).
      vm_compute. reflexivity. }
    eapply rtc_l.
    { apply (StepAddMessage false "ABCDEFGH" Sample.catsInput Sample.entropy
               Sample.created eq_refl). }
    eapply rtc_l; [|apply rtc_refl].
    apply (StepAddMessage false "ABCDEFGH" Sample.catsInput Sample.entropy2
             Sample.once eq_refl).
  - intros Hinv.
    assert (Hk : ∃ s, table Sample.twice !! "ABCDEFGH" = Some s ∧
                      length (messagesOf "socket_r4nd0m1700000000000" s) = 2%nat).
    { eexists. split; vm_compute; reflexivity. }
    destruct Hk as (s & Hs & Hlen).
    specialize (Hinv _ _ "socket_r4nd0m1700000000000" Hs). lia.
Qed.

Lemma pids_erase s : pids (eraseParticipants s) = pids s.
Proof. reflexivity. Qed.

Lemma pids_asSet s : pids (SessionManager.asSet s) = pids s.
Proof. unfold pids. by rewrite messages_asSet. Qed.

Lemma pids_sessionToSave s : pids (SessionManager.sessionToSave s) = pids s.
Proof. by destruct s as [? ? ? ? ? ? ? ? [l|l] ? ?]. Qed.

Lemma erase_pidsAt w w' j :
  eraseParticipants <$> (table w' !! j) = eraseParticipants <$> (table w !! j) →
  pidsAt w' j = pidsAt w j.
Proof.
  intros H. unfold pidsAt.
  assert (Hc : ∀ o : option Session, pids <$> o = pids <$> (eraseParticipants <$> o))
    by by intros [?|].
  by rewrite (Hc (table w' !! j)), H, <- Hc.
Qed.

Lemma asSet_pidsAt w w' j :
  SessionManager.asSet <$> (table w' !! j) = SessionManager.asSet <$> (table w !! j) →
  pidsAt w' j = pidsAt w j.
Proof.
  intros H. unfold pidsAt.
  assert (Hc : ∀ o : option Session, pids <$> o = pids <$> (SessionManager.asSet <$> o)).
  { intros [?|]; [|done]. cbn. by rewrite pids_asSet. }
  by rewrite (Hc (table w' !! j)), H, <- Hc.
Qed.

Lemma getSession_erase w k j :
  eraseParticipants <$> (table (snd (getSession k w)) !! j)
  = eraseParticipants <$> (table w !! j).
Proof.
  rewrite getSession_table. case_decide; [|done].
  destruct (table w !! j); [|done]. cbn. by rewrite erase_asSet.
Qed.

Lemma getSession_pids w k j : pidsAt (snd (getSession k w)) j = pidsAt w j.
Proof. apply erase_pidsAt, getSession_erase. Qed.

Lemma renderStudentLanding_pids k w j :
  pidsAt (snd (renderStudentLanding k w)) j = pidsAt w j.
Proof.
  unfold renderStudentLanding. pose proof (getSession_pids w k j) as Hg.
  destruct (getSession k w) as [[s|] w1]; cbn [fst snd] in *; [|done].
  destruct (negb (isActive s)); [done|].
  destruct (100 <=? _)%nat; [done|].
  destruct (hasSubmitted s w1); [done|].
  pose proof (SM_addParticipant_table k (socketId w1) w1 j) as Hp.
  destruct (SessionManager.addParticipant k (socketId w1) w1) as [b w2].
  cbn [fst snd] in *.
  set (w3 := dispatchEvent _ w2).
  pose proof (getSession_pids w3 k j) as Hg3.
  assert (H3 : pidsAt w3 j = pidsAt w j).
  { rewrite <- Hg. apply erase_pidsAt. by rewrite <- Hp. }
  destruct (getSession k w3) as [[s3|] w4]; cbn [fst snd] in *; congruence.
Qed.

Lemma addMessage_pids k msg e w j :
  pidsAt (snd (addMessage k msg e w)) j
  = if decide (j = k)
    then (fun l => if (100 <=? length l)%nat then l else (l ++ [socketId w])%list)
         <$> pidsAt w j
    else pidsAt w j.
Proof.
  pose proof (addMessage_table k msg e w j) as H. unfold pidsAt.
  destruct (decide (j = k)) as [->|Hne].
  - destruct (table (snd (addMessage k msg e w)) !! k) as [a|],
             (table w !! k) as [b|]; simplify_eq/=; [|done].
    rewrite <- (pids_erase a), H. f_equal. unfold pids at 2. rewrite length_fmap.
    destruct (100 <=? length (messages b))%nat; [done|].
    unfold pids. cbn. by rewrite fmap_app.
  - apply (erase_pidsAt w _ j) in H. apply H.
Qed.

Lemma hasSubmitted_false s w :
  hasSubmitted s w = false → socketId w ∉ pids s.
Proof.
  unfold hasSubmitted, pids. intros H [m [Heq Hm]]%list_elem_of_fmap.
  assert (Hex : existsb (fun m => String.eqb (participantId m) (socketId w)) (messages s)
                = true).
  { apply existsb_exists. exists m. split; [by apply list_elem_of_In|].
    by apply String.eqb_eq. }
  congruence.
Qed.

(** A submission through the composer appends a message only for a
    participant the session has no message of. *)
Lemma composeAndSubmit_pids k form e w j :
  pidsAt (snd (composeAndSubmit k form e w)) j = pidsAt w j ∨
  ∃ l, pidsAt w j = Some l ∧ (socketId w ∉ l) ∧
       pidsAt (snd (composeAndSubmit k form e w)) j = Some (l ++ [socketId w])%list.
Proof.
  unfold composeAndSubmit, renderComposer.
  pose proof (getSession_pids w k j) as Hg.
  pose proof (getSession_result w k) as Hr.
  pose proof (getSession_table w k k) as Ht. rewrite decide_True in Ht by done.
  pose proof (getSession_others w k) as (Hsock & _).
  destruct (getSession k w) as [[s|] w1]; cbn [fst snd] in *; [|by left].
  destruct (negb (isActive s)); [by left|].
  destruct (hasSubmitted s w1) eqn:Hsub; [by left|].
  apply hasSubmitted_false in Hsub. rewrite Hsock in Hsub.
  assert (Hs : pidsAt w1 k = Some (pids s)).
  { unfold pidsAt. rewrite Ht. destruct (table w !! k) as [s0|]; simplify_eq/=.
    by rewrite pids_asSet. }
  unfold handleSubmitMessage.
  pose proof (getSession_pids w1 k) as Hg1.
  pose proof (getSession_others w1 k) as (Hsock1 & _).
  destruct (getSession k w1) as [[s1|] w2]; cbn [fst snd] in *; [|left; congruence].
  destruct (String.eqb _ ""); [left; cbn; congruence|].
  destruct (100 <? _)%nat; [left; cbn; congruence|].
  destruct (isQuestion (mode s1) && _); [left; cbn; congruence|].
  match goal with
  | |- context [addMessage k ?m e w2] =>
      pose proof (addMessage_pids k m e w2 j) as Ha;
      destruct (addMessage k m e w2) as [b w3]
  end.
  cbn [fst snd] in *.
  assert (Hw3 : pidsAt (if b then (Some SubmitSent, w3) else (Some SubmitFailed, w3)).2 j
                = pidsAt w3 j) by by destruct b.
  assert (Hgoal : pidsAt w3 j = pidsAt w j ∨
            ∃ l, pidsAt w j = Some l ∧ (socketId w ∉ l) ∧
                 pidsAt w3 j = Some (l ++ [socketId w])%list).
  { rewrite Ha. case_decide as Hj; [|left; congruence]. subst j.
    rewrite Hg1, Hs. cbn. destruct (100 <=? _)%nat; [left; congruence|].
    right. exists (pids s). rewrite <- Hg, Hs. rewrite Hsock1, Hsock. done. }
  destruct b; cbn [snd] in *; exact Hgoal.
Qed.

Lemma markFirst_pids messageId ms ms' :
  markFirst messageId ms = Some ms' → participantId <$> ms' = participantId <$> ms.
Proof.
  revert ms'. induction ms as [|m ms IH]; intros ms' H; [done|].
  cbn in H. destruct (String.eqb (msgId m) messageId).
  - by simplify_eq.
  - destruct (markFirst messageId ms) as [r|]; simplify_eq/=. by rewrite (IH r).
Qed.

Lemma save_pids k d w j :
  pidsAt (SessionManager.save k d w) j
  = if decide (j = k) then Some (pids d) else pidsAt w j.
Proof.
  unfold pidsAt. rewrite save_table. case_decide; [|done].
  cbn. by rewrite pids_sessionToSave.
Qed.

Lemma markAsRead_pids k messageId w j : pidsAt (markAsRead k messageId w) j = pidsAt w j.
Proof.
  unfold markAsRead.
  pose proof (getSession_pids w k) as Hg.
  pose proof (getSession_result w k) as Hr.
  pose proof (getSession_table w k k) as Ht. rewrite decide_True in Ht by done.
  destruct (getSession k w) as [[s|] w1]; cbn [fst snd] in *; [|done].
  destruct (markFirst messageId (messages s)) as [ms|] eqn:Hm; [|done].
  rewrite save_pids. case_decide as Hj; [|done]. subst j.
  rewrite <- Hg. unfold pidsAt. rewrite Ht.
  destruct (table w !! k) as [s0|]; simplify_eq/=.
  unfold pids. cbn. rewrite (markFirst_pids _ _ _ Hm). by rewrite messages_asSet.
Qed.

Lemma closeSession_pids k w j : pidsAt (closeSession k w) j = pidsAt w j.
Proof.
  unfold closeSession.
  pose proof (getSession_pids w k) as Hg.
  pose proof (getSession_result w k) as Hr.
  pose proof (getSession_table w k k) as Ht. rewrite decide_True in Ht by done.
  destruct (getSession k w) as [[s|] w1]; cbn [fst snd] in *; [|done].
  unfold pidsAt at 1. rewrite table_dispatchEvent. fold (pidsAt (SessionManager.save k (setIsActive s false) w1) j).
  rewrite save_pids. case_decide as Hj; [|done]. subst j.
  rewrite <- Hg. unfold pidsAt. rewrite Ht.
  destruct (table w !! k) as [s0|]; simplify_eq/=. done.
Qed.

Lemma cleanupSessions_pids now w j :
  pidsAt (cleanupSessions now w) j = None ∨ pidsAt (cleanupSessions now w) j = pidsAt w j.
Proof.
  unfold pidsAt. rewrite cleanupSessions_table.
  destruct (table w !! j) as [s|]; cbn; [|by left].
  destruct (expired now s); [by left|by right].
Qed.

Lemma generateSessionCode_frame fuel rnd : ∀ k w code k' w1,
  generateSessionCode fuel rnd k w = Some (code, k', w1) →
  table w !! code = None ∧
  ∀ j, SessionManager.asSet <$> (table w1 !! j) = SessionManager.asSet <$> (table w !! j).
Proof.
  induction fuel as [|fuel IH]; intros k w code k' w1 H; [done|].
  cbn [generateSessionCode] in H.
  pose proof (get_asSet w (candidate rnd k)) as Hkeep.
  pose proof (get_result w (candidate rnd k)) as Hr.
  destruct (SessionManager.get (candidate rnd k) w) as [[s|] w0]; cbn [fst snd] in *.
  - destruct (IH _ _ _ _ _ H) as [Hfree Hsame]. split.
    + by apply (asSet_lookup_None _ _ (Hkeep code)).
    + intros j. by rewrite Hsame.
  - simplify_eq. split; [|done]. by destruct (table w !! candidate rnd k).
Qed.

Lemma createSession_pids config fuel rnd k now w s k' w' j :
  createSession config fuel rnd k now w = Some (s, k', w') →
  pidsAt w' j = if decide (j = id s) then Some [] else pidsAt w j.
Proof.
  unfold createSession. intros H.
  destruct (generateSessionCode fuel rnd k w) as [[[code k1] w1]|] eqn:Hgen; [|done].
  destruct (generateSessionCode_frame _ _ _ _ _ _ _ Hgen) as [_ Hsame].
  simplify_eq. cbn [id]. unfold pidsAt at 1. rewrite table_dispatchEvent.
  match goal with |- context [SessionManager.save code ?d w1] =>
    fold (pidsAt (SessionManager.save code d w1) j) end.
  rewrite save_pids. case_decide; [done|]. apply asSet_pidsAt, Hsame.
Qed.

Lemma messagesOf_absent pid (ms : list Message) :
  pid ∉ participantId <$> ms → filter (fun m => participantId m = pid) ms = [].
Proof.
  induction ms as [|m ms IH]; [done|].
  rewrite fmap_cons, not_elem_of_cons. intros [Hne Hms].
  rewrite filter_cons. case_decide; [done|]. by apply IH.
Qed.

Lemma NoDup_messagesOf pid s :
  NoDup (pids s) → (length (messagesOf pid s) <= 1)%nat.
Proof.
  unfold pids, messagesOf. induction (messages s) as [|m ms IH]; [cbn; lia|].
  rewrite fmap_cons, NoDup_cons. intros [Hm Hnd].
  rewrite filter_cons. case_decide as Hp; [|by apply IH].
  subst pid. rewrite (messagesOf_absent _ _ Hm). cbn. lia.
Qed.

(** C3, as the code has it.  The form stays in the page after its
    message is sent, and [handleSubmitMessage] does not look for an earlier
    message of the socket as [renderComposer] does: submitting the form the
    composer showed a second time sends a second message.  The state is
    reached through the composer and its form alone, and its session holds
    two messages of one participant. *)
Theorem handleSubmitMessage_twice_same_participant :
  fst (renderComposer "ABCDEFGH" Sample.created) = ComposerForm ∧
  fst (composeAndSubmit "ABCDEFGH" Sample.catsForm Sample.entropy Sample.created)
  = Some SubmitSent ∧
  fst (handleSubmitMessage "ABCDEFGH" Sample.catsForm Sample.entropy2 Sample.submitted)
  = SubmitSent ∧
  pidsAt Sample.submittedTwice "ABCDEFGH"
  = Some ["socket_r4nd0m1700000000000"; "socket_r4nd0m1700000000000"] ∧
  rtc (step true) Sample.start Sample.submittedTwice ∧
  ¬ onePerParticipant Sample.submittedTwice.
Proof.
  split; [vm_compute; reflexivity|].
  split; [vm_compute; reflexivity|].
  split; [vm_compute; reflexivity|].
  split; [vm_compute; reflexivity|].
  split.
  - eapply rtc_l.
    { eapply (StepCreate true Sample.questionConfig 1 Sample.draws 0 1000 Sample.start
                _ _ Sample.created).
      vm_compute. reflexivity. }
    eapply rtc_l.
    { apply (StepSubmit true "ABCDEFGH" Sample.catsForm Sample.entropy Sample.created). }
    eapply rtc_l; [|apply rtc_refl].
    apply (StepHandleSubmit true "ABCDEFGH" Sample.catsForm Sample.entropy2
             Sample.submitted).
  - intros Hinv.
    assert (Hk : ∃ s, table Sample.submittedTwice !! "ABCDEFGH" = Some s ∧
                      length (messagesOf "socket_r4nd0m1700000000000" s) = 2%nat).
    { eexists. split; vm_compute; reflexivity. }
    destruct Hk as (s & Hs & Hlen).
    specialize (Hinv _ _ "socket_r4nd0m1700000000000" Hs). lia.
Qed.

(** A visit of the composer in between turns the second submission away:
    [renderComposer] is where the earlier message is looked for. *)
Example resubmission_turned_away :
  fst (composeAndSubmit "ABCDEFGH" Sample.catsForm Sample.entropy Sample.created)
  = Some SubmitSent ∧
  fst (composeAndSubmit "ABCDEFGH" Sample.catsForm Sample.entropy2 Sample.submitted)
  = None ∧
  ((fun s => length (messages s)) <$> (table Sample.resubmitted !! "ABCDEFGH"))
  = Some 1%nat.
Proof. vm_compute. split_and!; reflexivity. Qed.

(** ** Fields no operation assigns

    The operations assign the participants, the messages and the active
    flag of a stored session, and nothing else. *)
Section StableField.
Context {A : Type} (f : Session → A).
Hypothesis f_participants : ∀ s p, f (setParticipants s p) = f s.
Hypothesis f_messages : ∀ s ms, f (setMessages s ms) = f s.
Hypothesis f_isActive : ∀ s b, f (setIsActive s b) = f s.

Lemma stable_asSet s : f (SessionManager.asSet s) = f s.
Proof. rewrite asSet_members. apply f_participants. Qed.

Lemma stable_sessionToSave s : f (SessionManager.sessionToSave s) = f s.
Proof.
  unfold SessionManager.sessionToSave.
  destruct (participants s); [done|apply f_participants].
Qed.

Lemma stable_erase_frame w w' j :
  eraseParticipants <$> (table w' !! j) = eraseParticipants <$> (table w !! j) →
  fieldAt f w' j = fieldAt f w j.
Proof.
  intros H. unfold fieldAt.
  assert (Hc : ∀ o : option Session, f <$> o = f <$> (eraseParticipants <$> o)).
  { intros [s|]; [|done]. cbn. unfold eraseParticipants. by rewrite f_participants. }
  by rewrite (Hc (table w' !! j)), H, <- Hc.
Qed.

Lemma stable_asSet_frame w w' j :
  SessionManager.asSet <$> (table w' !! j) = SessionManager.asSet <$> (table w !! j) →
  fieldAt f w' j = fieldAt f w j.
Proof.
  intros H. unfold fieldAt.
  assert (Hc : ∀ o : option Session, f <$> o = f <$> (SessionManager.asSet <$> o)).
  { intros [s|]; [|done]. cbn. by rewrite stable_asSet. }
  by rewrite (Hc (table w' !! j)), H, <- Hc.
Qed.

Lemma stable_getSession k w j : fieldAt f (snd (getSession k w)) j = fieldAt f w j.
Proof. apply stable_erase_frame, getSession_erase. Qed.

Lemma stable_addMessage k msg e w j : fieldAt f (snd (addMessage k msg e w)) j = fieldAt f w j.
Proof.
  pose proof (addMessage_table k msg e w j) as H. unfold fieldAt.
  assert (Hc : ∀ o : option Session, f <$> o = f <$> (eraseParticipants <$> o)).
  { intros [s|]; [|done]. cbn. unfold eraseParticipants. by rewrite f_participants. }
  rewrite (Hc (table _ !! j)), H. case_decide; [|by rewrite <- Hc].
  destruct (table w !! j) as [s|]; [|done]. cbn.
  destruct (100 <=? _)%nat; unfold eraseParticipants;
    by rewrite f_participants, ?f_messages.
Qed.

Lemma stable_save k d w j :
  fieldAt f (SessionManager.save k d w) j
  = if decide (j = k) then Some (f d) else fieldAt f w j.
Proof.
  unfold fieldAt. rewrite save_table. case_decide; [|done].
  cbn. by rewrite stable_sessionToSave.
Qed.

Lemma stable_renderStudentLanding k w j :
  fieldAt f (snd (renderStudentLanding k w)) j = fieldAt f w j.
Proof.
  unfold renderStudentLanding. pose proof (stable_getSession k w j) as Hg.
  destruct (getSession k w) as [[s|] w1]; cbn [fst snd] in *; [|done].
  destruct (negb (isActive s)); [done|].
  destruct (100 <=? _)%nat; [done|].
  destruct (hasSubmitted s w1); [done|].
  pose proof (SM_addParticipant_table k (socketId w1) w1 j) as Hp.
  destruct (SessionManager.addParticipant k (socketId w1) w1) as [b w2].
  cbn [fst snd] in *.
  set (w3 := dispatchEvent _ w2).
  pose proof (stable_getSession k w3 j) as Hg3.
  assert (H3 : fieldAt f w3 j = fieldAt f w j).
  { rewrite <- Hg. apply stable_erase_frame. by rewrite <- Hp. }
  destruct (getSession k w3) as [[s3|] w4]; cbn [fst snd] in *; congruence.
Qed.

Lemma stable_handleSubmitMessage k form e w j :
  fieldAt f (snd (handleSubmitMessage k form e w)) j = fieldAt f w j.
Proof.
  unfold handleSubmitMessage.
  pose proof (stable_getSession k w j) as Hg1.
  destruct (getSession k w) as [[s1|] w2]; cbn [fst snd] in *; [|congruence].
  destruct (String.eqb _ ""); [cbn; congruence|].
  destruct (100 <? _)%nat; [cbn; congruence|].
  destruct (isQuestion (mode s1) && _); [cbn; congruence|].
  match goal with
  | |- context [addMessage k ?m e w2] =>
      pose proof (stable_addMessage k m e w2 j) as Ha;
      destruct (addMessage k m e w2) as [b w3]
  end.
  cbn [fst snd] in *. destruct b; cbn [snd]; congruence.
Qed.

Lemma stable_composeAndSubmit k form e w j :
  fieldAt f (snd (composeAndSubmit k form e w)) j = fieldAt f w j.
Proof.
  unfold composeAndSubmit, renderComposer.
  pose proof (stable_getSession k w j) as Hg.
  destruct (getSession k w) as [[s|] w1]; cbn [fst snd] in *; [|done].
  destruct (negb (isActive s)); [done|].
  destruct (hasSubmitted s w1); [done|].
  pose proof (stable_handleSubmitMessage k form e w1 j) as Hh.
  destruct (handleSubmitMessage k form e w1) as [r w2]. cbn [fst snd] in *. congruence.
Qed.

Lemma stable_markAsRead k messageId w j : fieldAt f (markAsRead k messageId w) j = fieldAt f w j.
Proof.
  unfold markAsRead.
  pose proof (stable_getSession k w) as Hg.
  pose proof (getSession_table w k k) as Ht. rewrite decide_True in Ht by done.
  pose proof (getSession_result w k) as Hr.
  destruct (getSession k w) as [[s|] w1]; cbn [fst snd] in *; [|done].
  destruct (markFirst messageId (messages s)) as [ms|]; [|done].
  rewrite stable_save. case_decide as Hj; [|done]. subst j.
  rewrite <- Hg. unfold fieldAt. rewrite Ht.
  destruct (table w !! k) as [s0|]; simplify_eq/=.
  by rewrite f_messages.
Qed.

Lemma stable_closeSession k w j : fieldAt f (closeSession k w) j = fieldAt f w j.
Proof.
  unfold closeSession.
  pose proof (stable_getSession k w) as Hg.
  pose proof (getSession_table w k k) as Ht. rewrite decide_True in Ht by done.
  pose proof (getSession_result w k) as Hr.
  destruct (getSession k w) as [[s|] w1]; cbn [fst snd] in *; [|done].
  change (fieldAt f (SessionManager.save k (setIsActive s false) w1) j = fieldAt f w j).
  rewrite stable_save. case_decide as Hj; [|done]. subst j.
  rewrite <- Hg. unfold fieldAt. rewrite Ht.
  destruct (table w !! k) as [s0|]; simplify_eq/=.
  by rewrite f_isActive.
Qed.

Lemma stable_cleanupSessions now w j :
  fieldAt f (cleanupSessions now w) j = None ∨
  fieldAt f (cleanupSessions now w) j = fieldAt f w j.
Proof.
  unfold fieldAt. rewrite cleanupSessions_table.
  destruct (table w !! j) as [s|]; cbn; [|by left].
  destruct (expired now s); [by left|by right].
Qed.

Lemma stable_SM_init w j : fieldAt f (SessionManager.init w) j = fieldAt f w j.
Proof. unfold fieldAt. by rewrite table_init. Qed.

Lemma stable_loadState now w j :
  fieldAt f (loadState now w) j = None ∨ fieldAt f (loadState now w) j = fieldAt f w j.
Proof.
  unfold loadState, SessionManager.getAll.
  match goal with
  | |- context [cleanupSessions now ?w0] =>
      destruct (stable_cleanupSessions now w0 j) as [H|H]; [by left|];
      right; rewrite H; clear H
  end.
  unfold fieldAt. rewrite table_setSessions, table_setGlobalSessions, lookup_fmap.
  rewrite table_init.
  destruct (table w !! j); [|done]. cbn. by rewrite stable_asSet.
Qed.

Lemma stable_startSessionTimer k now w j :
  fieldAt f (snd (startSessionTimer k now w)) j = fieldAt f w j.
Proof.
  unfold startSessionTimer. pose proof (stable_getSession k w j) as Hg.
  destruct (getSession k w) as [[s|] w1]; cbn [fst snd] in *; [|done].
  destruct (negb (isActive s)); [done|].
  unfold updateTimer, handleAutoClose.
  destruct (remainingAt (endTime s) now <=? 0)%Z; cbn [snd]; [|done].
  by rewrite stable_closeSession.
Qed.

Lemma renderComposer_world k w : snd (renderComposer k w) = snd (getSession k w).
Proof.
  unfold renderComposer. destruct (getSession k w) as [[s|] w1]; [|done].
  destruct (negb (isActive s)); [done|]. by destruct (hasSubmitted s w1).
Qed.

Lemma stable_renderView v now w j : fieldAt f (renderView v now w) j = fieldAt f w j.
Proof.
  destruct v as [| | |[c|]|[c|]| |[c|]|[c|]|[c|]]; cbn [renderView renderAt];
    unfold renderLanding, renderTeacherDashboard, renderCreateSession, renderStudentJoin,
      renderReview, renderSubmitted, SessionManager.getAll; cbn [snd];
    rewrite ?renderComposer_world, ?stable_SM_init, ?stable_getSession,
      ?stable_renderStudentLanding; try done.
  unfold renderMonitor. pose proof (stable_getSession c w j) as Hg.
  destruct (getSession c w) as [[s|] w1]; cbn [fst snd] in *; [|done].
  by rewrite stable_startSessionTimer.
Qed.

Lemma stable_init r idn now path params routeNow w j :
  fieldAt f (init r idn now path params routeNow w) j = None ∨
  fieldAt f (init r idn now path params routeNow w) j = fieldAt f w j.
Proof.
  unfold init, setupRouter, SessionManager.getAll. cbn [snd].
  rewrite stable_SM_init, stable_renderView.
  destruct (stable_loadState now
              (setSocketId (SessionManager.init w) (generateSocketId r idn)) j) as [H|H];
    [by left|].
  right. rewrite H. unfold fieldAt.
  change (table (setSocketId (SessionManager.init w) (generateSocketId r idn)))
    with (table (SessionManager.init w)). by rewrite table_init.
Qed.

(** A step leaves the field of a stored session as it is, removes the
    session, or stores a new session under its own code. *)
Lemma stable_step guarded w w' j :
  step guarded w w' →
  fieldAt f w' j = None ∨ fieldAt f w' j = fieldAt f w j ∨
  ∃ s, fieldAt f w' j = Some (f s) ∧ id s = j ∧ isActive s = true ∧ messages s = [].
Proof.
  intros Hstep.
  destruct Hstep as [config fuel rnd k now w s k' w' H | sid w | sid pid w | sid w
                    | sid message e w Hg | sid form e w | sid form e w | sid mid w
                    | sid w | now w | path params now w
                    | r idn now path params rnow w].
  - unfold createSession in H.
    destruct (generateSessionCode fuel rnd k w) as [[[code k1] w1]|] eqn:Hgen; [|done].
    destruct (generateSessionCode_frame _ _ _ _ _ _ _ Hgen) as [_ Hsame].
    simplify_eq.
    match goal with |- context [SessionManager.save code ?d w1] =>
      change (fieldAt f (SessionManager.save code d w1) j = None ∨
              fieldAt f (SessionManager.save code d w1) j = fieldAt f w j ∨
              ∃ s, fieldAt f (SessionManager.save code d w1) j = Some (f s) ∧
                   id s = j ∧ isActive s = true ∧ messages s = []);
      rewrite stable_save; case_decide as Hj;
        [do 2 right; exists d; by subst j|]
    end.
    right. left. by apply stable_asSet_frame.
  - rewrite stable_getSession. auto.
  - rewrite (stable_erase_frame w _ j (SM_addParticipant_table _ _ _ _)). auto.
  - rewrite stable_renderStudentLanding. auto.
  - rewrite stable_addMessage. auto.
  - rewrite stable_composeAndSubmit. auto.
  - rewrite stable_handleSubmitMessage. auto.
  - rewrite stable_markAsRead. auto.
  - rewrite stable_closeSession. auto.
  - destruct (stable_cleanupSessions now w j); auto.
  - unfold setupRouter. rewrite stable_renderView. auto.
  - destruct (stable_init r idn now path params rnow w j); auto.
Qed.

End StableField.

(** Every session is stored under its own code, in every state the store
    operations reach. *)
Lemma stored_under_own_code guarded sid w :
  rtc (step guarded) (initialWorld sid) w →
  ∀ code s, table w !! code = Some s → id s = code.
Proof.
  intros Hreach.
  assert (Hinv : ∀ j c, fieldAt id w j = Some c → c = j).
  { revert w Hreach.
    apply (rtc_ind_r (fun w => ∀ j c, fieldAt id w j = Some c → c = j)).
    - intros j c. unfold fieldAt, table. cbn. by rewrite lookup_empty.
    - intros w0 w1 Hreach Hstep IH j c Hc.
      destruct (stable_step id (fun _ _ => eq_refl) (fun _ _ => eq_refl)
                  (fun _ _ => eq_refl) guarded w0 w1 j Hstep)
        as [H|[H|(s & H & Hid & _)]].
      + congruence.
      + rewrite H in Hc. by apply IH.
      + rewrite H in Hc. by simplify_eq. }
  intros code s Hs. apply Hinv. unfold fieldAt. by rewrite Hs.
Qed.

(** * Further properties *)

(** ** Word count *)

Lemma splitGo_count l : ∀ cur inGap,
  (inGap = true → cur = []) →
  length (filter (fun w : list ascii => (0 <? length w)%nat) (JS.splitGo l cur inGap))
  = (wordRuns (0 <? length cur)%nat l + (if (0 <? length cur)%nat then 1 else 0))%nat.
Proof.
  induction l as [|c l IH]; intros cur inGap Hgap.
  - cbn [JS.splitGo wordRuns]. rewrite filter_cons, length_rev.
    destruct (0 <? length cur)%nat; case_decide; done.
  - cbn [JS.splitGo wordRuns]. destruct (JS.isSpace c) eqn:Hc.
    + destruct inGap.
      * rewrite (Hgap eq_refl). rewrite IH by done.
        cbn [length]. rewrite Nat.ltb_irrefl. lia.
      * rewrite filter_cons, length_rev.
        destruct (0 <? length cur)%nat; case_decide; try done;
          cbn [length]; rewrite IH by done;
          cbn [length]; rewrite Nat.ltb_irrefl; lia.
    + rewrite IH by done. cbn [length].
      replace (0 <? S (length cur))%nat with true by (symmetry; apply Nat.ltb_lt; lia).
      destruct (0 <? length cur)%nat; lia.
Qed.

Lemma wordRuns_dropSpaces l : wordRuns false (JS.dropSpaces l) = wordRuns false l.
Proof.
  induction l as [|c l IH]; [done|]. cbn [JS.dropSpaces wordRuns].
  destruct (JS.isSpace c) eqn:Hc; [done|]. cbn [wordRuns]. by rewrite Hc.
Qed.

Lemma wordRuns_spaces b sp :
  Forall (fun c => JS.isSpace c = true) sp → wordRuns b sp = 0%nat.
Proof.
  intros Hsp. revert b. induction Hsp as [|c sp Hc _ IH]; intros b; [done|].
  cbn [wordRuns]. by rewrite Hc.
Qed.

Lemma wordRuns_spaces_r b l sp :
  Forall (fun c => JS.isSpace c = true) sp → wordRuns b (l ++ sp) = wordRuns b l.
Proof.
  intros Hsp. revert b. induction l as [|c l IH]; intros b.
  - cbn [app wordRuns]. by apply wordRuns_spaces.
  - cbn [app wordRuns]. destruct (JS.isSpace c); by rewrite IH.
Qed.

Lemma dropSpaces_split l :
  ∃ sp, Forall (fun c => JS.isSpace c = true) sp ∧ l = (sp ++ JS.dropSpaces l)%list.
Proof.
  induction l as [|c l (sp & Hsp & IH)]; [by exists []|].
  cbn [JS.dropSpaces]. destruct (JS.isSpace c) eqn:Hc.
  - exists (c :: sp). split; [by constructor|]. cbn. by rewrite <- IH.
  - by exists [].
Qed.

Lemma wordRuns_trimChars l : wordRuns false (JS.trimChars l) = wordRuns false l.
Proof.
  unfold JS.trimChars. rewrite <- (wordRuns_dropSpaces l).
  remember (JS.dropSpaces l) as d eqn:Ed. clear Ed.
  destruct (dropSpaces_split (rev d)) as (sp & Hsp & Heq).
  remember (JS.dropSpaces (rev d)) as t eqn:Et. clear Et.
  assert (Hd : d = (rev t ++ rev sp)%list)
    by by rewrite <- rev_app_distr, <- Heq, rev_involutive.
  rewrite Hd, wordRuns_spaces_r; [done|].
  apply Forall_forall. intros c Hc%list_elem_of_In%in_rev%list_elem_of_In.
  by apply (proj1 (Forall_forall _ _) Hsp).
Qed.

Lemma countWords_wordRuns text : countWords text = wordRuns false (JS.chars text).
Proof.
  unfold countWords, JS.splitSpaces.
  rewrite splitGo_count by done. cbn [length]. rewrite Nat.ltb_irrefl, Nat.add_0_r.
  apply wordRuns_trimChars.
Qed.

Lemma wordRuns_zero l :
  wordRuns false l = 0%nat ↔ Forall (fun c => JS.isSpace c = true) l.
Proof.
  split.
  - induction l as [|c l IH]; [constructor|]. cbn [wordRuns].
    destruct (JS.isSpace c) eqn:Hc; [|lia]. intros H. constructor; auto.
  - apply wordRuns_spaces.
Qed.

(** X1.  [countWords] counts the maximal runs of characters that are not
    white space: trimming, splitting at white space and dropping the empty
    pieces comes to the same number.  So the count is zero exactly for the
    blank texts, the empty text and the texts of white space alone. *)
Theorem countWords_runs text :
  countWords text = wordRuns false (JS.chars text) ∧
  (countWords text = 0%nat ↔ isBlank text).
Proof.
  split; [apply countWords_wordRuns|].
  rewrite countWords_wordRuns. apply wordRuns_zero.
Qed.

Lemma chars_app a b : JS.chars (a +:+ b) = (JS.chars a ++ JS.chars b)%list.
Proof.
  unfold JS.chars. induction a as [|c a IH]; [done|].
  change (c :: list_ascii_of_string (a +:+ b)
          = c :: (list_ascii_of_string a ++ list_ascii_of_string b)%list).
  by rewrite IH.
Qed.

Lemma wordRuns_app_space b l r c :
  JS.isSpace c = true →
  wordRuns b (l ++ c :: r) = (wordRuns b l + wordRuns false r)%nat.
Proof.
  intros Hc. revert b. induction l as [|x l IH]; intros b.
  - cbn [app wordRuns]. by rewrite Hc.
  - cbn [app wordRuns]. destruct (JS.isSpace x); rewrite IH; lia.
Qed.

(** X2.  Word counts add up across white space: two texts joined by a
    white-space character have the words of both; and leading and trailing
    white space does not count, so [trim] keeps the count. *)
Theorem countWords_join a b c :
  JS.isSpace c = true →
  countWords (a +:+ String c b) = (countWords a + countWords b)%nat ∧
  countWords (JS.trim a) = countWords a.
Proof.
  intros Hc. rewrite !countWords_wordRuns. split.
  - rewrite chars_app. change (JS.chars (String c b)) with (c :: JS.chars b).
    by apply wordRuns_app_space.
  - unfold JS.trim, JS.chars, JS.str. rewrite list_ascii_of_string_of_list_ascii.
    apply wordRuns_trimChars.
Qed.

Lemma countWords_join_witness :
  JS.isSpace " " = true ∧
  countWords ("one two" +:+ String " " "three") = (countWords "one two" + countWords "three")%nat.
Proof.
  assert (H : JS.isSpace " " = true) by (vm_compute; reflexivity).
  split; [exact H|]. exact (proj1 (countWords_join "one two" "three" " " H)).
Defined.

(** ** Time display and the session timer *)

Lemma padStart_two_digits n :
  0 <= n < 100 → padStart 2 "0" (JS.showInt n) = JS.str (JS.pad2 n).
Proof.
  intros Hn.
  assert (Hk : ∃ k : nat, n = Z.of_nat k ∧ (k < 100)%nat)
    by (exists (Z.to_nat n); lia).
  destruct Hk as (k & -> & Hk).
  do 100 (destruct k as [|k]; [vm_compute; reflexivity|]). lia.
Qed.

(** X3.  For less than 100 minutes [formatTime] shows [MM:SS]: two digits
    of minutes, a colon, two digits of seconds below 60; so the display has
    five characters and tells the number of seconds. *)
Theorem formatTime_shape seconds :
  0 <= seconds < 6000 →
  formatTime seconds
  = JS.str [JS.digitChar (seconds / 600); JS.digitChar (seconds / 60); ":"%char;
            JS.digitChar (seconds mod 60 / 10); JS.digitChar (seconds mod 60)] ∧
  String.length (formatTime seconds) = 5%nat ∧
  0 <= seconds mod 60 < 60 ∧
  seconds = 60 * (seconds / 60) + seconds mod 60.
Proof.
  intros Hs.
  assert (Hm : 0 <= seconds / 60 < 100) by (Z.div_mod_to_equations; lia).
  assert (Hr : Z.rem seconds 60 = seconds mod 60) by (apply Z.rem_mod_nonneg; lia).
  assert (Hsec : 0 <= seconds mod 60 < 60) by (apply Z.mod_pos_bound; lia).
  assert (Hfmt : formatTime seconds
    = JS.str [JS.digitChar (seconds / 600); JS.digitChar (seconds / 60); ":"%char;
              JS.digitChar (seconds mod 60 / 10); JS.digitChar (seconds mod 60)]).
  { unfold formatTime. rewrite Hr, !padStart_two_digits by lia.
    unfold JS.pad2. rewrite Z.div_div by lia. reflexivity. }
  split; [done|]. split; [by rewrite Hfmt|]. split; [done|].
  Z.div_mod_to_equations; lia.
Qed.

Lemma formatTime_shape_witness :
  0 <= 125 < 6000 ∧ formatTime 125 = JS.str [JS.digitChar (125 / 600); JS.digitChar (125 / 60); ":"%char;
            JS.digitChar (125 mod 60 / 10); JS.digitChar (125 mod 60)].
Proof.
  assert (H : 0 <= 125 < 6000) by lia.
  split; [exact H|]. exact (proj1 (formatTime_shape 125 H)).
Defined.

Example formatTime_125 : formatTime 125 = "02:05".
Proof. vm_compute. reflexivity. Qed.

Lemma remainingAt_zero endT now : remainingAt endT now <= 0 ↔ endT - now < 1000.
Proof. unfold remainingAt. split; intros H; Z.div_mod_to_equations; lia. Qed.

Lemma closeSession_found w k s :
  table w !! k = Some s →
  closeSession k w
  = dispatchEvent (SessionClosed k)
      (SessionManager.save k (setIsActive (SessionManager.asSet s) false)
         (snd (getSession k w))).
Proof. intros Hk. unfold closeSession. by rewrite (getSession_found _ _ _ Hk). Qed.

(** X4.  For an active session the timer closes the session exactly when
    less than one second is left to its end time, [createdAt + timeout *
    1000]: then the session is inactive afterwards and [sessionClosed] is the
    last event, and no further run is scheduled; otherwise the state is the
    state of the lookup and the next run is scheduled.  A session made with
    a timeout of zero or less is closed by the first run. *)
Theorem startSessionTimer_closes w sessionId s now :
  table w !! sessionId = Some s →
  isActive s = true →
  let r := startSessionTimer sessionId now w in
  (endTime s - now < 1000 →
     (∃ shown, fst r = Some (shown, false)) ∧
     (isActive <$> (table (snd r) !! sessionId)) = Some false ∧
     last (dispatched (snd r)) = Some (SessionClosed sessionId)) ∧
  (1000 <= endTime s - now →
     fst r = Some (formatTime ((endTime s - now) / 1000),
                   timerClassAt ((endTime s - now) / 1000), true) ∧
     snd r = snd (getSession sessionId w)) ∧
  (timeout s <= 0 → createdAt s <= now →
     (isActive <$> (table (snd r) !! sessionId)) = Some false).
Proof.
  intros Hk Hact r. subst r. unfold startSessionTimer.
  rewrite (getSession_found _ _ _ Hk), isActive_asSet, Hact. cbn [negb].
  unfold updateTimer, handleAutoClose.
  assert (Hend : endTime (SessionManager.asSet s) = endTime s)
    by by destruct s as [? ? ? ? ? ? ? ? [l|l] ? ?].
  rewrite Hend.
  set (w1 := setSessions _ _).
  assert (Hk1 : table w1 !! sessionId = Some (SessionManager.asSet s))
    by (subst w1; by rewrite table_setSessions, table_setGlobalSessions, lookup_insert_eq).
  assert (Hclose : endTime s - now < 1000 →
    (remainingAt (endTime s) now <=? 0)%Z = true) by (intros; by apply Z.leb_le, remainingAt_zero).
  assert (Hclosed : (isActive <$> (table (closeSession sessionId w1) !! sessionId)) = Some false).
  { rewrite (closeSession_found _ _ _ Hk1), table_dispatchEvent, save_table, decide_True by done.
    cbn. by destruct s as [? ? ? ? ? ? ? ? [l|l] ? ?]. }
  split_and!.
  - intros Hlt. rewrite (Hclose Hlt). cbn [fst snd]. split_and!; [eauto|done|].
    rewrite (closeSession_found _ _ _ Hk1). cbn [dispatched dispatchEvent].
    apply last_snoc.
  - intros Hge.
    assert (Hpos : (remainingAt (endTime s) now <=? 0)%Z = false).
    { apply Z.leb_gt. unfold remainingAt. Z.div_mod_to_equations; lia. }
    assert (Hrem : remainingAt (endTime s) now = (endTime s - now) / 1000).
    { unfold remainingAt. Z.div_mod_to_equations; lia. }
    rewrite Hpos, Hrem. done.
  - intros Hto Hnow. rewrite Hclose by (unfold endTime; lia). done.
Qed.

Lemma startSessionTimer_closes_witness :
  table Sample.created !! "ABCDEFGH" = Some Sample.session0 ∧
  isActive Sample.session0 = true ∧
  (isActive <$> (table (snd (startSessionTimer "ABCDEFGH" 120500 Sample.created))
                   !! "ABCDEFGH")) = Some false.
Proof.
  assert (H1 : table Sample.created !! "ABCDEFGH" = Some Sample.session0)
    by (vm_compute; reflexivity).
  assert (H2 : isActive Sample.session0 = true) by reflexivity.
  split_and!; [exact H1 | exact H2 |].
  refine (proj1 (proj2 (proj1 (startSessionTimer_closes _ _ _ 120500 H1 H2) _))).
  vm_compute. reflexivity.
Defined.

(** ** The participants as a set *)

Lemma elem_of_foldl_setAdd l : ∀ acc x,
  x ∈ foldl setAdd acc l ↔ x ∈ acc ∨ x ∈ l.
Proof.
  induction l as [|y l IH]; intros acc x; cbn [foldl].
  - rewrite elem_of_nil. tauto.
  - rewrite IH, elem_of_cons. unfold setAdd. case_decide as Hy.
    + split; [tauto|]. intros [?|[->|?]]; auto.
    + rewrite elem_of_app, list_elem_of_singleton. tauto.
Qed.

Lemma elem_of_newSet l x : x ∈ newSet l ↔ x ∈ l.
Proof. unfold newSet. rewrite elem_of_foldl_setAdd, elem_of_nil. tauto. Qed.

Lemma NoDup_foldl_setAdd l : ∀ acc, NoDup acc → NoDup (foldl setAdd acc l).
Proof.
  induction l as [|y l IH]; intros acc Hacc; [done|]. cbn [foldl]. apply IH.
  unfold setAdd. case_decide as Hy; [done|].
  apply NoDup_app. split_and!; [done| |apply NoDup_singleton].
  intros x Hx ->%list_elem_of_singleton. done.
Qed.

Lemma NoDup_newSet l : NoDup (newSet l).
Proof. apply NoDup_foldl_setAdd. constructor. Qed.

Lemma foldl_setAdd_NoDup l : ∀ acc,
  NoDup (acc ++ l) → foldl setAdd acc l = (acc ++ l)%list.
Proof.
  induction l as [|y l IH]; intros acc Hnd; cbn [foldl].
  - by rewrite app_nil_r.
  - assert (Hy : y ∉ acc).
    { apply NoDup_app in Hnd as (_ & Hdisj & _). intros Hin.
      apply (Hdisj y Hin). by left. }
    unfold setAdd. rewrite decide_False by done.
    rewrite IH; rewrite <- app_assoc; done.
Qed.

Lemma newSet_NoDup l : NoDup l → newSet l = l.
Proof. intros H. unfold newSet. by rewrite foldl_setAdd_NoDup. Qed.

Lemma length_foldl_setAdd l : ∀ acc,
  (length (foldl setAdd acc l) <= length acc + length l)%nat.
Proof.
  induction l as [|y l IH]; intros acc; cbn [foldl length]; [lia|].
  etrans; [apply IH|]. unfold setAdd. case_decide; rewrite ?length_app; cbn; lia.
Qed.

Lemma length_newSet l : (length (newSet l) <= length l)%nat.
Proof. unfold newSet. etrans; [apply length_foldl_setAdd|]. cbn. lia. Qed.

(** The members after a [save] followed by a lookup are the members saved. *)
Lemma elem_of_members_sessionToSave d x :
  x ∈ members (participants (SessionManager.sessionToSave d))
  ↔ x ∈ members (participants d).
Proof.
  destruct d as [? ? ? ? ? ? ? ? [l|l] ? ?]; cbn; [done|]. apply elem_of_newSet.
Qed.

Lemma erase_fields s s' :
  eraseParticipants s' = eraseParticipants s →
  id s' = id s ∧ mode s' = mode s ∧ question s' = question s ∧
  optionA s' = optionA s ∧ optionB s' = optionB s ∧ timeout s' = timeout s ∧
  createdAt s' = createdAt s ∧ isActive s' = isActive s ∧ messages s' = messages s.
Proof. intros [=]. by split_and!. Qed.

Lemma members_setMessages s ms :
  members (participants (setMessages s ms)) = members (participants s).
Proof. reflexivity. Qed.

Lemma getSession_asSet w k j :
  SessionManager.asSet <$> (table (snd (getSession k w)) !! j)
  = SessionManager.asSet <$> (table w !! j).
Proof.
  rewrite getSession_table. case_decide; [|done].
  destruct (table w !! j); [|done]. cbn. by rewrite asSet_idem.
Qed.

(** ** Closing a session *)

Lemma dispatched_save k d w :
  dispatched (SessionManager.save k d w) = (dispatched w ++ [SessionsUpdated])%list.
Proof. unfold SessionManager.save, SessionManager.init. by destruct (globalSessions w). Qed.

Lemma dispatched_init w : dispatched (SessionManager.init w) = dispatched w.
Proof. unfold SessionManager.init. by destruct (globalSessions w). Qed.

Lemma getSession_dispatched k w : dispatched (snd (getSession k w)) = dispatched w.
Proof. apply getSession_others. Qed.

Lemma closeSession_stored w sessionId s :
  table w !! sessionId = Some s →
  let w' := closeSession sessionId w in
  ∃ s', table w' !! sessionId = Some s' ∧
        isActive s' = false ∧
        eraseParticipants s' = eraseParticipants (setIsActive s false) ∧
        (∀ x, x ∈ members (participants s') ↔ x ∈ members (participants s)) ∧
        dispatched w' = (dispatched w ++ [SessionsUpdated; SessionClosed sessionId])%list.
Proof.
  intros Hk w'. subst w'. rewrite (closeSession_found _ _ _ Hk).
  eexists. rewrite table_dispatchEvent, save_table, decide_True by done.
  split; [reflexivity|]. split_and!.
  - by destruct s as [? ? ? ? ? ? ? ? [l|l] ? ?].
  - by destruct s as [? ? ? ? ? ? ? ? [l|l] ? ?].
  - intros x. rewrite elem_of_members_sessionToSave.
    by destruct s as [? ? ? ? ? ? ? ? [l|l] ? ?].
  - cbn [dispatched dispatchEvent]. rewrite dispatched_save, getSession_dispatched.
    by rewrite <- app_assoc.
Qed.

Lemma closeSession_absent w sessionId :
  table w !! sessionId = None →
  table (closeSession sessionId w) = table w ∧
  dispatched (closeSession sessionId w) = dispatched w.
Proof.
  intros Hk. unfold closeSession. rewrite (getSession_missing _ _ Hk).
  by rewrite table_init, dispatched_init.
Qed.

Lemma closeSession_others w sessionId k :
  k ≠ sessionId → table (closeSession sessionId w) !! k = table w !! k.
Proof.
  intros Hne. unfold closeSession.
  pose proof (getSession_table w sessionId k) as Ht. rewrite decide_False in Ht by done.
  destruct (getSession sessionId w) as [[s|] w1]; cbn [fst snd] in *; [|done].
  by rewrite table_dispatchEvent, save_table, decide_False.
Qed.

(** X5.  [closeSession] on a stored session leaves it inactive and keeps
    its other fields, its messages and its members; it leaves every other
    session as it is and dispatches [sessionsUpdated] and then
    [sessionClosed].  For a code that is not stored and is none of the
    names the store inherits it dispatches nothing and stores nothing. *)
Theorem closeSession_effect w sessionId :
  let w' := closeSession sessionId w in
  (∀ s, table w !! sessionId = Some s →
     ∃ s', table w' !! sessionId = Some s' ∧
           isActive s' = false ∧
           eraseParticipants s' = eraseParticipants (setIsActive s false) ∧
           (∀ x, x ∈ members (participants s') ↔ x ∈ members (participants s)) ∧
           dispatched w' = (dispatched w ++ [SessionsUpdated; SessionClosed sessionId])%list) ∧
  (table w !! sessionId = None → sessionId ∉ objectPrototypeNames →
     table w' = table w ∧ dispatched w' = dispatched w) ∧
  (∀ k, k ≠ sessionId → table w' !! k = table w !! k).
Proof.
  intros w'. subst w'. split; [|split].
  - intros s Hk. by apply closeSession_stored.
  - intros Hk _. by apply closeSession_absent.
  - intros k Hne. by apply closeSession_others.
Qed.

(** ** Marking a message as read *)

Lemma setIsRead_idem m : setIsRead (setIsRead m true) true = setIsRead m true.
Proof. reflexivity. Qed.

Lemma markFirst_Forall2 mid ms : ∀ ms',
  markFirst mid ms = Some ms' →
  Forall2 (fun m m' => m' = m ∨ (msgId m = mid ∧ m' = setIsRead m true)) ms ms'.
Proof.
  induction ms as [|m ms IH]; intros ms' H; [done|]. cbn in H.
  destruct (String.eqb_spec (msgId m) mid) as [Heq|Hne].
  - simplify_eq. constructor; [by right|]. apply Forall2_same_length_lookup_2; [done|].
    intros i x y Hx Hy. left. congruence.
  - destruct (markFirst mid ms) as [r|]; simplify_eq/=.
    constructor; [by left|by apply IH].
Qed.

Lemma markFirst_read mid ms ms' :
  markFirst mid ms = Some ms' → ∃ m', m' ∈ ms' ∧ msgId m' = mid ∧ isRead m' = true.
Proof.
  revert ms'. induction ms as [|m ms IH]; intros ms' H; [done|]. cbn in H.
  destruct (String.eqb_spec (msgId m) mid) as [Heq|Hne].
  - simplify_eq. exists (setIsRead m true). split_and!; [by left|done|done].
  - destruct (markFirst mid ms) as [r|]; simplify_eq/=.
    destruct (IH r eq_refl) as (m' & Hin & Hid & Hread).
    exists m'. split_and!; [by right|done|done].
Qed.

Lemma markFirst_None mid ms :
  markFirst mid ms = None ↔ ∀ m, m ∈ ms → msgId m ≠ mid.
Proof.
  induction ms as [|m ms IH]; cbn.
  - split; [|done]. by intros _ m ?%elem_of_nil.
  - destruct (String.eqb_spec (msgId m) mid) as [Heq|Hne].
    + split; [done|]. intros H. destruct (H m); [by left|done].
    + destruct (markFirst mid ms) as [r|]; cbn.
      * split; [done|]. intros H.
        assert (Hr : Some r = None); [|done].
        apply IH. intros m' Hm'. apply H. by right.
      * split; [|done]. intros _ m' [->|Hm']%elem_of_cons; [done|].
        by apply (proj1 IH).
Qed.

Lemma markFirst_idem mid ms ms' :
  markFirst mid ms = Some ms' → markFirst mid ms' = Some ms'.
Proof.
  revert ms'. induction ms as [|m ms IH]; intros ms' H; [done|]. cbn in H.
  destruct (String.eqb_spec (msgId m) mid) as [Heq|Hne].
  - simplify_eq. cbn. by rewrite String.eqb_refl.
  - destruct (markFirst mid ms) as [r|]; simplify_eq/=.
    destruct (String.eqb_spec (msgId m) mid); [done|]. by rewrite (IH r).
Qed.

Lemma fmap_Some_eq {A B : Type} (f g : A → B) (a b : A) :
  f <$> Some a = g <$> Some b → f a = g b.
Proof. by intros [=]. Qed.

(** The table after [markAsRead], up to the participants. *)
Lemma markAsRead_table k mid w j :
  eraseParticipants <$> (table (markAsRead k mid w) !! j)
  = if decide (j = k)
    then (fun s => eraseParticipants
                     (setMessages s (default (messages s) (markFirst mid (messages s)))))
         <$> (table w !! j)
    else eraseParticipants <$> (table w !! j).
Proof.
  unfold markAsRead.
  pose proof (getSession_erase w k j) as Hg.
  pose proof (getSession_result w k) as Hr.
  destruct (getSession k w) as [[s|] w1]; cbn [fst snd] in *.
  - assert (Hk : ∃ s0, table w !! k = Some s0 ∧ s = SessionManager.asSet s0).
    { destruct (table w !! k) as [s0|]; simplify_eq/=. eauto. }
    destruct Hk as (s0 & Hk & ->). rewrite messages_asSet.
    destruct (markFirst mid (messages s0)) as [ms|] eqn:Hm.
    + rewrite save_table. case_decide as Hj; [|done]. subst j. rewrite Hk. cbn.
      by rewrite Hm, erase_sessionToSave, erase_setMessages_asSet.
    + rewrite Hg. case_decide as Hj; [|done]. subst j. rewrite Hk. cbn.
      rewrite Hm. cbn. by destruct s0.
  - rewrite Hg. case_decide as Hj; [|done]. subst j.
    by destruct (table w !! k).
Qed.

Lemma markAsRead_dispatched k mid w :
  dispatched (markAsRead k mid w)
  = match table w !! k ≫= (fun s => markFirst mid (messages s)) with
    | Some _ => (dispatched w ++ [SessionsUpdated])%list
    | None => dispatched w
    end.
Proof.
  unfold markAsRead.
  pose proof (getSession_dispatched k w) as Hd.
  pose proof (getSession_result w k) as Hr.
  destruct (getSession k w) as [[s|] w1]; cbn [fst snd] in *.
  - destruct (table w !! k) as [s0|]; simplify_eq/=. rewrite messages_asSet.
    destruct (markFirst mid (messages s0)); [|done]. by rewrite dispatched_save, Hd.
  - by destruct (table w !! k).
Qed.

Lemma markAsRead_others k mid w j :
  j ≠ k → table (markAsRead k mid w) !! j = table w !! j.
Proof.
  intros Hne. unfold markAsRead.
  pose proof (getSession_table w k j) as Ht. rewrite decide_False in Ht by done.
  destruct (getSession k w) as [[s|] w1]; cbn [fst snd] in *; [|done].
  destruct (markFirst mid (messages s)); [|done].
  by rewrite save_table, decide_False.
Qed.

(** The session [markAsRead] leaves under the code. *)
Lemma markAsRead_stored w k mid s :
  table w !! k = Some s →
  table (markAsRead k mid w) !! k
  = Some (match markFirst mid (messages s) with
          | Some ms => SessionManager.sessionToSave (setMessages (SessionManager.asSet s) ms)
          | None => SessionManager.asSet s
          end).
Proof.
  intros Hk. unfold markAsRead. rewrite (getSession_found _ _ _ Hk), messages_asSet.
  destruct (markFirst mid (messages s)) as [ms|].
  - by rewrite save_table, decide_True.
  - cbn [snd]. by rewrite table_setSessions, table_setGlobalSessions, lookup_insert_eq.
Qed.

Lemma markAsRead_kept w k mid s s' :
  table w !! k = Some s →
  table (markAsRead k mid w) !! k = Some s' →
  eraseParticipants s'
  = eraseParticipants (setMessages s (default (messages s) (markFirst mid (messages s)))) ∧
  ∀ x, x ∈ members (participants s') ↔ x ∈ members (participants s).
Proof.
  intros Hk Hs'. rewrite (markAsRead_stored _ _ _ _ Hk) in Hs'. injection Hs' as <-.
  destruct (markFirst mid (messages s)) as [ms|]; cbn [default from_option].
  - split; [by rewrite erase_sessionToSave, erase_setMessages_asSet|].
    intros x. by rewrite elem_of_members_sessionToSave, members_setMessages, members_asSet.
  - split; [rewrite erase_asSet; by destruct s|]. intros x. by rewrite members_asSet.
Qed.

(** X6.  [markAsRead] sets the read flag of the first message with the
    identifier and changes nothing else: the messages of the session keep
    their number and order, every other message, every other field and the
    members are as before, every other session is as it is, and
    [sessionsUpdated] is dispatched once.  When the session or the message
    is not there, nothing is dispatched and every stored session keeps its
    fields, messages and members.  Marking again leaves every stored
    session with its fields, messages and members. *)
Theorem markAsRead_effect w sessionId messageId :
  let w' := markAsRead sessionId messageId w in
  (∀ s ms, table w !! sessionId = Some s →
     markFirst messageId (messages s) = Some ms →
     ∃ s', table w' !! sessionId = Some s' ∧
           eraseParticipants s' = eraseParticipants (setMessages s ms) ∧
           (∀ x, x ∈ members (participants s') ↔ x ∈ members (participants s)) ∧
           Forall2 (fun m m' => m' = m ∨ (msgId m = messageId ∧ m' = setIsRead m true))
                   (messages s) (messages s') ∧
           (∃ m', m' ∈ messages s' ∧ msgId m' = messageId ∧ isRead m' = true) ∧
           dispatched w' = (dispatched w ++ [SessionsUpdated])%list) ∧
  (table w !! sessionId ≫= (fun s => markFirst messageId (messages s)) = None →
     dispatched w' = dispatched w ∧
     ∀ k, SessionManager.asSet <$> (table w' !! k) = SessionManager.asSet <$> (table w !! k)) ∧
  (∀ k, k ≠ sessionId → table w' !! k = table w !! k) ∧
  (∀ k, k ≠ sessionId →
        table (markAsRead sessionId messageId w') !! k = table w' !! k) ∧
  (∀ s', table w' !! sessionId = Some s' →
     ∃ s'', table (markAsRead sessionId messageId w') !! sessionId = Some s'' ∧
            eraseParticipants s'' = eraseParticipants s' ∧
            ∀ x, x ∈ members (participants s'') ↔ x ∈ members (participants s')).
Proof.
  intros w'. subst w'. split; [|split; [|split; [|split]]].
  - intros s ms Hk Hm.
    pose proof (markAsRead_stored w sessionId messageId s Hk) as Hs'.
    rewrite Hm in Hs'.
    destruct (markAsRead_kept w sessionId messageId s _ Hk Hs') as [He Hmem].
    rewrite Hm in He. change (default (messages s) (Some ms)) with ms in He.
    eexists. split; [exact Hs'|]. split; [exact He|]. split; [exact Hmem|].
    assert (Hms : messages (SessionManager.sessionToSave
                              (setMessages (SessionManager.asSet s) ms)) = ms).
    { apply erase_fields in He. by destruct He as (_&_&_&_&_&_&_&_&He). }
    rewrite Hms. split; [by apply markFirst_Forall2|].
    split; [by eapply markFirst_read|].
    by rewrite markAsRead_dispatched, Hk; cbn; rewrite Hm.
  - intros Hnone. split; [by rewrite markAsRead_dispatched, Hnone|].
    intros k.
    assert (Hw : markAsRead sessionId messageId w = snd (getSession sessionId w)).
    { unfold markAsRead. pose proof (getSession_result w sessionId) as Hr.
      destruct (getSession sessionId w) as [[s|] w1]; cbn [fst snd] in *; [|done].
      destruct (table w !! sessionId) as [s0|]; [|done]. cbn in Hr, Hnone.
      injection Hr as ->. rewrite messages_asSet, Hnone. done. }
    rewrite Hw. apply getSession_asSet.
  - intros k Hne. by apply markAsRead_others.
  - intros k Hne. by apply markAsRead_others.
  - intros s' Hs'.
    pose proof (markAsRead_stored _ sessionId messageId s' Hs') as Hs''.
    destruct (markAsRead_kept _ sessionId messageId s' _ Hs' Hs'') as [He Hmem].
    eexists. split; [exact Hs''|]. split; [|exact Hmem].
    rewrite He.
    assert (Hsame : default (messages s') (markFirst messageId (messages s')) = messages s').
    { destruct (table w !! sessionId) as [s|] eqn:Hk.
      - destruct (markAsRead_kept w sessionId messageId s s' Hk Hs') as [He0 _].
        apply erase_fields in He0. destruct He0 as (_&_&_&_&_&_&_&_&He0).
        cbn [messages setMessages] in He0.
        destruct (markFirst messageId (messages s)) as [ms|] eqn:Hm.
        + change (default (messages s) (Some ms)) with ms in He0.
          by rewrite He0, (markFirst_idem _ _ _ Hm).
        + change (default (messages s) None) with (messages s) in He0.
          by rewrite He0, Hm.
      - pose proof (markAsRead_table sessionId messageId w sessionId) as Ht.
        rewrite decide_True, Hk, Hs' in Ht by done. done. }
    rewrite Hsame. by destruct s'.
Qed.

(** ** Joining and adding a message *)

Lemma SM_addParticipant_found k pid w s :
  table w !! k = Some s →
  ∃ s', table (snd (SessionManager.addParticipant k pid w)) !! k = Some s' ∧
        fst (SessionManager.addParticipant k pid w) = true ∧
        eraseParticipants s' = eraseParticipants s ∧
        (∀ x, x ∈ members (participants s') ↔ x = pid ∨ x ∈ members (participants s)) ∧
        dispatched (snd (SessionManager.addParticipant k pid w))
        = (dispatched w
           ++ if decide (pid ∈ members (participants s)) then [] else [SessionsUpdated])%list.
Proof.
  intros Hk. unfold SessionManager.addParticipant.
  rewrite (get_found _ _ _ Hk), members_asSet.
  destruct (decide (pid ∈ members (participants s))) as [Hin|Hnot]; cbn [fst snd].
  - exists (SessionManager.asSet s).
    rewrite table_setGlobalSessions, lookup_insert_eq, erase_asSet, members_asSet.
    split_and!; try done.
    all: try (by rewrite app_nil_r).
    intros x. split; [auto|]. by intros [->|?].
  - eexists. rewrite save_table, decide_True by done. split; [reflexivity|].
    split_and!; try done.
    all: try (by rewrite erase_sessionToSave, erase_setParticipants, erase_asSet).
    all: try (rewrite dispatched_save; by destruct (get_others w k) as (_ & -> & _)).
    intros x. rewrite elem_of_members_sessionToSave. cbn [members participants setParticipants].
    rewrite elem_of_app, list_elem_of_singleton. tauto.
Qed.

Lemma SM_addParticipant_missing k pid w :
  table w !! k = None →
  SessionManager.addParticipant k pid w = (false, SessionManager.init w).
Proof. intros Hk. unfold SessionManager.addParticipant. by rewrite (get_missing _ _ Hk). Qed.

Lemma SM_addParticipant_others k pid w j :
  j ≠ k → table (snd (SessionManager.addParticipant k pid w)) !! j = table w !! j.
Proof.
  intros Hne. unfold SessionManager.addParticipant.
  pose proof (get_table w k j) as Ht. rewrite decide_False in Ht by done.
  destruct (SessionManager.get k w) as [[s|] w1]; cbn [fst snd] in *; [|done].
  destruct (decide (pid ∈ _)); cbn [snd]; [done|].
  by rewrite save_table, decide_False.
Qed.

(** X7.  On a stored session [SessionManager.addParticipant] answers
    [true]; the identifier is a member afterwards, the members are
    otherwise those before, every other field and every other session is
    untouched, and [sessionsUpdated] is dispatched only when the identifier
    is new.  Adding the same identifier again dispatches nothing and changes
    no stored session: the operation is idempotent.  For a session id that
    is none of the names the store inherits, it answers [true] exactly
    when the session is stored, and otherwise dispatches and stores
    nothing. *)
Theorem addParticipant_effect w sessionId pid :
  let r := SessionManager.addParticipant sessionId pid w in
  (sessionId ∉ objectPrototypeNames →
     (fst r = true ↔ is_Some (table w !! sessionId))) ∧
  (∀ s, table w !! sessionId = Some s →
     fst r = true ∧
     ∃ s', table (snd r) !! sessionId = Some s' ∧
           eraseParticipants s' = eraseParticipants s ∧
           (∀ x, x ∈ members (participants s') ↔ x = pid ∨ x ∈ members (participants s)) ∧
           dispatched (snd r)
           = (dispatched w
              ++ if decide (pid ∈ members (participants s)) then [] else [SessionsUpdated])%list) ∧
  (∀ k, k ≠ sessionId → table (snd r) !! k = table w !! k) ∧
  (table w !! sessionId = None → sessionId ∉ objectPrototypeNames →
     dispatched (snd r) = dispatched w ∧ table (snd r) = table w) ∧
  (is_Some (table w !! sessionId) →
   dispatched (snd (SessionManager.addParticipant sessionId pid (snd r))) = dispatched (snd r) ∧
   ∀ k, SessionManager.asSet <$> (table (snd (SessionManager.addParticipant sessionId pid (snd r))) !! k)
        = SessionManager.asSet <$> (table (snd r) !! k)).
Proof.
  intros r. subst r. split; [|split; [|split; [|split]]].
  - intros _. destruct (table w !! sessionId) as [s|] eqn:Hk.
    + destruct (SM_addParticipant_found _ pid _ _ Hk) as (s' & _ & Hr & _).
      split; [eauto|done].
    + rewrite (SM_addParticipant_missing _ _ _ Hk). cbn. split; [done|].
      by intros [? ?].
  - intros s Hk.
    destruct (SM_addParticipant_found _ pid _ _ Hk) as (s' & Hs' & Hr & He & Hm & Hd).
    split; [done|]. by exists s'.
  - intros k Hne. by apply SM_addParticipant_others.
  - intros Hk _. rewrite (SM_addParticipant_missing _ _ _ Hk). cbn.
    by rewrite dispatched_init, table_init.
  - intros [s Hk].
    destruct (SM_addParticipant_found _ pid _ _ Hk) as (s' & Hs' & _ & He & Hm & Hd).
    set (w1 := snd (SessionManager.addParticipant sessionId pid w)) in *.
    assert (Hin : pid ∈ members (participants s')) by (apply Hm; by left).
    unfold SessionManager.addParticipant.
    pose proof (get_asSet w1 sessionId) as Hsame.
    rewrite (get_found _ _ _ Hs'), members_asSet in *.
    rewrite decide_True by done. cbn [snd] in *.
    split; [done|]. intros k. apply Hsame.
Qed.

Lemma generateSessionCode_dispatched fuel rnd : ∀ k w code k' w1,
  generateSessionCode fuel rnd k w = Some (code, k', w1) →
  dispatched w1 = dispatched w ∧ socketId w1 = socketId w.
Proof.
  induction fuel as [|fuel IH]; intros k w code k' w1 H; [done|].
  cbn [generateSessionCode] in H.
  pose proof (get_others w (candidate rnd k)) as (Hs & Hd & _).
  destruct (SessionManager.get (candidate rnd k) w) as [[s|] w0]; cbn [fst snd] in *.
  - destruct (IH _ _ _ _ _ H) as [? ?]. split; congruence.
  - by simplify_eq.
Qed.

(** X8.  A session [createSession] returns is stored under its own code,
    which was free before, and can be looked up at once: the lookup of its
    code returns the very session.  The session is active, has no messages
    and no participants, and carries the time of creation and the mode,
    timeout, question and options of the configuration, a question or an
    option being missing when the configuration gives none or an empty
    text; [sessionsUpdated] and then [sessionCreated] are dispatched, and
    the sessions stored before keep their fields, messages and members. *)
Theorem createSession_lookup config fuel rnd k now w s k' w' :
  createSession config fuel rnd k now w = Some (s, k', w') →
  table w !! id s = None ∧
  fst (getSession (id s) w') = Some s ∧
  isActive s = true ∧ messages s = [] ∧ participants s = PSet [] ∧
  createdAt s = now ∧ mode s = cfgMode config ∧ timeout s = cfgTimeout config ∧
  question s = JS.orNull (cfgQuestion config) ∧
  optionA s = JS.orNull (cfgOptionA config) ∧
  optionB s = JS.orNull (cfgOptionB config) ∧
  (question s ≠ Some "") ∧ (optionA s ≠ Some "") ∧ (optionB s ≠ Some "") ∧
  dispatched w' = (dispatched w ++ [SessionsUpdated; SessionCreated (id s) s])%list ∧
  (∀ code, code ≠ id s →
     SessionManager.asSet <$> (table w' !! code) = SessionManager.asSet <$> (table w !! code)).
Proof.
  unfold createSession. intros H.
  destruct (generateSessionCode fuel rnd k w) as [[[code k1] w1]|] eqn:Hgen; [|done].
  destruct (generateSessionCode_frame _ _ _ _ _ _ _ Hgen) as [Hfree Hsame].
  destruct (generateSessionCode_dispatched _ _ _ _ _ _ _ Hgen) as [Hd _].
  simplify_eq. cbn [id isActive messages participants createdAt mode timeout question
                    optionA optionB].
  assert (HorNull : ∀ o, JS.orNull o ≠ Some "").
  { intros [x|]; [|done]. unfold JS.orNull, JS.truthy.
    destruct (String.eqb_spec x ""); cbn; congruence. }
  split_and!; try done.
  - rewrite getSession_result, table_dispatchEvent, save_table, decide_True by done.
    reflexivity.
  - cbn [dispatched dispatchEvent]. rewrite dispatched_save, Hd. by rewrite <- app_assoc.
  - intros c Hc. by rewrite table_dispatchEvent, save_table, decide_False.
Qed.

Lemma createSession_lookup_witness :
  ∃ s k' w',
    createSession Sample.questionConfig 1 Sample.draws 0 1000 Sample.start = Some (s, k', w') ∧
    fst (getSession (id s) w') = Some s.
Proof.
  destruct (createSession Sample.questionConfig 1 Sample.draws 0 1000 Sample.start)
    as [[[s k'] w']|] eqn:H.
  - exists s, k', w'. split; [reflexivity|].
    exact (proj1 (proj2 (createSession_lookup _ _ _ _ _ _ _ _ _ H))).
  - vm_compute in H. discriminate H.
Defined.

Lemma SM_addMessage_found k m w s :
  table w !! k = Some s →
  SessionManager.addMessage k m w
  = (true,
     SessionManager.save k
       (setMessages (SessionManager.asSet s) (messages s ++ [m]))
       (setGlobalSessions w (<[k := SessionManager.asSet s]> (table w)))).
Proof.
  intros Hk. unfold SessionManager.addMessage.
  by rewrite (get_found _ _ _ Hk), messages_asSet.
Qed.

Lemma addMessage_room w sessionId message e s :
  table w !! sessionId = Some s → (length (messages s) < 100)%nat →
  let r := addMessage sessionId message e w in
  let m := messageObj (socketId w) (length (messages s)) message e in
  fst r = true ∧
  ∃ s', table (snd r) !! sessionId = Some s' ∧
        eraseParticipants s' = eraseParticipants (setMessages s (messages s ++ [m])) ∧
        (∀ x, x ∈ members (participants s')
              ↔ x = socketId w ∨ x ∈ members (participants s)) ∧
        dispatched (snd r)
        = (dispatched w ++ [SessionsUpdated]
           ++ (if decide (socketId w ∈ members (participants s))
               then [] else [SessionsUpdated])
           ++ [MessageAdded sessionId m; MessageSubmitted sessionId m])%list.
Proof.
  intros Hk Hlen r m. subst r m.
  assert (Hroom : (100 <=? length (messages s))%nat = false) by by apply Nat.leb_gt.
  split; [by rewrite addMessage_result, Hk, Hroom|].
  unfold addMessage. rewrite (getSession_found _ _ _ Hk), messages_asSet, Hroom.
  set (w1 := setSessions _ _).
  assert (Hk1 : table w1 !! sessionId = Some (SessionManager.asSet s))
    by (subst w1; by rewrite table_setSessions, table_setGlobalSessions, lookup_insert_eq).
  change (socketId w1) with (socketId w).
  set (m := messageObj (socketId w) (length (messages s)) message e).
  rewrite (SM_addMessage_found _ m _ _ Hk1), messages_asSet, asSet_idem.
  set (d1 := setMessages _ _). set (w3 := SessionManager.save sessionId d1 _).
  assert (Hk3 : table w3 !! sessionId = Some (SessionManager.sessionToSave d1))
    by (subst w3; by rewrite save_table, decide_True).
  assert (Hs3 : socketId w3 = socketId w) by (subst w3; by rewrite save_socketId).
  assert (Hd3 : dispatched w3 = (dispatched w ++ [SessionsUpdated])%list)
    by (subst w3; by rewrite dispatched_save).
  rewrite Hs3.
  destruct (SM_addParticipant_found _ (socketId w) _ _ Hk3)
    as (s' & Hs' & _ & He & Hm & Hd).
  destruct (SessionManager.addParticipant sessionId (socketId w) w3) as [b w4].
  cbn [fst snd] in *.
  assert (Hmem : ∀ x, x ∈ members (participants (SessionManager.sessionToSave d1))
                      ↔ x ∈ members (participants s)).
  { intros x. rewrite elem_of_members_sessionToSave. subst d1.
    by rewrite members_setMessages, members_asSet. }
  exists s'. split_and!.
  + by rewrite !table_dispatchEvent.
  + rewrite He, erase_sessionToSave. subst d1.
    by rewrite erase_setMessages_asSet.
  + intros x. rewrite Hm, Hmem. done.
  + cbn [dispatched dispatchEvent]. rewrite Hd, Hd3.
    destruct (decide (socketId w ∈ members (participants (SessionManager.sessionToSave d1))))
      as [Hin|Hnot], (decide (socketId w ∈ members (participants s))) as [Hin'|Hnot'].
    * by rewrite <- !app_assoc.
    * by apply Hmem in Hin.
    * by apply Hmem in Hin'.
    * by rewrite <- !app_assoc.
Qed.

Lemma addMessage_absent w sessionId message e :
  table w !! sessionId = None →
  let r := addMessage sessionId message e w in
  fst r = false ∧ table (snd r) = table w ∧ dispatched (snd r) = dispatched w.
Proof.
  intros Hk. cbv zeta. unfold addMessage. rewrite (getSession_missing _ _ Hk). cbn.
  by rewrite table_init, dispatched_init.
Qed.

Lemma SM_addMessage_others k m w j :
  j ≠ k → table (snd (SessionManager.addMessage k m w)) !! j = table w !! j.
Proof.
  intros Hne. unfold SessionManager.addMessage.
  pose proof (get_table w k j) as Ht. rewrite decide_False in Ht by done.
  destruct (SessionManager.get k w) as [[s|] w1]; cbn [fst snd] in *; [|done].
  by rewrite save_table, decide_False.
Qed.

Lemma addMessage_others k msg e w j :
  j ≠ k → table (snd (addMessage k msg e w)) !! j = table w !! j.
Proof.
  intros Hne. unfold addMessage.
  pose proof (getSession_table w k j) as Ht. rewrite decide_False in Ht by done.
  destruct (getSession k w) as [[s|] w1]; cbn [fst snd] in *; [|done].
  destruct (100 <=? _)%nat; [done|].
  match goal with |- context [SessionManager.addMessage k ?m w1] =>
    pose proof (SM_addMessage_others k m w1 j Hne) as Hm;
    destruct (SessionManager.addMessage k m w1) as [[|] w2] end;
    cbn [fst snd] in *; [|congruence].
  pose proof (SM_addParticipant_others k (socketId w2) w2 j Hne) as Hp.
  destruct (SessionManager.addParticipant k (socketId w2) w2) as [b w3].
  cbn [fst snd] in *. rewrite !table_dispatchEvent. congruence.
Qed.

(** X9.  On a stored session with fewer than 100 messages [addMessage]
    answers [true] and appends one message: it carries the socket id as
    participant, the word count of its text, the number of earlier messages
    as bottle index, and is unread; the socket id is a member afterwards;
    every other field and every other session is untouched.  It dispatches
    [sessionsUpdated] (twice when the participant is new), then
    [messageAdded] and [messageSubmitted] with the message.  On a code that
    is not stored and is none of the names the store inherits it answers
    [false], stores nothing and dispatches nothing. *)
Theorem addMessage_effect w sessionId message e :
  let r := addMessage sessionId message e w in
  (∀ s, table w !! sessionId = Some s → (length (messages s) < 100)%nat →
     let m := messageObj (socketId w) (length (messages s)) message e in
     fst r = true ∧
     participantId m = socketId w ∧ wordCount m = countWords (inText message) ∧
     isRead m = false ∧ spiralIndex (bottlePosition m) = length (messages s) ∧
     ∃ s', table (snd r) !! sessionId = Some s' ∧
           eraseParticipants s' = eraseParticipants (setMessages s (messages s ++ [m])) ∧
           (∀ x, x ∈ members (participants s')
                 ↔ x = socketId w ∨ x ∈ members (participants s)) ∧
           dispatched (snd r)
           = (dispatched w ++ [SessionsUpdated]
              ++ (if decide (socketId w ∈ members (participants s))
                  then [] else [SessionsUpdated])
              ++ [MessageAdded sessionId m; MessageSubmitted sessionId m])%list) ∧
  (table w !! sessionId = None → sessionId ∉ objectPrototypeNames →
     fst r = false ∧ table (snd r) = table w ∧ dispatched (snd r) = dispatched w) ∧
  (∀ k, k ≠ sessionId → table (snd r) !! k = table w !! k).
Proof.
  intros r. subst r. split; [|split].
  - intros s Hk Hlen m. subst m.
    destruct (addMessage_room w sessionId message e s Hk Hlen) as [Hr Hex].
    split; [exact Hr|]. do 4 (split; [reflexivity|]). exact Hex.
  - intros Hk _. by apply addMessage_absent.
  - intros k Hne. by apply addMessage_others.
Qed.

Lemma addMessage_effect_witness :
  table Sample.created !! "ABCDEFGH" = Some Sample.session0 ∧
  (length (messages Sample.session0) < 100)%nat ∧
  fst (addMessage "ABCDEFGH" Sample.catsInput Sample.entropy Sample.created) = true.
Proof.
  assert (H1 : table Sample.created !! "ABCDEFGH" = Some Sample.session0)
    by (vm_compute; reflexivity).
  assert (H2 : (length (messages Sample.session0) < 100)%nat) by (cbn; lia).
  split_and!; [exact H1 | exact H2 |].
  exact (proj1 (proj1 (addMessage_effect Sample.created "ABCDEFGH" Sample.catsInput
                         Sample.entropy) _ H1 H2)).
Defined.

(** ** What a step does to a stored session *)

Lemma keepsSessions_refl w : keepsSessions w w.
Proof. intros j s' H. by exists s'. Qed.

Lemma keepsSessions_trans w1 w2 w3 :
  keepsSessions w1 w2 → keepsSessions w2 w3 → keepsSessions w1 w3.
Proof.
  intros H12 H23 j s3 H3.
  destruct (H23 j s3 H3) as (s2 & H2 & He2 & Hm2).
  destruct (H12 j s2 H2) as (s1 & H1 & He1 & Hm1).
  exists s1. split_and!; [done|congruence|]. intros x Hx. by apply Hm2, Hm1.
Qed.

Lemma asSet_keeps (w w' : World) :
  (∀ j, SessionManager.asSet <$> (table w' !! j) = SessionManager.asSet <$> (table w !! j)) →
  keepsSessions w w'.
Proof.
  intros H j s' Hs'. specialize (H j). rewrite Hs' in H.
  destruct (table w !! j) as [s|]; [|done]. apply fmap_Some_eq in H.
  exists s. split_and!; [done| |].
  - by rewrite <- (erase_asSet s'), H, erase_asSet.
  - intros x. by rewrite <- (members_asSet s'), H, members_asSet.
Qed.

Lemma getSession_keeps k w : keepsSessions w (snd (getSession k w)).
Proof. apply asSet_keeps. intros j. apply getSession_asSet. Qed.

Lemma init_keeps w : keepsSessions w (SessionManager.init w).
Proof. intros j s'. rewrite table_init. intros H. by exists s'. Qed.

Lemma dispatchEvent_keeps e w : keepsSessions w (dispatchEvent e w).
Proof. intros j s'. rewrite table_dispatchEvent. intros H. by exists s'. Qed.

Lemma addParticipant_keeps k pid w :
  keepsSessions w (snd (SessionManager.addParticipant k pid w)).
Proof.
  intros j s' Hs'. destruct (decide (j = k)) as [->|Hne].
  - destruct (table w !! k) as [s|] eqn:Hk.
    + destruct (SM_addParticipant_found _ pid _ _ Hk) as (s1 & Hs1 & _ & He & Hm & _).
      assert (s1 = s') as -> by congruence.
      exists s. split_and!; [done|done|]. intros x Hx. apply Hm. by right.
    + rewrite (SM_addParticipant_missing _ _ _ Hk) in Hs'. cbn in Hs'.
      rewrite table_init in Hs'. congruence.
  - rewrite SM_addParticipant_others in Hs' by done. by exists s'.
Qed.

Lemma renderStudentLanding_keeps k w : keepsSessions w (snd (renderStudentLanding k w)).
Proof.
  unfold renderStudentLanding. pose proof (getSession_keeps k w) as Hg.
  destruct (getSession k w) as [[s|] w1]; cbn [fst snd] in *; [|done].
  destruct (negb (isActive s)); [done|].
  destruct (100 <=? _)%nat; [done|].
  destruct (hasSubmitted s w1); [done|].
  pose proof (addParticipant_keeps k (socketId w1) w1) as Hp.
  destruct (SessionManager.addParticipant k (socketId w1) w1) as [b w2].
  cbn [fst snd] in *.
  set (w3 := dispatchEvent _ w2).
  pose proof (getSession_keeps k w3) as Hg3.
  assert (H3 : keepsSessions w w3).
  { eapply keepsSessions_trans; [exact Hg|]. eapply keepsSessions_trans; [exact Hp|].
    apply dispatchEvent_keeps. }
  destruct (getSession k w3) as [[s3|] w4]; cbn [fst snd] in *;
    by eapply keepsSessions_trans.
Qed.

Lemma cleanupSessions_keeps now w : keepsSessions w (cleanupSessions now w).
Proof.
  intros j s'. rewrite cleanupSessions_table.
  destruct (table w !! j) as [s|]; cbn; [|done].
  destruct (expired now s); [done|]. intros [= <-]. by exists s.
Qed.

Lemma loadState_keeps now w : keepsSessions w (loadState now w).
Proof.
  unfold loadState, SessionManager.getAll.
  eapply keepsSessions_trans; [|apply cleanupSessions_keeps].
  apply asSet_keeps. intros j.
  rewrite table_setSessions, table_setGlobalSessions, lookup_fmap, table_init.
  destruct (table w !! j); [|done]. cbn. by rewrite asSet_idem.
Qed.

Lemma keeps_table w w1 w2 : table w2 = table w1 → keepsSessions w w1 → keepsSessions w w2.
Proof. intros Ht Hk j s'. rewrite Ht. apply Hk. Qed.

Lemma keeps_change g w w' j s s' :
  keepsSessions w w' → table w !! j = Some s → table w' !! j = Some s' →
  sessionChange g s s' ∧ ∀ x, x ∈ members (participants s) → x ∈ members (participants s').
Proof.
  intros Hk Hs Hs'. destruct (Hk j s' Hs') as (s0 & Hs0 & He & Hm).
  assert (s0 = s) as -> by congruence.
  split; [by apply ChangeKept|done].
Qed.

Lemma keeps_stepChanges g w w' : keepsSessions w w' → stepChanges g w w'.
Proof.
  intros Hk j s' Hs'. destruct (Hk j s' Hs') as (s & Hs & He & Hm).
  rewrite Hs. split; [by apply ChangeKept|done].
Qed.

Lemma stepChanges_table g w w1 w2 :
  table w2 = table w1 → stepChanges g w w1 → stepChanges g w w2.
Proof. intros Ht Hs j s'. rewrite Ht. apply Hs. Qed.

(** A change of a session is a change of every session with the same
    fields and messages. *)
Lemma sessionChange_transport g s0 s s' :
  eraseParticipants s = eraseParticipants s0 →
  sessionChange g s s' → sessionChange g s0 s'.
Proof.
  intros He Hc.
  assert (Hmsg : messages s = messages s0).
  { change (messages (eraseParticipants s) = messages (eraseParticipants s0)). by rewrite He. }
  assert (Hmode : mode s = mode s0).
  { change (mode (eraseParticipants s) = mode (eraseParticipants s0)). by rewrite He. }
  assert (Hset : ∀ ms, eraseParticipants (setMessages s ms)
                       = eraseParticipants (setMessages s0 ms)).
  { intros ms. change (setMessages (eraseParticipants s) ms
                       = setMessages (eraseParticipants s0) ms). by rewrite He. }
  destruct Hc as [Hk|Hcl|mid ms Hm Hr|socket message e Hlen Ha Hin Hg].
  - apply ChangeKept. congruence.
  - apply ChangeClosed. rewrite Hcl.
    change (setIsActive (eraseParticipants s) false
            = setIsActive (eraseParticipants s0) false). by rewrite He.
  - apply (ChangeRead _ _ _ mid ms); [by rewrite <- Hmsg|by rewrite Hr, Hset].
  - rewrite Hmsg in *. apply (ChangeAdded _ _ _ socket message e); try done.
    + by rewrite Ha, Hset.
    + intros Hg'. rewrite <- Hmode. by apply Hg.
Qed.

Lemma stepChanges_after_lookups g w w1 w2 :
  (∀ j, SessionManager.asSet <$> (table w1 !! j) = SessionManager.asSet <$> (table w !! j)) →
  stepChanges g w1 w2 → stepChanges g w w2.
Proof.
  intros Hsame Hstep j s2 Hs2. specialize (Hstep j s2 Hs2). specialize (Hsame j).
  destruct (table w1 !! j) as [s1|], (table w !! j) as [s|]; try done.
  apply fmap_Some_eq in Hsame. destruct Hstep as [Hc Hm].
  assert (He : eraseParticipants s1 = eraseParticipants s)
    by by rewrite <- (erase_asSet s1), Hsame, erase_asSet.
  split.
  - by apply (sessionChange_transport g s s1 s2).
  - intros x Hx. apply Hm. by rewrite <- (members_asSet s1), Hsame, members_asSet.
Qed.

Lemma closeSession_changes g k w : stepChanges g w (closeSession k w).
Proof.
  intros j s' Hs'.
  destruct (decide (j = k)) as [->|Hne].
  - destruct (table w !! k) as [s|] eqn:Hk.
    + destruct (closeSession_stored w k s Hk) as (s1 & Hs1 & _ & He & Hm & _).
      assert (s1 = s') as -> by congruence.
      split; [by apply ChangeClosed|]. intros x Hx. by apply Hm.
    + destruct (closeSession_absent w k Hk) as [Ht _]. rewrite Ht in Hs'. congruence.
  - rewrite closeSession_others in Hs' by done. rewrite Hs'. split; [by apply ChangeKept|done].
Qed.

(** Closing a session after operations that keep the sessions. *)
Lemma keeps_then_close g k w w1 :
  keepsSessions w w1 → stepChanges g w (closeSession k w1).
Proof.
  intros Hkeep j s' Hs'.
  pose proof (closeSession_changes g k w1 j s' Hs') as Hc.
  destruct (table w1 !! j) as [s1|] eqn:Hs1.
  - destruct (Hkeep j s1 Hs1) as (s & Hs & He & Hm). rewrite Hs.
    destruct Hc as [Hc Hm1]. split.
    + by apply (sessionChange_transport g s s1 s').
    + intros x Hx. by apply Hm1, Hm.
  - destruct (decide (j = k)) as [->|Hne].
    + destruct (closeSession_absent w1 k Hs1) as [Ht _]. rewrite Ht in Hs'. congruence.
    + rewrite closeSession_others in Hs' by done. congruence.
Qed.

Lemma markAsRead_changes g k mid w : stepChanges g w (markAsRead k mid w).
Proof.
  intros j s' Hs'. destruct (decide (j = k)) as [->|Hne].
  - destruct (table w !! k) as [s|] eqn:Hk.
    + destruct (markAsRead_kept w k mid s s' Hk Hs') as [He Hm]. split.
      * destruct (markFirst mid (messages s)) as [ms|] eqn:Hmf.
        -- by apply (ChangeRead _ _ _ mid ms Hmf).
        -- apply ChangeKept. rewrite He. by destruct s.
      * intros x Hx. by apply Hm.
    + pose proof (markAsRead_table k mid w k) as Ht.
      rewrite decide_True, Hk, Hs' in Ht by done. done.
  - rewrite markAsRead_others in Hs' by done. rewrite Hs'.
    split; [by apply ChangeKept|done].
Qed.

(** [addMessage] changes the stored sessions in the ways of
    [sessionChange]; with the guard, provided its input is what
    [handleSubmitMessage] lets through. *)
Lemma addMessage_changes g k message e w :
  (g = true → ∀ s, table w !! k = Some s → (length (messages s) < 100)%nat →
     validInput (mode s) message) →
  stepChanges g w (snd (addMessage k message e w)).
Proof.
  intros Hguard j s' Hs'. destruct (decide (j = k)) as [->|Hne].
  - destruct (table w !! k) as [s|] eqn:Hk.
    + destruct (decide (length (messages s) < 100)%nat) as [Hlen|Hlen].
      * destruct (addMessage_room w k message e s Hk Hlen)
          as (_ & s1 & Hs1 & He & Hm & _).
        assert (s1 = s') as -> by congruence.
        split.
        -- apply (ChangeAdded _ _ _ (socketId w) message e Hlen He).
           ++ apply Hm. by left.
           ++ intros Hg. by apply Hguard.
        -- intros x Hx. apply Hm. by right.
      * assert (Hfull : (100 <=? length (messages s))%nat = true) by (apply Nat.leb_le; lia).
        unfold addMessage in Hs'.
        rewrite (getSession_found _ _ _ Hk), messages_asSet, Hfull in Hs'. cbn [snd] in Hs'.
        rewrite table_setSessions, table_setGlobalSessions, lookup_insert_eq in Hs'.
        injection Hs' as <-. split.
        -- apply ChangeKept, erase_asSet.
        -- intros x. by rewrite members_asSet.
    + destruct (addMessage_absent w k message e Hk) as (_ & Ht & _).
      rewrite Ht in Hs'. congruence.
  - rewrite addMessage_others in Hs' by done. rewrite Hs'.
    split; [by apply ChangeKept|done].
Qed.

Lemma truthy_orNull o : JS.truthy (JS.orNull o) = JS.truthy o.
Proof. unfold JS.orNull. by destruct (JS.truthy o) eqn:E. Qed.

Lemma mode_asSet s : mode (SessionManager.asSet s) = mode s.
Proof. by destruct s as [? ? ? ? ? ? ? ? [l|l] ? ?]. Qed.

Lemma handleSubmitMessage_changes g k form e w :
  stepChanges g w (snd (handleSubmitMessage k form e w)).
Proof.
  unfold handleSubmitMessage.
  pose proof (getSession_keeps k w) as Hkeep.
  pose proof (getSession_asSet w k) as Hsame.
  pose proof (getSession_result w k) as Hr.
  pose proof (getSession_table w k k) as Ht. rewrite decide_True in Ht by done.
  destruct (getSession k w) as [[s1|] w1]; cbn [fst snd] in *;
    [|by apply keeps_stepChanges].
  destruct (table w !! k) as [s0|] eqn:Hk; [|done].
  cbn in Hr, Ht. injection Hr as ->. rewrite mode_asSet.
  destruct (String.eqb (JS.trim (formText form)) "") eqn:Hempty;
    [by apply keeps_stepChanges|].
  destruct (100 <? countWords (JS.trim (formText form)))%nat eqn:Hlong;
    [by apply keeps_stepChanges|].
  destruct (isQuestion (mode s0) && negb (JS.truthy (formSelected form)))
    eqn:Hopt; [by apply keeps_stepChanges|].
  match goal with |- context [addMessage k ?m e w1] => set (message := m) end.
  assert (Hstep : stepChanges g w1 (snd (addMessage k message e w1))).
  { subst message. apply addMessage_changes. intros _ s2 Hs2 _.
    assert (s2 = SessionManager.asSet s0) as -> by congruence.
    rewrite mode_asSet. split_and!.
    - by exists (formText form).
    - cbn [inText]. by apply String.eqb_neq.
    - cbn [inText]. by apply Nat.ltb_ge in Hlong.
    - intros Hq. cbn. rewrite truthy_orNull. rewrite Hq in Hopt. cbn in Hopt.
      by destruct (JS.truthy (formSelected form)).
    - cbn. by intros ->. }
  assert (Hgoal : stepChanges g w (snd (addMessage k message e w1)))
    by by apply (stepChanges_after_lookups g w w1).
  by destruct (addMessage k message e w1) as [[|] w3].
Qed.

Lemma composeAndSubmit_changes g k form e w :
  stepChanges g w (snd (composeAndSubmit k form e w)).
Proof.
  unfold composeAndSubmit.
  pose proof (renderComposer_world k w) as Hw.
  destruct (renderComposer k w) as [[] w1]; cbn [snd] in *; subst w1;
    try (apply keeps_stepChanges, getSession_keeps).
  pose proof (handleSubmitMessage_changes g k form e (snd (getSession k w))) as Hh.
  destruct (handleSubmitMessage k form e (snd (getSession k w))) as [r w2].
  cbn [snd] in *. apply (stepChanges_after_lookups g w (snd (getSession k w))); [|done].
  intros j. apply getSession_asSet.
Qed.

Lemma createSession_changes g config fuel rnd k now w s k' w' :
  createSession config fuel rnd k now w = Some (s, k', w') → stepChanges g w w'.
Proof.
  unfold createSession. intros H.
  destruct (generateSessionCode fuel rnd k w) as [[[code k1] w1]|] eqn:Hgen; [|done].
  destruct (generateSessionCode_frame _ _ _ _ _ _ _ Hgen) as [Hfree Hsame].
  injection H as <- <- <-. intros j s' Hs'.
  rewrite table_dispatchEvent, save_table in Hs'.
  destruct (decide (j = code)) as [->|Hne].
  - rewrite Hfree. by injection Hs' as <-.
  - specialize (Hsame j). rewrite Hs' in Hsame.
    destruct (table w !! j) as [s0|]; [|done].
    cbn in Hsame. injection Hsame as Hsame.
    assert (He : eraseParticipants s' = eraseParticipants s0)
      by by rewrite <- (erase_asSet s'), Hsame, erase_asSet.
    split; [by apply ChangeKept|].
    intros x. by rewrite <- (members_asSet s'), Hsame, members_asSet.
Qed.

(** What rendering a route does to the store: it keeps the sessions, or it
    closes one after operations that keep them, when the timer of the
    monitor finds the time of the session run out. *)
Lemma renderView_shape v now w :
  keepsSessions w (renderView v now w) ∨
  ∃ k w1, keepsSessions w w1 ∧ renderView v now w = closeSession k w1.
Proof.
  destruct v as [| | |[c|]|[c|]| |[c|]|[c|]|[c|]]; cbn [renderView renderAt];
    unfold renderLanding, renderTeacherDashboard, renderCreateSession, renderStudentJoin,
      renderReview, renderSubmitted, SessionManager.getAll; cbn [snd];
    rewrite ?renderComposer_world;
    try (left; first [ apply init_keeps | apply getSession_keeps | apply keepsSessions_refl
                     | apply renderStudentLanding_keeps ]).
  unfold renderMonitor. pose proof (getSession_keeps c w) as Hg.
  destruct (getSession c w) as [[s|] w1]; cbn [fst snd] in *; [|by left].
  unfold startSessionTimer. pose proof (getSession_keeps c w1) as Hg1.
  assert (Hg2 : keepsSessions w (snd (getSession c w1)))
    by by eapply keepsSessions_trans.
  destruct (getSession c w1) as [[s1|] w2]; cbn [fst snd] in *; [|by left].
  destruct (negb (isActive s1)); [by left|].
  unfold updateTimer, handleAutoClose.
  destruct (remainingAt (endTime s1) now <=? 0)%Z; cbn [snd]; [|by left].
  right. by exists c, w2.
Qed.

Lemma setupRouter_changes g path params now w :
  stepChanges g w (setupRouter path params now w).
Proof.
  unfold setupRouter.
  destruct (renderView_shape (handleRoute path params) now w) as [H|(k & w1 & H & ->)].
  - by apply keeps_stepChanges.
  - by apply keeps_then_close.
Qed.

Lemma init_changes g r idn now path params routeNow w :
  stepChanges g w (init r idn now path params routeNow w).
Proof.
  unfold init, setupRouter, SessionManager.getAll. cbn [snd].
  set (w1 := loadState now _).
  assert (Hk1 : keepsSessions w w1).
  { subst w1. eapply keepsSessions_trans; [|apply loadState_keeps].
    apply (keeps_table w (SessionManager.init w)); [done|apply init_keeps]. }
  apply (stepChanges_table g w (renderView (handleRoute path params) routeNow w1));
    [apply table_init|].
  destruct (renderView_shape (handleRoute path params) routeNow w1)
    as [H|(k & w2 & H & ->)].
  - apply keeps_stepChanges. by eapply keepsSessions_trans.
  - apply keeps_then_close. by eapply keepsSessions_trans.
Qed.

(** A step changes each stored session in one of the ways of
    [sessionChange], or stores a new one. *)
Lemma step_stepChanges g w w' : step g w w' → stepChanges g w w'.
Proof.
  intros Hstep.
  destruct Hstep as [config fuel rnd k now w s k' w' H | sid w | sid pid w | sid w
                    | sid message e w Hg | sid form e w | sid form e w | sid mid w
                    | sid w | now w | path params now w
                    | r idn now path params rnow w].
  - by apply (createSession_changes g _ _ _ _ _ _ _ _ _ H).
  - apply keeps_stepChanges, getSession_keeps.
  - apply keeps_stepChanges, addParticipant_keeps.
  - apply keeps_stepChanges, renderStudentLanding_keeps.
  - apply addMessage_changes. rewrite Hg. done.
  - apply composeAndSubmit_changes.
  - apply handleSubmitMessage_changes.
  - apply markAsRead_changes.
  - apply closeSession_changes.
  - apply keeps_stepChanges, cleanupSessions_keeps.
  - apply setupRouter_changes.
  - apply init_changes.
Qed.

(** ** What a step can do to a session, and what stays true *)

Lemma sessionChange_fields g s s' :
  sessionChange g s s' →
  id s' = id s ∧ mode s' = mode s ∧ question s' = question s ∧
  optionA s' = optionA s ∧ optionB s' = optionB s ∧ timeout s' = timeout s ∧
  createdAt s' = createdAt s ∧ (isActive s = false → isActive s' = false).
Proof.
  intros [He|He|mid ms Hm He|socket message e Hlen He Hin Hg];
    apply erase_fields in He; cbn in He;
    destruct He as (F1 & F2 & F3 & F4 & F5 & F6 & F7 & F8 & F9);
    split_and!; congruence.
Qed.

Lemma sessionChange_messages g s s' :
  sessionChange g s s' →
  ∃ ms added,
    messages s' = (ms ++ added)%list ∧
    Forall2 (fun m m' => m' = m ∨ m' = setIsRead m true) (messages s) ms ∧
    (added = [] ∨
     ∃ socket message e, (length (messages s) < 100)%nat ∧
       socket ∈ members (participants s') ∧
       added = [messageObj socket (length (messages s)) message e]).
Proof.
  assert (Hrefl : ∀ l : list Message,
            Forall2 (fun m m' => m' = m ∨ m' = setIsRead m true) l l).
  { intros l. apply Forall2_same_length_lookup_2; [done|].
    intros i x y Hx Hy. left. congruence. }
  intros [He|He|mid ms Hm He|socket message e Hlen He Hin Hg];
    apply erase_fields in He; cbn in He; destruct He as (_&_&_&_&_&_&_&_&He).
  - exists (messages s), []. rewrite app_nil_r. auto.
  - exists (messages s), []. rewrite app_nil_r. auto.
  - exists ms, []. rewrite app_nil_r. split_and!; [done| |by left].
    eapply Forall2_impl; [by apply markFirst_Forall2|].
    intros m m' [?|[? ?]]; auto.
  - exists (messages s), [messageObj socket (length (messages s)) message e].
    split_and!; [done|done|]. right. by exists socket, message, e.
Qed.

(** X10.  No operation of the store rewrites a session: after a step a
    session that was stored and still is has the same code, mode, question,
    options, timeout and creation time; if it was closed it is closed;
    it has its old messages in their places, each as it was or marked as
    read, and at most one more; and every old member is a member. *)
Theorem step_monotone g w w' j s s' :
  step g w w' → table w !! j = Some s → table w' !! j = Some s' →
  (id s' = id s ∧ mode s' = mode s ∧ question s' = question s ∧
   optionA s' = optionA s ∧ optionB s' = optionB s ∧ timeout s' = timeout s ∧
   createdAt s' = createdAt s) ∧
  (isActive s = false → isActive s' = false) ∧
  (length (messages s) <= length (messages s') <= S (length (messages s)))%nat ∧
  (∀ i m, messages s !! i = Some m →
     ∃ m', messages s' !! i = Some m' ∧ (m' = m ∨ m' = setIsRead m true)) ∧
  (∀ x, x ∈ members (participants s) → x ∈ members (participants s')).
Proof.
  intros Hstep Hs Hs'. pose proof (step_stepChanges g w w' Hstep j s' Hs') as Hc.
  rewrite Hs in Hc. destruct Hc as [Hc Hmem].
  pose proof (sessionChange_fields _ _ _ Hc) as Hf.
  destruct (sessionChange_messages _ _ _ Hc) as (ms & added & Hmsg & Hall & Hadd).
  pose proof (Forall2_length _ _ _ Hall) as Hlen.
  destruct Hf as (F1 & F2 & F3 & F4 & F5 & F6 & F7 & F8).
  split; [by split_and!|]. split; [done|].
  split; [|split; [|done]].
  - rewrite Hmsg, length_app.
    destruct Hadd as [->|(socket & message & e & _ & _ & ->)]; cbn [length]; lia.
  - intros i m Hi.
    destruct (Forall2_lookup_l _ _ _ _ _ Hall Hi) as (m' & Hi' & Hrel).
    exists m'. split; [|done]. rewrite Hmsg. by apply lookup_app_l_Some.
Qed.

Lemma step_monotone_witness :
  step true Sample.created Sample.closed ∧
  table Sample.created !! "ABCDEFGH" = Some Sample.session0 ∧
  table Sample.closed !! "ABCDEFGH" = Some (setIsActive Sample.session0 false) ∧
  createdAt (setIsActive Sample.session0 false) = createdAt Sample.session0.
Proof.
  assert (H0 : step true Sample.created Sample.closed) by apply StepClose.
  assert (H1 : table Sample.created !! "ABCDEFGH" = Some Sample.session0)
    by (vm_compute; reflexivity).
  assert (H2 : table Sample.closed !! "ABCDEFGH" = Some (setIsActive Sample.session0 false))
    by (vm_compute; reflexivity).
  split_and!; [exact H0 | exact H1 | exact H2 |].
  exact (proj2 (proj2 (proj2 (proj2 (proj2 (proj2 (proj1
    (step_monotone true _ _ _ _ _ H0 H1 H2)))))))).
Defined.

Lemma wellFormed_fresh j s : freshSession j s → wellFormedSession s.
Proof.
  intros (_ & _ & Hm & _). unfold wellFormedSession. rewrite Hm. cbn.
  split; [lia|]. intros i m. by rewrite lookup_nil.
Qed.

Lemma wellFormed_change g s s' :
  sessionChange g s s' →
  (∀ x, x ∈ members (participants s) → x ∈ members (participants s')) →
  wellFormedSession s → wellFormedSession s'.
Proof.
  intros Hc Hmem [Hcap Hall].
  destruct (sessionChange_messages _ _ _ Hc) as (ms & added & Hmsg & Hrel & Hadd).
  pose proof (Forall2_length _ _ _ Hrel) as Hlen.
  split.
  - rewrite Hmsg, length_app.
    destruct Hadd as [->|(socket & message & e & Hl & _ & ->)]; cbn [length]; lia.
  - intros i m' Hi. rewrite Hmsg in Hi. apply lookup_app_Some in Hi.
    destruct Hi as [Hi|[Hge Hi]].
    + destruct (Forall2_lookup_r _ _ _ _ _ Hrel Hi) as (m & Hm & Hmm').
      destruct (Hall i m Hm) as (H1 & H2 & H3).
      destruct Hmm' as [->| ->]; cbn; split_and!; auto.
    + destruct Hadd as [->|(socket & message & e & Hl & Hin & ->)];
        [by rewrite lookup_nil in Hi|].
      destruct (i - length ms)%nat as [|n] eqn:En; [|by rewrite lookup_cons, lookup_nil in Hi].
      cbn in Hi. injection Hi as <-. cbn. split_and!; [lia|done|done].
Qed.

(** X11.  In every state reached from the empty store, with or without
    the composer's guard, each stored session holds at most 100 messages;
    its i-th message has the i-th place of the spiral, so no two bottles of
    a session share a place; it was written by a member of the session; and
    its word count is the word count of its text. *)
Theorem reachable_wellFormed g sid w :
  rtc (step g) (initialWorld sid) w →
  ∀ code s, table w !! code = Some s → wellFormedSession s.
Proof.
  intros Hreach. revert w Hreach.
  apply (rtc_ind_r (fun w => ∀ code s, table w !! code = Some s → wellFormedSession s)).
  - intros code s. unfold table. cbn. by rewrite lookup_empty.
  - intros w0 w1 _ Hstep IH code s' Hs'.
    pose proof (step_stepChanges g w0 w1 Hstep code s' Hs') as Hc.
    destruct (table w0 !! code) as [s|] eqn:Hs.
    + destruct Hc as [Hc Hmem]. by apply (wellFormed_change g s s' Hc Hmem), (IH code).
    + by apply (wellFormed_fresh code).
Qed.

Lemma sample_submitted_reachable g :
  rtc (step g) (initialWorld "socket_r4nd0m1700000000000") Sample.submitted.
Proof.
  eapply rtc_l.
  { eapply (StepCreate g Sample.questionConfig 1 Sample.draws 0 1000 Sample.start
              _ _ Sample.created).
    vm_compute. reflexivity. }
  eapply rtc_l; [|apply rtc_refl].
  apply (StepSubmit g "ABCDEFGH" Sample.catsForm Sample.entropy Sample.created).
Defined.

Lemma reachable_wellFormed_witness :
  rtc (step false) (initialWorld "socket_r4nd0m1700000000000") Sample.submitted ∧
  ∀ code s, table Sample.submitted !! code = Some s → wellFormedSession s.
Proof.
  split; [exact (sample_submitted_reachable false)|].
  exact (reachable_wellFormed false _ _ (sample_submitted_reachable false)).
Defined.

Lemma dropSpaces_head l c t : JS.dropSpaces l = c :: t → JS.isSpace c = false.
Proof.
  induction l as [|x l IH]; [done|]. cbn [JS.dropSpaces].
  destruct (JS.isSpace x) eqn:Hx; [done|]. by intros [= -> ->].
Qed.

Lemma trimChars_blank l :
  Forall (fun c => JS.isSpace c = true) (JS.trimChars l) → JS.trimChars l = [].
Proof.
  unfold JS.trimChars. intros H.
  destruct (JS.dropSpaces (rev (JS.dropSpaces l))) as [|c t] eqn:Hd; [done|].
  apply dropSpaces_head in Hd as Hc.
  assert (Hin : c ∈ rev (c :: t))
    by (apply list_elem_of_In, in_rev; rewrite rev_involutive; by left).
  apply (proj1 (Forall_forall _ _) H) in Hin. congruence.
Qed.

(** A trimmed text that is not empty has a word. *)
Lemma countWords_trim_pos raw : JS.trim raw ≠ "" → (1 <= countWords (JS.trim raw))%nat.
Proof.
  intros Hne. destruct (countWords (JS.trim raw)) as [|n] eqn:Hc; [|lia].
  rewrite countWords_wordRuns in Hc. apply wordRuns_zero in Hc.
  unfold JS.trim, JS.chars, JS.str in Hc.
  rewrite list_ascii_of_string_of_list_ascii in Hc.
  apply trimChars_blank in Hc. destruct Hne. unfold JS.trim, JS.str, JS.chars. by rewrite Hc.
Qed.

Lemma validated_change s s' :
  sessionChange true s s' →
  (∀ m, m ∈ messages s → validatedMessage (mode s) m) →
  ∀ m, m ∈ messages s' → validatedMessage (mode s') m.
Proof.
  intros Hc Hall m' Hm'.
  destruct (sessionChange_fields _ _ _ Hc) as (_ & Hmode & _). rewrite Hmode.
  destruct Hc as [He|He|mid ms Hm He|socket message e Hlen He Hin Hg];
    apply erase_fields in He; cbn in He; destruct He as (_&_&_&_&_&_&_&_&He);
    rewrite He in Hm'.
  - by apply Hall.
  - by apply Hall.
  - apply markFirst_Forall2 in Hm.
    apply list_elem_of_lookup in Hm' as [i Hi].
    destruct (Forall2_lookup_r _ _ _ _ _ Hm Hi) as (m & Hmi & Hrel).
    assert (Hv : validatedMessage (mode s) m)
      by (apply Hall; by apply list_elem_of_lookup_2 in Hmi).
    by destruct Hrel as [->|[_ ->]].
  - apply elem_of_app in Hm' as [Hm'|Hm']; [by apply Hall|].
    apply list_elem_of_singleton in Hm' as ->.
    destruct (Hg eq_refl) as ((raw & Hraw) & Hne & Hcount & Hopt & Hanon).
    unfold validatedMessage. cbn. split_and!.
    + by exists raw.
    + done.
    + rewrite Hraw. apply countWords_trim_pos. by rewrite <- Hraw.
    + done.
    + intros Hq. rewrite truthy_orNull. by apply Hopt.
    + intros Ha. by rewrite (Hanon Ha).
Qed.

(** X12.  When messages enter the store through the composer and
    [handleSubmitMessage] alone, every stored message has been validated,
    in every reachable state: its text is trimmed and not empty, it has
    between 1 and 100 words, it carries an option when the session asks a
    question, and it carries no name when it is anonymous. *)
Theorem guarded_messages_validated sid w :
  rtc (step true) (initialWorld sid) w →
  ∀ code s m, table w !! code = Some s → m ∈ messages s → validatedMessage (mode s) m.
Proof.
  intros Hreach. revert w Hreach.
  apply (rtc_ind_r (fun w => ∀ code s m, table w !! code = Some s → m ∈ messages s →
                                         validatedMessage (mode s) m)).
  - intros code s m. unfold table. cbn. by rewrite lookup_empty.
  - intros w0 w1 _ Hstep IH code s' m Hs' Hm.
    pose proof (step_stepChanges true w0 w1 Hstep code s' Hs') as Hc.
    destruct (table w0 !! code) as [s|] eqn:Hs.
    + destruct Hc as [Hc _]. apply (validated_change s s' Hc); [|done].
      intros m0. by apply (IH code).
    + destruct Hc as (_ & _ & Hnil & _). rewrite Hnil in Hm. by apply elem_of_nil in Hm.
Qed.

Lemma guarded_messages_validated_witness :
  rtc (step true) (initialWorld "socket_r4nd0m1700000000000") Sample.submitted ∧
  ∀ code s m, table Sample.submitted !! code = Some s → m ∈ messages s →
              validatedMessage (mode s) m.
Proof.
  split; [exact (sample_submitted_reachable true)|].
  exact (guarded_messages_validated _ _ (sample_submitted_reachable true)).
Defined.

(** ** The store: saving, reading back, deleting *)

(** X13.  For a session id that is none of the names the store inherits:
    a session saved under it is stored with its participants as an
    [Array]; [get] reads it back with every other field as saved and the
    participants as a [Set] without duplicates that has the members saved;
    sessions under other codes are not touched.  After [delete] the code
    is free, and the other sessions are as before. *)
Theorem save_get_delete sessionId sessionData w :
  sessionId ∉ objectPrototypeNames →
  let saved := SessionManager.save sessionId sessionData w in
  let r := SessionManager.get sessionId saved in
  (∃ l, participants <$> (table saved !! sessionId) = Some (PArray l)) ∧
  (∃ s l, fst r = Some s ∧ participants s = PSet l ∧ NoDup l ∧
          (∀ x, x ∈ l ↔ x ∈ members (participants sessionData)) ∧
          eraseParticipants s = eraseParticipants sessionData) ∧
  (∀ j, j ≠ sessionId →
     table (snd r) !! j = table w !! j ∧
     table (SessionManager.delete sessionId w) !! j = table w !! j) ∧
  fst (SessionManager.get sessionId (SessionManager.delete sessionId (snd r))) = None.
Proof.
  intros _ saved r. subst saved r.
  assert (Hk : table (SessionManager.save sessionId sessionData w) !! sessionId
               = Some (SessionManager.sessionToSave sessionData))
    by (by rewrite save_table, decide_True).
  split; [|split; [|split]].
  - rewrite Hk. destruct sessionData as [? ? ? ? ? ? ? ? [l|l] ? ?]; by exists l.
  - rewrite get_result, Hk.
    destruct sessionData as [? ? ? ? ? ? ? ? [l|l] ? ?]; cbn.
    + eexists _, (newSet l). split; [reflexivity|]. cbn.
      split_and!; [done|apply NoDup_newSet|done|done].
    + eexists _, (newSet l). split; [reflexivity|]. cbn.
      split_and!; [done|apply NoDup_newSet| |done].
      intros x. by rewrite elem_of_newSet.
  - intros j Hne. split.
    + by rewrite get_table, decide_False, save_table, decide_False.
    + by rewrite delete_table, decide_False.
  - rewrite get_result, delete_table. by rewrite decide_True.
Qed.

Lemma save_get_delete_witness :
  ("ABCDEFGH" ∉ objectPrototypeNames) ∧
  fst (SessionManager.get "ABCDEFGH"
         (SessionManager.delete "ABCDEFGH"
            (snd (SessionManager.get "ABCDEFGH"
                    (SessionManager.save "ABCDEFGH" Sample.session0 Sample.start)))))
  = None.
Proof.
  assert (H : "ABCDEFGH" ∉ objectPrototypeNames).
  { intros Hin. apply list_elem_of_In in Hin. vm_compute in Hin.
    repeat (destruct Hin as [Hin|Hin]; [discriminate Hin|]). exact Hin. }
  split; [exact H|].
  exact (proj2 (proj2 (proj2 (save_get_delete "ABCDEFGH" Sample.session0 Sample.start H)))).
Defined.

(** ** The sweep *)

Lemma expired_mono now1 now2 s : now1 <= now2 → expired now1 s = true → expired now2 s = true.
Proof. rewrite !expired_spec. intros Hle [Ha Hlt]. split; [done|lia]. Qed.

(** X14.  Sweeping twice is sweeping once, at the later of the two times:
    what a sweep leaves, an earlier or simultaneous sweep does not touch,
    and a sweep after an earlier one removes what the later one alone
    removes.  A sweep never removes an active session. *)
Theorem cleanupSessions_twice now1 now2 w j :
  now1 <= now2 →
  table (cleanupSessions now1 (cleanupSessions now2 w)) !! j
  = table (cleanupSessions now2 w) !! j ∧
  table (cleanupSessions now2 (cleanupSessions now1 w)) !! j
  = table (cleanupSessions now2 w) !! j ∧
  (∀ s, table w !! j = Some s → isActive s = true →
        table (cleanupSessions now2 w) !! j = Some s).
Proof.
  intros Hle. rewrite !cleanupSessions_table.
  destruct (table w !! j) as [s|]; cbn; [|done].
  pose proof (expired_mono now1 now2 s Hle) as Hm.
  split_and!.
  - destruct (expired now2 s) eqn:H2; cbn; [done|].
    destruct (expired now1 s); [by specialize (Hm eq_refl)|done].
  - destruct (expired now1 s) eqn:H1; cbn.
    + by rewrite (Hm eq_refl).
    + done.
  - intros s0 [= <-] Ha. destruct (expired now2 s) eqn:H2; [|done].
    apply expired_spec in H2 as [? _]. congruence.
Qed.

Lemma cleanupSessions_twice_witness :
  Sample.sweepTime <= Sample.sweepTime ∧
  table (cleanupSessions Sample.sweepTime (cleanupSessions Sample.sweepTime Sample.aged))
    !! "STALE000"
  = table (cleanupSessions Sample.sweepTime Sample.aged) !! "STALE000".
Proof.
  assert (H : Sample.sweepTime <= Sample.sweepTime) by lia.
  split; [exact H|].
  exact (proj1 (cleanupSessions_twice Sample.sweepTime Sample.sweepTime Sample.aged
                  "STALE000" H)).
Defined.

(** ** Start-up *)

Lemma socketId_init w : socketId (SessionManager.init w) = socketId w.
Proof. unfold SessionManager.init. by destruct (globalSessions w). Qed.

Lemma sweep_mirror now l : ∀ w,
  sessions w = table w →
  let w' := foldl (sweepStep now) w l in
  sessions w' = table w' ∧ socketId w' = socketId w ∧ dispatched w' = dispatched w ∧
  (globalSessions w ≠ None → globalSessions w' ≠ None).
Proof.
  induction l as [|[k s] l IH]; intros w Hw; [done|]. cbn [foldl].
  assert (Hstep : sessions (sweepStep now w (k, s)) = table (sweepStep now w (k, s)) ∧
                  socketId (sweepStep now w (k, s)) = socketId w ∧
                  dispatched (sweepStep now w (k, s)) = dispatched w ∧
                  (globalSessions w ≠ None → globalSessions (sweepStep now w (k, s)) ≠ None)).
  { unfold sweepStep. destruct (expired now s); [|done].
    unfold SessionManager.delete. split_and!;
      try (unfold SessionManager.init; by destruct (globalSessions w)).
    cbn [sessions setSessions setGlobalSessions].
    rewrite table_setSessions, table_setGlobalSessions, table_init.
    replace (sessions (SessionManager.init w)) with (sessions w)
      by (unfold SessionManager.init; by destruct (globalSessions w)).
    by rewrite Hw. }
  destruct Hstep as (H1 & H2 & H3 & H4).
  destruct (IH _ H1) as (I1 & I2 & I3 & I4).
  split_and!; [done|congruence|congruence|auto].
Qed.

(** X15.  [loadState] dispatches nothing and leaves the socket id; after
    it the store is defined and holds exactly the sessions stored before
    that are active or not older than 24 hours, each with its participants
    as a [Set] and nothing else changed; and [AppState.sessions] holds the
    same sessions as the store. *)
Theorem loadState_loads now w :
  let w' := loadState now w in
  socketId w' = socketId w ∧
  dispatched w' = dispatched w ∧
  globalSessions w' ≠ None ∧
  sessions w' = table w' ∧
  ∀ j, table w' !! j
       = SessionManager.asSet
         <$> (table w !! j ≫= fun s => if expired now s then None else Some s).
Proof.
  intros w'. subst w'. unfold loadState, SessionManager.getAll.
  set (loaded := SessionManager.asSet <$> table (SessionManager.init w)).
  set (w2 := setSessions (setGlobalSessions (SessionManager.init w) loaded) loaded).
  assert (Hmirror : sessions (SessionManager.init w2) = table (SessionManager.init w2))
    by (subst w2; reflexivity).
  rewrite cleanupSessions_fold.
  destruct (sweep_mirror now (map_to_list (table w2)) _ Hmirror) as (H1 & H2 & H3 & H4).
  split_and!.
  - rewrite H2. subst w2. rewrite socketId_init.
    cbn [socketId setSessions setGlobalSessions]. by rewrite socketId_init.
  - rewrite H3. subst w2. rewrite dispatched_init.
    cbn [dispatched setSessions setGlobalSessions]. by rewrite dispatched_init.
  - by apply H4.
  - done.
  - intros j. rewrite <- cleanupSessions_fold, cleanupSessions_table.
    subst w2. rewrite table_setSessions, table_setGlobalSessions. subst loaded.
    rewrite lookup_fmap, table_init.
    destruct (table w !! j) as [s|]; [|done]. cbn.
    assert (He : expired now (SessionManager.asSet s) = expired now s)
      by (by destruct s as [? ? ? ? ? ? ? ? [l|l] ? ?]).
    rewrite He. by destruct (expired now s).
Qed.

(** ** The student's landing page *)

Lemma SM_addParticipant_members k pid w s :
  table w !! k = Some s →
  ∃ s', table (snd (SessionManager.addParticipant k pid w)) !! k = Some s' ∧
        members (participants s')
        = if decide (pid ∈ members (participants s)) then members (participants s)
          else newSet (members (participants s) ++ [pid]).
Proof.
  intros Hk. unfold SessionManager.addParticipant.
  rewrite (get_found _ _ _ Hk), members_asSet.
  destruct (decide (pid ∈ members (participants s))) as [Hin|Hnot]; cbn [fst snd].
  - exists (SessionManager.asSet s).
    by rewrite table_setGlobalSessions, lookup_insert_eq, members_asSet.
  - eexists. rewrite save_table, decide_True by done. split; [reflexivity|]. done.
Qed.

(** X16.  When [renderStudentLanding] welcomes the visitor, the session
    is stored and active, holds no message of this socket and had fewer
    than 100 members; afterwards the socket is a member, the members are
    otherwise those before, the count shown is the number of members and
    lies between 1 and 100, and [participantJoined] is the last event. *)
Theorem renderStudentLanding_welcome sessionId w n :
  fst (renderStudentLanding sessionId w) = LandingWelcome n →
  ∃ s s',
    table w !! sessionId = Some s ∧ isActive s = true ∧ (socketId w ∉ pids s) ∧
    (length (members (participants s)) < 100)%nat ∧
    table (snd (renderStudentLanding sessionId w)) !! sessionId = Some s' ∧
    (∀ x, x ∈ members (participants s') ↔ x = socketId w ∨ x ∈ members (participants s)) ∧
    n = length (members (participants s')) ∧ (1 <= n <= 100)%nat ∧
    last (dispatched (snd (renderStudentLanding sessionId w)))
    = Some (ParticipantJoined sessionId (socketId w)).
Proof.
  unfold renderStudentLanding.
  destruct (table w !! sessionId) as [s|] eqn:Hk;
    [|by rewrite (getSession_missing _ _ Hk)].
  rewrite (getSession_found _ _ _ Hk), isActive_asSet, participantCount_asSet.
  set (w1 := setSessions _ _).
  assert (Hk1 : table w1 !! sessionId = Some (SessionManager.asSet s))
    by (subst w1; by rewrite table_setSessions, table_setGlobalSessions, lookup_insert_eq).
  assert (Hsock : socketId w1 = socketId w) by done.
  destruct (isActive s) eqn:Hact; cbn [negb]; [|done].
  destruct (100 <=? length (members (participants s)))%nat eqn:Hfull; [done|].
  apply Nat.leb_gt in Hfull.
  destruct (hasSubmitted (SessionManager.asSet s) w1) eqn:Hsub; [done|].
  apply hasSubmitted_false in Hsub. rewrite pids_asSet, Hsock in Hsub.
  destruct (SM_addParticipant_found _ (socketId w1) _ _ Hk1) as (s2 & Hs2 & _ & He & Hm & _).
  destruct (SM_addParticipant_members _ (socketId w1) _ _ Hk1) as (s2' & Hs2' & Hmem).
  assert (s2' = s2) as -> by congruence.
  pose proof (SM_addParticipant_socketId sessionId (socketId w1) w1) as Hsock2.
  destruct (SessionManager.addParticipant sessionId (socketId w1) w1) as [b w2].
  cbn [fst snd] in *. rewrite Hsock2, Hsock. rewrite members_asSet in Hmem, Hm.
  rewrite Hsock in Hmem, Hm.
  set (w3 := dispatchEvent _ w2).
  assert (Hk3 : table w3 !! sessionId = Some s2) by (subst w3; by rewrite table_dispatchEvent).
  rewrite (getSession_found _ _ _ Hk3). cbn [fst snd].
  rewrite participantCount_asSet. intros [= <-].
  exists s, (SessionManager.asSet s2).
  rewrite table_setSessions, table_setGlobalSessions, lookup_insert_eq, members_asSet.
  split_and!; try done.
  - destruct (length (members (participants s2))) eqn:Hl; [|lia].
    apply nil_length_inv in Hl.
    assert (Hin : socketId w ∈ members (participants s2)) by (apply Hm; by left).
    rewrite Hl in Hin. by apply elem_of_nil in Hin.
  - rewrite Hmem. destruct (decide _); [lia|].
    etrans; [apply length_newSet|]. rewrite length_app. cbn. lia.
  - subst w3. cbn [dispatched dispatchEvent setSessions setGlobalSessions].
    apply last_snoc.
Qed.

Lemma renderStudentLanding_welcome_witness :
  fst (renderStudentLanding "ABCDEFGH" Sample.created) = LandingWelcome 1 ∧
  ∃ s', table (snd (renderStudentLanding "ABCDEFGH" Sample.created)) !! "ABCDEFGH" = Some s' ∧
        1%nat = length (members (participants s')).
Proof.
  assert (H : fst (renderStudentLanding "ABCDEFGH" Sample.created) = LandingWelcome 1)
    by (vm_compute; reflexivity).
  split; [exact H|].
  destruct (renderStudentLanding_welcome "ABCDEFGH" Sample.created 1 H)
    as (s & s' & _ & _ & _ & _ & Hs' & _ & Hn & _).
  by exists s'.
Defined.

(** ** Submitting a message *)

Lemma addMessage_full k message e w s :
  table w !! k = Some s → (100 <= length (messages s))%nat →
  addMessage k message e w = (false, snd (getSession k w)).
Proof.
  intros Hk Hlen. unfold addMessage.
  rewrite (getSession_found _ _ _ Hk), messages_asSet.
  by rewrite (proj2 (Nat.leb_le _ _) Hlen).
Qed.

(** X17.  [handleSubmitMessage] sends the message exactly when the session
    is stored, the trimmed text is not empty and has at most 100 words, an
    option is selected if the session asks a question, and the session
    holds fewer than 100 messages; whether the session is active is not
    looked at.  A message sent is appended to the session with the trimmed
    text, its word count, the socket id, and the name only when it is not
    anonymous.  In every other case no event is dispatched and every stored
    session keeps its fields, messages and members. *)
Theorem handleSubmitMessage_outcome sessionId form e w :
  let text := JS.trim (formText form) in
  let r := handleSubmitMessage sessionId form e w in
  (fst r = SubmitSent ↔
     ∃ s, table w !! sessionId = Some s ∧ text ≠ "" ∧ (countWords text <= 100)%nat ∧
          (mode s = Question → JS.truthy (formSelected form) = true) ∧
          (length (messages s) < 100)%nat) ∧
  (fst r = SubmitSent →
     ∃ s s' m,
       table w !! sessionId = Some s ∧ table (snd r) !! sessionId = Some s' ∧
       messages s' = (messages s ++ [m])%list ∧
       messageText m = text ∧ wordCount m = countWords text ∧
       participantId m = socketId w ∧ isAnonymous m = formAnonymous form ∧
       studentName m
       = (if formAnonymous form then None else JS.orNull (Some (JS.trim (formName form))))) ∧
  (fst r ≠ SubmitSent →
     dispatched (snd r) = dispatched w ∧
     ∀ j, SessionManager.asSet <$> (table (snd r) !! j)
          = SessionManager.asSet <$> (table w !! j)).
Proof.
  intros text r. subst text r. unfold handleSubmitMessage.
  pose proof (getSession_asSet w sessionId) as Hsame.
  pose proof (getSession_dispatched sessionId w) as Hd.
  pose proof (getSession_result w sessionId) as Hr.
  pose proof (getSession_table w sessionId sessionId) as Ht.
  rewrite decide_True in Ht by done.
  pose proof (getSession_others w sessionId) as (Hsock & _).
  destruct (getSession sessionId w) as [[s1|] w1]; cbn [fst snd] in *.
  2:{ destruct (table w !! sessionId) as [s|]; [done|].
      split_and!; [|done|done]. split; [done|]. by intros (s & ? & _). }
  destruct (table w !! sessionId) as [s|] eqn:Hk; [|done].
  cbn in Hr, Ht. injection Hr as ->. rewrite mode_asSet.
  destruct (String.eqb_spec (JS.trim (formText form)) "") as [Hempty|Hempty].
  { split_and!; [|done|done]. split; [done|]. by intros (s0 & _ & ? & _). }
  destruct (100 <? countWords (JS.trim (formText form)))%nat eqn:Hlong.
  { apply Nat.ltb_lt in Hlong.
    split_and!; [|done|done]. split; [done|]. intros (s0 & _ & _ & ? & _). lia. }
  apply Nat.ltb_ge in Hlong.
  destruct (isQuestion (mode s) && negb (JS.truthy (formSelected form))) eqn:Hopt.
  { apply andb_true_iff in Hopt as [Hq Hno].
    split_and!; [|done|done]. split; [done|]. intros (s0 & Hs0 & _ & _ & Hsel & _).
    injection Hs0 as <-. destruct (mode s); [done|].
    rewrite (Hsel eq_refl) in Hno. done. }
  assert (Hsel : mode s = Question → JS.truthy (formSelected form) = true).
  { intros Hq. rewrite Hq in Hopt. cbn in Hopt.
    by destruct (JS.truthy (formSelected form)). }
  match goal with |- context [addMessage sessionId ?m e w1] => set (message := m) end.
  destruct (decide (length (messages s) < 100)%nat) as [Hroom|Hfull].
  - assert (Hroom1 : (length (messages (SessionManager.asSet s)) < 100)%nat)
      by by rewrite messages_asSet.
    destruct (addMessage_room w1 sessionId message e _ Ht Hroom1)
      as (Hres & s' & Hs' & He & _).
    destruct (addMessage sessionId message e w1) as [b w2]. cbn [fst snd] in *.
    subst b. cbn [fst snd]. split_and!; [|intros _|done].
    + split; [intros _|done]. by exists s.
    + apply erase_fields in He. destruct He as (_&_&_&_&_&_&_&_&He).
      cbn [messages setMessages] in He. rewrite messages_asSet in He.
      eexists s, s', _. split_and!; [done|done|exact He|..].
      all: subst message; first [reflexivity | exact Hsock | by destruct (formAnonymous form)].
  - rewrite (addMessage_full _ message e _ _ Ht)
      by (rewrite messages_asSet; lia).
    cbn [fst snd]. split_and!; [|done|intros _].
    + split; [done|]. intros (s0 & Hs0 & _ & _ & _ & Hlen). injection Hs0 as <-. lia.
    + split.
      * by rewrite getSession_dispatched.
      * intros j. by rewrite getSession_asSet.
Qed.

(** ** Setting up the ocean scene *)
Section Scene.
Import Ocean.

Lemma initOceanScene_fold isClickable rnd msgs : ∀ bs k,
  let r := foldl (fun '(sc, k) message =>
                    if eligible isClickable message
                    then (snd (createBottle message (rnd k) sc), S k)
                    else (sc, k))
                 ({| bottles := bs; clickableBottles := isClickable;
                     sceneChildren := bs |}, k) msgs in
  ∃ added,
    fst r = {| bottles := bs ++ added; clickableBottles := isClickable;
               sceneChildren := bs ++ added |} ∧
    snd r = (k + length added)%nat ∧
    userMessage <$> added = filter (fun m => eligible isClickable m = true) msgs ∧
    ∀ b, b ∈ added → initialY b = posY (bottlePosition (userMessage b)) + 1.
Proof.
  induction msgs as [|m ms IH]; intros bs k.
  - exists []. cbn. rewrite app_nil_r. split_and!; [done|lia|done|].
    intros b Hb. by apply elem_of_nil in Hb.
  - cbn [foldl]. rewrite filter_cons.
    destruct (eligible isClickable m) eqn:Hel.
    + change (snd (createBottle m (rnd k)
                {| bottles := bs; clickableBottles := isClickable; sceneChildren := bs |}))
        with {| bottles := bs ++ [{| userMessage := m;
                                     initialY := posY (bottlePosition m) + 1;
                                     phaseOffset := rnd k |}];
                clickableBottles := isClickable;
                sceneChildren := bs ++ [{| userMessage := m;
                                           initialY := posY (bottlePosition m) + 1;
                                           phaseOffset := rnd k |}] |}.
      destruct (IH (bs ++ [{| userMessage := m;
                              initialY := posY (bottlePosition m) + 1;
                              phaseOffset := rnd k |}])%list (S k))
        as (added & Hf & Hk & Hmsgs & Hy).
      eexists (_ :: added). cbv zeta in *. rewrite Hf, Hk. rewrite <- !app_assoc.
      split_and!; [done|cbn; lia| |].
      * rewrite decide_True by done. cbn. by rewrite Hmsgs.
      * intros b [->|Hb]%elem_of_cons; [done|by apply Hy].
    + destruct (IH bs k) as (added & Hf & Hk & Hmsgs & Hy).
      exists added. rewrite decide_False by done. done.
Qed.

(** X18.  [initOceanScene] starts from an empty pool whatever the scene
    held: with a canvas the pool is one bottle for each message that is
    unread or shown on a scene that is not clickable, in the order of the
    list, each floating one above the position of its message, and the
    scene holds the same bottles; a call of [updateOceanBottles] with the
    same list then adds nothing.  Without a canvas the function returns
    with the pool emptied and the old scene left as it was. *)
Theorem initOceanScene_pool messages isClickable rnd k old :
  let r := initOceanScene true messages isClickable rnd k old in
  userMessage <$> bottles (fst r)
  = filter (fun m => eligible isClickable m = true) messages ∧
  sceneChildren (fst r) = bottles (fst r) ∧
  clickableBottles (fst r) = isClickable ∧
  snd r = (k + length (bottles (fst r)))%nat ∧
  (∀ b, b ∈ bottles (fst r) → initialY b = posY (bottlePosition (userMessage b)) + 1) ∧
  (∀ rnd' k', updateOceanBottles messages rnd' k' (fst r) = (fst r, k')) ∧
  bottles (fst (initOceanScene false messages isClickable rnd k old)) = [] ∧
  sceneChildren (fst (initOceanScene false messages isClickable rnd k old))
  = sceneChildren old.
Proof.
  intros r. subst r. unfold initOceanScene.
  destruct (initOceanScene_fold isClickable rnd messages [] k)
    as (added & Hf & Hk & Hmsgs & Hy).
  cbv zeta in *. rewrite Hf, Hk. cbn [bottles sceneChildren clickableBottles app fst snd].
  split_and!; try done.
  intros rnd' k'. apply updateOceanBottles_noop.
  cbn [clickableBottles]. intros m Hm Hel. unfold poolIds, bottleIds. cbn [bottles].
  assert (Hin : m ∈ userMessage <$> added).
  { rewrite Hmsgs. apply list_elem_of_filter. done. }
  apply list_elem_of_fmap in Hin as (b & -> & Hb).
  apply list_elem_of_fmap. by exists b.
Qed.

End Scene.

(** ** Joining by code *)

(** The upper-case form of a code unit is not empty, and is white space
    exactly when the code unit is. *)
Lemma upperChar_space c uc :
  JS.upperChar c = Some uc →
  uc ≠ [] ∧ Forall (fun x => JS.isSpace x = JS.isSpace c) uc.
Proof.
  intros Hc.
  pose proof (ascii_all
    (fun c => match JS.upperChar c with
              | Some uc => negb (forallb (fun _ => false) uc)
                           && forallb (fun x => Bool.eqb (JS.isSpace x) (JS.isSpace c)) uc
              | None => true
              end) ltac:(vm_compute; reflexivity) c) as H.
  cbv beta in H. rewrite Hc in H. apply andb_true_iff in H as [Hne Hall]. split.
  - intros ->. done.
  - rewrite forallb_forall in Hall. apply Forall_forall.
    intros x Hx%list_elem_of_In. apply Hall in Hx. by apply Bool.eqb_prop in Hx.
Qed.

(** Upper-casing leaves the code units of an upper-case form as they are. *)
Lemma upperChar_fixed c uc :
  JS.upperChar c = Some uc → Forall (fun x => JS.upperChar x = Some [x]) uc.
Proof.
  intros Hc.
  pose proof (ascii_all
    (fun c => match JS.upperChar c with
              | Some uc => forallb (fun x => match JS.upperChar x with
                                             | Some [y] => Ascii.eqb y x
                                             | _ => false
                                             end) uc
              | None => true
              end) ltac:(vm_compute; reflexivity) c) as H.
  cbv beta in H. rewrite Hc in H. rewrite forallb_forall in H.
  apply Forall_forall. intros x Hx%list_elem_of_In. apply H in Hx.
  destruct (JS.upperChar x) as [[|y [|? ?]]|]; try done.
  apply Ascii.eqb_eq in Hx. by subst.
Qed.

Lemma upperChars_Forall (P : ascii → Prop) :
  (∀ c uc, JS.upperChar c = Some uc → Forall P uc) →
  ∀ l u, JS.upperChars l = Some u → Forall P u.
Proof.
  intros HP l. induction l as [|c l IH]; intros u H; cbn [JS.upperChars] in H.
  - injection H as <-. constructor.
  - destruct (JS.upperChar c) as [uc|] eqn:Hc; [|done].
    destruct (JS.upperChars l) as [ul|]; [|done]. injection H as <-.
    apply Forall_app. split; [by apply (HP c)|by apply IH].
Qed.

Lemma upperChars_fixed u :
  Forall (fun x => JS.upperChar x = Some [x]) u → JS.upperChars u = Some u.
Proof.
  induction 1 as [|x u Hx _ IH]; [done|]. cbn [JS.upperChars]. by rewrite Hx, IH.
Qed.

Lemma upperChars_app a : ∀ b u,
  JS.upperChars (a ++ b) = Some u →
  ∃ ua ub, JS.upperChars a = Some ua ∧ JS.upperChars b = Some ub ∧ u = (ua ++ ub)%list.
Proof.
  induction a as [|c a IH]; intros b u H.
  - exists [], u. by split_and!.
  - cbn [app JS.upperChars] in *.
    destruct (JS.upperChar c) as [uc|]; [|done].
    destruct (JS.upperChars (a ++ b)) as [r|] eqn:Hr; [|done]. injection H as <-.
    destruct (IH b r Hr) as (ua & ub & -> & -> & ->).
    exists (uc ++ ua)%list, ub. split_and!; [done|done|by rewrite app_assoc].
Qed.

Lemma dropSpaces_fixed l :
  (∀ c t, l = c :: t → JS.isSpace c = false) → JS.dropSpaces l = l.
Proof.
  destruct l as [|c t]; [done|]. intros H. cbn [JS.dropSpaces].
  by rewrite (H c t eq_refl).
Qed.

Lemma dropSpaces_idem l : JS.dropSpaces (JS.dropSpaces l) = JS.dropSpaces l.
Proof. apply dropSpaces_fixed. intros c t. apply dropSpaces_head. Qed.

(** The text left by [dropSpaces] is a suffix of its argument. *)
Lemma dropSpaces_suffix l : ∃ sp, l = (sp ++ JS.dropSpaces l)%list.
Proof.
  induction l as [|c l [sp IH]]; [by exists []|]. cbn [JS.dropSpaces].
  destruct (JS.isSpace c); [|by exists []].
  exists (c :: sp). cbn. by rewrite <- IH.
Qed.

(** A trimmed text neither starts nor ends with white space. *)
Lemma trimChars_ends l :
  (∀ c t, JS.trimChars l = c :: t → JS.isSpace c = false) ∧
  (∀ c t, rev (JS.trimChars l) = c :: t → JS.isSpace c = false).
Proof.
  unfold JS.trimChars.
  set (d := JS.dropSpaces l). set (t := JS.dropSpaces (rev d)). split.
  - intros c u Hcu.
    destruct (dropSpaces_suffix (rev d)) as [sp Hsp]. fold t in Hsp.
    assert (Hd : d = (rev t ++ rev sp)%list)
      by by rewrite <- rev_app_distr, <- Hsp, rev_involutive.
    rewrite Hcu in Hd. cbn in Hd. apply (dropSpaces_head l c (u ++ rev sp)%list).
    by rewrite <- Hd.
  - intros c u. rewrite rev_involutive. apply dropSpaces_head.
Qed.

Lemma trimChars_fixed l :
  (∀ c t, l = c :: t → JS.isSpace c = false) →
  (∀ c t, rev l = c :: t → JS.isSpace c = false) →
  JS.trimChars l = l.
Proof.
  intros Hhead Hlast. unfold JS.trimChars.
  rewrite (dropSpaces_fixed l Hhead), (dropSpaces_fixed (rev l) Hlast).
  apply rev_involutive.
Qed.

Lemma trimChars_idem l : JS.trimChars (JS.trimChars l) = JS.trimChars l.
Proof. destruct (trimChars_ends l). by apply trimChars_fixed. Qed.

(** Upper-casing keeps a text trimmed. *)
Lemma upperChars_trimmed l u :
  JS.upperChars l = Some u →
  (∀ c t, l = c :: t → JS.isSpace c = false) →
  (∀ c t, rev l = c :: t → JS.isSpace c = false) →
  JS.trimChars u = u.
Proof.
  intros Hu Hhead Hlast. apply trimChars_fixed.
  - intros x r Hxr. destruct l as [|c t].
    { cbn in Hu. injection Hu as <-. done. }
    cbn [JS.upperChars] in Hu.
    destruct (JS.upperChar c) as [uc|] eqn:Hc; [|done].
    destruct (JS.upperChars t) as [ut|]; [|done]. injection Hu as <-.
    destruct (upperChar_space c uc Hc) as [Hne Hall].
    destruct uc as [|y uc]; [done|]. cbn in Hxr. injection Hxr as <- _.
    apply Forall_cons in Hall as [Hy _]. rewrite Hy. by apply (Hhead c t).
  - intros x r Hxr. destruct (rev l) as [|c t] eqn:Hrev.
    { apply (f_equal (@rev ascii)) in Hrev. rewrite rev_involutive in Hrev. subst l.
      cbn in Hu. injection Hu as <-. done. }
    assert (Hl : l = (rev t ++ [c])%list).
    { apply (f_equal (@rev ascii)) in Hrev. by rewrite rev_involutive in Hrev. }
    rewrite Hl in Hu. apply upperChars_app in Hu as (ua & ub & Ha & Hb & ->).
    cbn [JS.upperChars] in Hb.
    destruct (JS.upperChar c) as [uc|] eqn:Hc; [|done]. injection Hb as <-.
    rewrite app_nil_r in Hxr.
    destruct (upperChar_space c uc Hc) as [Hne Hall].
    rewrite rev_app_distr in Hxr.
    destruct (rev uc) as [|y ry] eqn:Hry.
    { apply (f_equal (@rev ascii)) in Hry. rewrite rev_involutive in Hry. done. }
    cbn in Hxr. injection Hxr as <- _.
    assert (Hy : y ∈ uc).
    { apply list_elem_of_In, in_rev. rewrite Hry. by left. }
    rewrite (proj1 (Forall_forall _ _) Hall y Hy). by apply (Hlast c t).
Qed.

(** The code the join form works out is trimmed and upper-case already:
    the router's [trim] and [toUpperCase] leave it as it is. *)
Lemma toUpperCase_trim_fixed s code :
  JS.toUpperCase (JS.trim s) = Some code →
  JS.trim code = code ∧ JS.toUpperCase code = Some code.
Proof.
  unfold JS.toUpperCase, JS.trim. rewrite chars_str.
  destruct (JS.upperChars (JS.trimChars (JS.chars s))) as [u|] eqn:Hu; [|done].
  intros [= <-]. rewrite !chars_str.
  destruct (trimChars_ends (JS.chars s)) as [Hhead Hlast]. split.
  - by rewrite (upperChars_trimmed _ _ Hu Hhead Hlast).
  - rewrite upperChars_fixed; [done|].
    apply (upperChars_Forall _ upperChar_fixed _ _ Hu).
Qed.

(** X19.  The join form and the router agree.  [handleJoinSession]
    navigates exactly when the trimmed, upper-cased input is not empty and
    is the code of a stored session; the code is none of the names the
    store inherits, and the route the form navigates to hands that same
    code to [renderStudentLanding], which finds the session.  In every case
    no event is dispatched and no stored session changes its fields,
    messages or members. *)
Theorem handleJoinSession_route input w :
  let r := handleJoinSession input w in
  (∀ code, fst r = JoinNavigate code ↔
           JS.toUpperCase (JS.trim input) = Some code ∧ code ≠ "" ∧
           is_Some (table w !! code)) ∧
  (∀ code, fst r = JoinNavigate code →
     (code ∉ objectPrototypeNames) ∧
     handleRoute "join" [code] = ViewStudentLanding (Some code) ∧
     fst (renderStudentLanding code (snd r)) ≠ LandingNotFound) ∧
  dispatched (snd r) = dispatched w ∧
  (∀ j, SessionManager.asSet <$> (table (snd r) !! j)
        = SessionManager.asSet <$> (table w !! j)).
Proof.
  intros r. subst r. unfold handleJoinSession.
  destruct (JS.toUpperCase (JS.trim input)) as [code|] eqn:Hup.
  2:{ unfold SessionManager.getAll. cbn [fst snd].
      split_and!; [|done| |].
      - intros c. split; [done|]. by intros [? _].
      - by rewrite !dispatched_init.
      - intros j. by rewrite !table_init. }
  destruct (String.eqb_spec code "") as [Hempty|Hne]; cbn [fst snd].
  { split_and!; [|done|done|done]. intros c. split; [done|].
    intros ([= <-] & ? & _). done. }
  pose proof (get_result w code) as Hr.
  pose proof (get_asSet w code) as Hsame.
  pose proof (get_table w code code) as Ht. rewrite decide_True in Ht by done.
  destruct (get_others w code) as (_ & Hd & _).
  destruct (SessionManager.get code w) as [[s|] w1]; cbn [fst snd] in *.
  - destruct (table w !! code) as [s0|] eqn:Hk; [|done].
    split_and!; [|intros c [= <-]|done|done].
    + intros c. split.
      * intros [= <-]. split_and!; [done|done|by eexists].
      * by intros ([= <-] & _ & _).
    + destruct (toUpperCase_trim_fixed _ _ Hup) as [Htrim Hfix].
      split; [by apply (toUpperCase_own (JS.trim input))|]. split.
      * unfold handleRoute. cbn [lookup list_lookup default from_option].
        unfold Datatypes.id. by rewrite (truthy_nonempty _ Hne), Htrim, Hfix.
      * unfold renderStudentLanding. cbn in Ht.
        rewrite (getSession_found _ _ _ Ht).
        destruct (negb _); [done|]. destruct (100 <=? _)%nat; [done|].
        destruct (hasSubmitted _ _); [done|].
        match goal with |- context [SessionManager.addParticipant code ?p ?w0] =>
          destruct (SM_addParticipant_found code p w0 _
                      ltac:(by rewrite table_setSessions, table_setGlobalSessions,
                                       lookup_insert_eq)) as (s2 & Hs2 & _);
          destruct (SessionManager.addParticipant code p w0) as [b w2] end.
        cbn [fst snd] in *.
        match goal with |- context [getSession code ?w3] =>
          assert (Hk3 : table w3 !! code = Some s2) by by rewrite table_dispatchEvent end.
        by rewrite (getSession_found _ _ _ Hk3).
  - destruct (table w !! code) as [s0|] eqn:Hk; [done|].
    unfold SessionManager.getAll. cbn [fst snd].
    split_and!; [|done| |].
    + intros c. split; [done|]. intros ([= <-] & _ & [? ?]). congruence.
    + by rewrite dispatched_init.
    + intros j. by rewrite table_init.
Qed.

(** ** The composer *)

Lemma hasSubmitted_spec s w : hasSubmitted s w = true ↔ socketId w ∈ pids s.
Proof.
  split.
  - unfold hasSubmitted, pids. intros (m & Hm & Heq)%existsb_exists.
    apply String.eqb_eq in Heq. rewrite <- Heq.
    apply list_elem_of_fmap. exists m. split; [done|by apply list_elem_of_In].
  - intros Hin. destruct (hasSubmitted s w) eqn:H; [done|].
    by apply hasSubmitted_false in H.
Qed.

(** X20.  [renderComposer] shows the form exactly when the session is
    stored and active and holds no message of this socket, and tells the
    visitor that the message was already sent exactly when the session is
    stored and active and holds one; it dispatches no event and leaves the
    fields, messages and members of every stored session as they are. *)
Theorem renderComposer_outcome sessionId w :
  let r := renderComposer sessionId w in
  (fst r = ComposerForm ↔
     ∃ s, table w !! sessionId = Some s ∧ isActive s = true ∧ socketId w ∉ pids s) ∧
  (fst r = ComposerAlreadySubmitted ↔
     ∃ s, table w !! sessionId = Some s ∧ isActive s = true ∧ socketId w ∈ pids s) ∧
  dispatched (snd r) = dispatched w ∧
  (∀ j, SessionManager.asSet <$> (table (snd r) !! j)
        = SessionManager.asSet <$> (table w !! j)).
Proof.
  intros r. subst r. unfold renderComposer.
  pose proof (getSession_asSet w sessionId) as Hsame.
  pose proof (getSession_dispatched sessionId w) as Hd.
  pose proof (getSession_result w sessionId) as Hr.
  pose proof (getSession_others w sessionId) as (Hsock & _).
  destruct (getSession sessionId w) as [[s1|] w1]; cbn [fst snd] in *.
  2:{ destruct (table w !! sessionId) as [s|]; [done|].
      split_and!; [| |done|done]; (split; [done|]); by intros (s & ? & _). }
  destruct (table w !! sessionId) as [s|] eqn:Hk; [|done].
  cbn in Hr. injection Hr as ->. rewrite isActive_asSet.
  destruct (isActive s) eqn:Hact; cbn [negb fst snd].
  2:{ split_and!; [| |done|done]; (split; [done|]);
        intros (s0 & [= <-] & ? & _); congruence. }
  destruct (hasSubmitted (SessionManager.asSet s) w1) eqn:Hsub; cbn [fst snd].
  - apply hasSubmitted_spec in Hsub. rewrite pids_asSet, Hsock in Hsub.
    split_and!; [| |done|done].
    + split; [done|]. by intros (s0 & [= <-] & _ & ?).
    + split; [intros _|done]. by exists s.
  - apply hasSubmitted_false in Hsub. rewrite pids_asSet, Hsock in Hsub.
    split_and!; [| |done|done].
    + split; [intros _|done]. by exists s.
    + split; [done|]. by intros (s0 & [= <-] & _ & ?).
Qed.

(** ** The word counter and the submission check *)

Lemma countWords_trim text : countWords (JS.trim text) = countWords text.
Proof.
  rewrite !countWords_wordRuns. unfold JS.trim. rewrite chars_str.
  apply wordRuns_trimChars.
Qed.

Lemma trim_empty_iff text : JS.trim text = "" ↔ countWords text = 0%nat.
Proof.
  split.
  - intros H. by rewrite <- countWords_trim, H.
  - intros H. destruct (String.eqb_spec (JS.trim text) "") as [|Hne]; [done|].
    apply countWords_trim_pos in Hne. rewrite countWords_trim in Hne. lia.
Qed.

(** X21.  The live counter and the check at submission agree although the
    counter reads the text as typed and the check reads it trimmed: for a
    stored session the submit button is disabled exactly for the texts
    [handleSubmitMessage] turns away as too long, and the counter shows 0
    exactly for the texts it turns away as empty, for which the button
    stays enabled. *)
Theorem updateWordCount_agrees sessionId form e w s :
  table w !! sessionId = Some s →
  let shown := updateWordCount (formText form) in
  let result := fst (handleSubmitMessage sessionId form e w) in
  fst (fst shown)
  = JS.showInt (Z.of_nat (countWords (JS.trim (formText form)))) +:+ " / 100 words" ∧
  snd (fst shown) = negb (snd shown) ∧
  (snd shown = true ↔ result = SubmitTooLong) ∧
  (countWords (formText form) = 0%nat ↔ result = SubmitEmpty) ∧
  (result = SubmitEmpty → snd shown = false).
Proof.
  intros Hk shown result. subst shown result.
  unfold updateWordCount, handleSubmitMessage.
  rewrite (getSession_found _ _ _ Hk). rewrite countWords_trim.
  pose proof (trim_empty_iff (formText form)) as Hblank.
  destruct (String.eqb_spec (JS.trim (formText form)) "") as [Hempty|Hne].
  - apply Hblank in Hempty as Hzero. rewrite Hzero.
    assert (H100 : (100 <? 0)%nat = false) by by apply Nat.ltb_ge; lia.
    rewrite H100, Nat.ltb_irrefl. cbn [fst snd negb]. split_and!; try done.
  - assert (Hpos : countWords (formText form) ≠ 0%nat) by (intros H; by apply Hblank in H).
    destruct (100 <? countWords (formText form))%nat eqn:Hlong; cbn [fst snd negb].
    + split_and!; try done; split; try done; intros H; discriminate H.
    + assert (Hnot : ∀ r : SubmitResult * World,
                fst r = SubmitNoOption ∨ fst r = SubmitSent ∨ fst r = SubmitFailed →
                fst r ≠ SubmitTooLong ∧ fst r ≠ SubmitEmpty)
        by (intros r [->|[->| ->]]; done).
      match goal with |- context [if ?c then (SubmitNoOption, ?w1) else ?rest] =>
        assert (Hr : fst (if c then (SubmitNoOption, w1) else rest) = SubmitNoOption ∨
                     fst (if c then (SubmitNoOption, w1) else rest) = SubmitSent ∨
                     fst (if c then (SubmitNoOption, w1) else rest) = SubmitFailed);
        [destruct c; [by left|];
         match goal with |- context [addMessage ?k ?m ?e ?w0] =>
           destruct (addMessage k m e w0) as [[|] ?]; auto end|];
        destruct (Hnot _ Hr) as [Hn1 Hn2]
      end.
      assert (H0 : (0 <? countWords (formText form))%nat = true)
        by (apply Nat.ltb_lt; lia).
      rewrite H0. cbn [fst snd negb]. split_and!; try done.
Qed.

Lemma updateWordCount_agrees_witness :
  table Sample.created !! "ABCDEFGH" = Some Sample.session0 ∧
  fst (fst (updateWordCount (formText Sample.catsForm))) = "3 / 100 words".
Proof.
  assert (H1 : table Sample.created !! "ABCDEFGH" = Some Sample.session0)
    by (vm_compute; reflexivity).
  split; [exact H1|].
  refine (eq_trans (proj1 (updateWordCount_agrees "ABCDEFGH" Sample.catsForm Sample.entropy
                             Sample.created Sample.session0 H1)) _).
  vm_compute. reflexivity.
Defined.
